(** * URL shortener: a shallow embedding of [app/utils.py], [app/models.py]
    and the request handlers of [app/main.py].

    Strings.  A Python [str] is a list of code points, a code point is an
    [ascii] read as a number in 0..255: the development covers every string
    over U+0000..U+00FF.  The character tables ([isspace], [lower_char], the
    classes of the regular expression) are the ones CPython uses on that
    range.  The validator is given a second time on strings of arbitrary
    code points ([Wide]), where the case variants that [re.IGNORECASE]
    finds above U+00FF show.

    Libraries.  [urllib.parse] follows CPython 3.11 ([urlsplit], [urlparse],
    [urlunsplit], [urlunparse]); the validation of a bracketed IPv6 host,
    which goes through the [ipaddress] module, is a parameter.  [re] is a
    matcher by derivatives, proved to decide the language of the pattern.
    [secrets] draws from an arbitrary sequence of numbers.

    Store.  The table [urls] is the list of its rows, oldest first, with
    the constraints of [app/models.py]: the store assigns the primary key
    and refuses a duplicate [short_code].  A query without ORDER BY returns
    rows in table order, strings are compared exactly, integers are
    unbounded.  A handler takes the store and returns its response with the
    new store; the server time of a request is an argument. *)

From Stdlib Require Import Ascii String List Bool Arith ZArith Lia.
From Stdlib Require Import Sorted Permutation.
Import ListNotations.

Definition str := list ascii.
Coercion list_ascii_of_string : string >-> list.

Open Scope string_scope.
Open Scope list_scope.
Open Scope nat_scope.

(** ** Characters *)

Definition ord (c : ascii) : nat := nat_of_ascii c.

Definition in_range (lo hi : nat) (c : ascii) : bool :=
  (lo <=? ord c) && (ord c <=? hi).

Definition chr_eqb (a b : ascii) : bool := Ascii.eqb a b.
Arguments chr_eqb : simpl never.

Definition is_upper (c : ascii) : bool := in_range 65 90 c.
Definition is_lower (c : ascii) : bool := in_range 97 122 c.
Definition is_digit (c : ascii) : bool := in_range 48 57 c.
Definition is_ascii_alpha (c : ascii) : bool := is_upper c || is_lower c.
Definition is_alnum (c : ascii) : bool := is_ascii_alpha c || is_digit c.

(** [str.isspace] / the class [\s] of [re], on U+0000..U+00FF. *)
Definition isspace (c : ascii) : bool :=
  in_range 9 13 c || in_range 28 32 c || (ord c =? 133) || (ord c =? 160).

(** [str.lower] on one code point below 256: A-Z, and the Latin-1 capitals
    U+00C0..U+00DE except the multiplication sign U+00D7. *)
Definition lower_char (c : ascii) : ascii :=
  if is_upper c || in_range 192 214 c || in_range 216 222 c
  then ascii_of_nat (ord c + 32) else c.

(** ** Strings: the [str] methods the program uses *)

Definition lower (s : str) : str := map lower_char s.

Fixpoint str_eqb (a b : str) : bool :=
  match a, b with
  | [], [] => true
  | x :: a', y :: b' => chr_eqb x y && str_eqb a' b'
  | _, _ => false
  end.

Fixpoint startswith (p s : str) : bool :=
  match p, s with
  | [], _ => true
  | x :: p', y :: s' => chr_eqb x y && startswith p' s'
  | _ :: _, [] => false
  end.

Definition endswith (p s : str) : bool := startswith (rev p) (rev s).

(** [c in s] *)
Definition contains (c : ascii) (s : str) : bool := existsb (chr_eqb c) s.

(** [s.find(c)]: [None] stands for Python's -1. *)
Fixpoint find (c : ascii) (s : str) : option nat :=
  match s with
  | [] => None
  | x :: s' => if chr_eqb c x then Some 0
               else option_map S (find c s')
  end.

(** [s.find(c, start)] *)
Definition find_from (c : ascii) (start : nat) (s : str) : option nat :=
  option_map (fun i => start + i) (find c (skipn start s)).

(** [s.rfind(c)] *)
Fixpoint rfind (c : ascii) (s : str) : option nat :=
  match s with
  | [] => None
  | x :: s' => match rfind c s' with
               | Some i => Some (S i)
               | None => if chr_eqb c x then Some 0 else None
               end
  end.

(** [s[lo:hi]] for non-negative bounds *)
Definition slice (s : str) (lo hi : nat) : str := firstn (hi - lo) (skipn lo s).

(** [s[:-n]] *)
Definition drop_last (n : nat) (s : str) : str := firstn (length s - n) s.

(** [s.split(c, 1)] when [c] occurs in [s] *)
Definition split_once (c : ascii) (s : str) : option (str * str) :=
  match find c s with
  | Some i => Some (firstn i s, skipn (S i) s)
  | None => None
  end.

Fixpoint lstrip (chars : ascii -> bool) (s : str) : str :=
  match s with
  | [] => []
  | x :: s' => if chars x then lstrip chars s' else s
  end.

Definition rstrip (chars : ascii -> bool) (s : str) : str :=
  rev (lstrip chars (rev s)).

(** [s.strip()] *)
Definition strip (s : str) : str := rstrip isspace (lstrip isspace s).

(** ** Exceptions *)

Inductive exn : Type :=
| ValueError (msg : str)
| IntegrityError (msg : str).

Inductive outcome (A : Type) : Type :=
| Return (a : A)
| Raise (e : exn).
Arguments Return {A} a.
Arguments Raise {A} e.

Definition bind {A B : Type} (m : outcome A) (k : A -> outcome B) : outcome B :=
  match m with
  | Return a => k a
  | Raise e => Raise e
  end.

Notation "x <- m ;; k" := (bind m (fun x => k))
  (at level 61, m at next level, right associativity).
Notation "' pat <- m ;; k" := (bind m (fun pat => k))
  (at level 61, pat pattern, m at next level, right associativity).

(** ** urllib.parse *)

Module UrlLib.

Definition uses_netloc : list str :=
  [ "" : str; "ftp" : str; "http" : str; "gopher" : str; "nntp" : str;
    "telnet" : str; "imap" : str; "wais" : str; "file" : str; "mms" : str;
    "https" : str; "shttp" : str; "snews" : str; "prospero" : str;
    "rtsp" : str; "rtspu" : str; "rsync" : str; "svn" : str;
    "svn+ssh" : str; "sftp" : str; "nfs" : str; "git" : str;
    "git+ssh" : str; "ws" : str; "wss" : str ].

Definition uses_params : list str :=
  [ "" : str; "ftp" : str; "hdl" : str; "prospero" : str; "http" : str;
    "imap" : str; "https" : str; "shttp" : str; "rtsp" : str;
    "rtspu" : str; "sip" : str; "sips" : str; "mms" : str; "sftp" : str;
    "tel" : str ].

Definition mem (s : str) (l : list str) : bool := existsb (str_eqb s) l.

(** [scheme_chars]: letters, digits and "+-." *)
Definition scheme_char (c : ascii) : bool :=
  is_alnum c || chr_eqb c "+" || chr_eqb c "-" || chr_eqb c ".".

(** [_WHATWG_C0_CONTROL_OR_SPACE]: code points 0..32 *)
Definition c0_control_or_space (c : ascii) : bool := ord c <=? 32.

(** [_UNSAFE_URL_BYTES_TO_REMOVE]: tab, carriage return, line feed *)
Definition unsafe_url_byte (c : ascii) : bool :=
  (ord c =? 9) || (ord c =? 13) || (ord c =? 10).

Definition remove_unsafe (url : str) : str :=
  filter (fun c => negb (unsafe_url_byte c)) url.

Record SplitResult : Type := mkSplit {
  s_scheme : str; s_netloc : str; s_path : str;
  s_query : str; s_fragment : str }.

Record ParseResult : Type := mkParse {
  scheme : str; netloc : str; path : str;
  params : str; query : str; fragment : str }.

Definition _splitnetloc (url : str) (start : nat) : str * str :=
  let delim :=
    fold_left
      (fun delim c =>
         match find_from c start url with
         | Some wdelim => Nat.min delim wdelim
         | None => delim
         end)
      [ "/"%char; "?"%char; "#"%char ] (length url) in
  (slice url start delim, skipn delim url).

Definition _splitparams (url : str) : str * str :=
  if contains "/" url then
    match find_from ";" (match rfind "/" url with Some j => j | None => 0 end)
                    url with
    | None => (url, [])
    | Some i => (firstn i url, skipn (S i) url)
    end
  else
    match find ";" url with
    | Some i => (firstn i url, skipn (S i) url)
    | None => (drop_last 1 url, url)
    end.

Section Parse.

(** [_check_bracketed_netloc netloc], which validates an IPv6 or IPvFuture
    literal with the [ipaddress] module: it returns nothing, or raises a
    [ValueError] whose message depends on the literal.  It is only called
    on a netloc that contains both brackets. *)
Variable check_bracketed_netloc : str -> outcome unit.

(** [_checknetloc] is left out: it raises only when the NFKC form of a
    non-ASCII netloc contains one of "/?#@:", which no code point below 256
    produces. *)
Definition urlsplit (url : str) : outcome SplitResult :=
  let url := lstrip c0_control_or_space url in
  let url := remove_unsafe url in
  let '(scheme, url) :=
    match find ":" url with
    | Some (S i') =>
        let i := S i' in
        if is_ascii_alpha (hd " "%char url) && forallb scheme_char (firstn i url)
        then (lower (firstn i url), skipn (S i) url)
        else ([], url)
    | _ => ([], url)
    end in
  '(netloc, url) <-
    (if str_eqb (firstn 2 url) "//" then
       let '(netloc, rest) := _splitnetloc url 2 in
       if (contains "[" netloc && negb (contains "]" netloc))
          || (contains "]" netloc && negb (contains "[" netloc))
       then Raise (ValueError "Invalid IPv6 URL")
       else if contains "[" netloc && contains "]" netloc
       then match check_bracketed_netloc netloc with
            | Raise e => Raise e
            | Return _ => Return (netloc, rest)
            end
       else Return (netloc, rest)
     else Return ([], url)) ;;
  let '(url, fragment) :=
    match split_once "#" url with
    | Some p => p
    | None => (url, [])
    end in
  let '(url, query) :=
    match split_once "?" url with
    | Some p => p
    | None => (url, [])
    end in
  Return (mkSplit scheme netloc url query fragment).

Definition urlparse (url : str) : outcome ParseResult :=
  r <- urlsplit url ;;
  let '(url, params) :=
    if mem (s_scheme r) uses_params && contains ";" (s_path r)
    then _splitparams (s_path r)
    else (s_path r, []) in
  Return (mkParse (s_scheme r) (s_netloc r) url params
                  (s_query r) (s_fragment r)).

End Parse.

Definition nonempty (s : str) : bool :=
  match s with [] => false | _ => true end.

Definition urlunsplit (scheme netloc url query fragment : str) : str :=
  let url :=
    if nonempty netloc
       || (nonempty scheme && mem scheme uses_netloc
           && negb (str_eqb (firstn 2 url) "//"))
    then
      let url := if nonempty url && negb (str_eqb (firstn 1 url) "/")
                 then "/" ++ url else url in
      "//" ++ netloc ++ url
    else url in
  let url := if nonempty scheme then scheme ++ ":" ++ url else url in
  let url := if nonempty query then url ++ "?" ++ query else url in
  let url := if nonempty fragment then url ++ "#" ++ fragment else url in
  url.

Definition urlunparse (scheme netloc url params query fragment : str) : str :=
  let url := if nonempty params then url ++ ";" ++ params else url in
  urlunsplit scheme netloc url query fragment.

End UrlLib.

(** ** re: regular expressions

    [Cls p] is one character of a class; a literal or class compiled under
    [re.IGNORECASE] is a class closed under ASCII case, which is all that
    [re.IGNORECASE] adds on U+0000..U+00FF; the case variants it finds
    above that range are in [Wide] below.  Bounded repetition [r{lo,hi}]
    is unfolded into concatenations and options. *)

Module Re.

Inductive regex : Type :=
| Nul
| Eps
| Cls (p : ascii -> bool)
| Cat (a b : regex)
| Alt (a b : regex)
| Star (a : regex).

Definition Opt (r : regex) : regex := Alt r Eps.
Definition Plus (r : regex) : regex := Cat r (Star r).

Fixpoint Exactly (n : nat) (r : regex) : regex :=
  match n with
  | 0 => Eps
  | S n' => Cat r (Exactly n' r)
  end.

Fixpoint Upto (n : nat) (r : regex) : regex :=
  match n with
  | 0 => Eps
  | S n' => Opt (Cat r (Upto n' r))
  end.

(** [r{lo,hi}] *)
Definition Rep (lo hi : nat) (r : regex) : regex :=
  Cat (Exactly lo r) (Upto (hi - lo) r).

(** a literal character, case-sensitive *)
Definition Chr (c : ascii) : regex := Cls (chr_eqb c).

(** a literal character under IGNORECASE *)
Definition ChrI (c : ascii) : regex :=
  Cls (fun x => chr_eqb (lower_char x) (lower_char c)).

(** a literal string under IGNORECASE *)
Fixpoint LitI (s : str) : regex :=
  match s with
  | [] => Eps
  | c :: s' => Cat (ChrI c) (LitI s')
  end.

(** [$] without MULTILINE: the end of the string, or just before a line
    feed that is the last character.  As the last item of a pattern it
    consumes that optional line feed. *)
Definition Dollar : regex := Opt (Chr (ascii_of_nat 10)).

(** The language of a regular expression. *)
Inductive star (L : str -> Prop) : str -> Prop :=
| star_nil : star L []
| star_app : forall s1 s2, L s1 -> star L s2 -> star L (s1 ++ s2).

Fixpoint lang (r : regex) (s : str) : Prop :=
  match r with
  | Nul => False
  | Eps => s = []
  | Cls p => exists c, s = [c] /\ p c = true
  | Cat a b => exists s1 s2, s = s1 ++ s2 /\ lang a s1 /\ lang b s2
  | Alt a b => lang a s \/ lang b s
  | Star a => star (lang a) s
  end.

(** Every character class of [r] is included in [P]. *)
Fixpoint classes_within (P : ascii -> bool) (r : regex) : Prop :=
  match r with
  | Nul | Eps => True
  | Cls p => forall c, p c = true -> P c = true
  | Cat a b | Alt a b => classes_within P a /\ classes_within P b
  | Star a => classes_within P a
  end.

(** The matcher: Brzozowski derivatives with the usual simplifications. *)
Fixpoint nullable (r : regex) : bool :=
  match r with
  | Nul => false
  | Eps => true
  | Cls _ => false
  | Cat a b => nullable a && nullable b
  | Alt a b => nullable a || nullable b
  | Star _ => true
  end.

Definition cat (a b : regex) : regex :=
  match a, b with
  | Nul, _ => Nul
  | _, Nul => Nul
  | Eps, _ => b
  | _, _ => Cat a b
  end.

Definition alt (a b : regex) : regex :=
  match a, b with
  | Nul, _ => b
  | _, Nul => a
  | _, _ => Alt a b
  end.

Fixpoint deriv (c : ascii) (r : regex) : regex :=
  match r with
  | Nul => Nul
  | Eps => Nul
  | Cls p => if p c then Eps else Nul
  | Cat a b =>
      if nullable a then alt (cat (deriv c a) b) (deriv c b)
      else cat (deriv c a) b
  | Alt a b => alt (deriv c a) (deriv c b)
  | Star a => cat (deriv c a) (Star a)
  end.

Fixpoint fullmatch (r : regex) (s : str) : bool :=
  match s with
  | [] => nullable r
  | c :: s' => fullmatch (deriv c r) s'
  end.

End Re.

(** ** app/utils.py *)

(** [string.ascii_letters + string.digits] *)
Definition BASE62_CHARS : str :=
  "abcdefghijklmnopqrstuvwxyzABCDEFGHIJKLMNOPQRSTUVWXYZ0123456789".

(** The random source behind [secrets]: an arbitrary sequence of draws and
    the number of draws made so far. *)
Record Rng : Type := mkRng { tape : nat -> nat; pos : nat }.

(** [secrets.choice(seq)] *)
Definition secrets_choice (seq : str) (g : Rng) : ascii * Rng :=
  (nth (tape g (pos g) mod length seq) seq " "%char,
   mkRng (tape g) (S (pos g))).

Fixpoint generate_short_code (length : nat) (g : Rng) : str * Rng :=
  match length with
  | 0 => ([], g)
  | S n =>
      let '(c, g1) := secrets_choice BASE62_CHARS g in
      let '(s, g2) := generate_short_code n g1 in
      (c :: s, g2)
  end.

Module UrlPattern.
Import Re.

Definition alnum : regex := Cls is_alnum.                         (* [A-Z0-9] *)
Definition alnum_dash : regex :=
  Cls (fun c => is_alnum c || chr_eqb c "-").                         (* [A-Z0-9-] *)
Definition alpha : regex := Cls is_ascii_alpha.                   (* [A-Z] *)
Definition digit : regex := Cls is_digit.                         (* \d *)
Definition dot : regex := Chr ".".                                (* \. *)
Definition nonspace : regex := Cls (fun c => negb (isspace c)).   (* \S *)

(** [https?://] *)
Definition scheme_re : regex :=
  Cat (LitI "http") (Cat (Opt (ChrI "s")) (LitI "://")).

(** [[A-Z0-9](?:[A-Z0-9-]{0,61}[A-Z0-9])?\.] *)
Definition label : regex :=
  Cat alnum (Cat (Opt (Cat (Rep 0 61 alnum_dash) alnum)) dot).

(** [(?:label)+[A-Z]{2,6}\.?] *)
Definition domain : regex :=
  Cat (Plus label) (Cat (Rep 2 6 alpha) (Opt dot)).

Definition localhost : regex := LitI "localhost".

(** [\d{1,3}\.\d{1,3}\.\d{1,3}\.\d{1,3}] *)
Definition ipv4 : regex :=
  Cat (Rep 1 3 digit) (Cat dot (Cat (Rep 1 3 digit) (Cat dot
    (Cat (Rep 1 3 digit) (Cat dot (Rep 1 3 digit)))))).

Definition host_re : regex := Alt domain (Alt localhost ipv4).

(** [(?::\d+)?] *)
Definition port_re : regex := Opt (Cat (Chr ":") (Plus digit)).

(** [(?:/?|[/?]\S+)] *)
Definition tail_re : regex :=
  Alt (Opt (Chr "/"))
      (Cat (Cls (fun c => chr_eqb c "/" || chr_eqb c "?")) (Plus nonspace)).

(** The characters a host name can be made of. *)
Definition host_char (c : ascii) : bool :=
  is_alnum c || chr_eqb c "-" || chr_eqb c ".".

Definition url_pattern : regex :=
  Cat scheme_re (Cat host_re (Cat port_re (Cat tail_re Dollar))).

End UrlPattern.

(** [bool(url_pattern.match(url))]: the pattern is anchored at both ends, so
    the match succeeds exactly when the whole string is in its language. *)
Definition is_valid_url (url : str) : bool :=
  Re.fullmatch UrlPattern.url_pattern url.

Section Normalize.

Variable check_bracketed_netloc : str -> outcome unit.

Definition normalize_url (url : str) : outcome str :=
  (* Add scheme if missing *)
  let url := if startswith "http://" url || startswith "https://" url
             then url else "https://" ++ url in
  (* Parse and reconstruct *)
  parsed <- UrlLib.urlparse check_bracketed_netloc url ;;
  (* Lowercase scheme and netloc *)
  let scheme := lower (UrlLib.scheme parsed) in
  let netloc := lower (UrlLib.netloc parsed) in
  (* Remove default ports *)
  let netloc :=
    if endswith ":80" netloc && str_eqb scheme "http" then drop_last 3 netloc
    else if endswith ":443" netloc && str_eqb scheme "https"
         then drop_last 4 netloc
    else netloc in
  (* Remove trailing slash from path if it's just "/" *)
  let path := UrlLib.path parsed in
  let path := if str_eqb path "/" then [] else path in
  (* Reconstruct URL *)
  Return (UrlLib.urlunparse scheme netloc path (UrlLib.params parsed)
                            (UrlLib.query parsed) []).

End Normalize.

(** ** [is_valid_url] on every code point

    The validator once more, on strings of arbitrary code points, with the
    tables of CPython 3.11 (Unicode 14): under [re.IGNORECASE] a letter
    of the pattern also matches the code points that [re] treats as its
    case variants, [\d] is any decimal digit and [\S] anything but a
    space.  On U+0000..U+00FF it is [is_valid_url] above
    ([wide_is_valid_url]). *)

Module Wide.

Local Open Scope N_scope.

Definition ustr := list N.

(** the code point of a character below 256, and those of a string *)
Definition code (c : ascii) : N := N_of_ascii c.
Definition codes (s : str) : ustr := map code s.

Definition between (lo hi c : N) : bool := (lo <=? c) && (c <=? hi).

Inductive regex : Type :=
| Nul
| Eps
| Cls (p : N -> bool)
| Cat (a b : regex)
| Alt (a b : regex)
| Star (a : regex).

Definition Opt (r : regex) : regex := Alt r Eps.
Definition Plus (r : regex) : regex := Cat r (Star r).

Fixpoint Exactly (n : nat) (r : regex) : regex :=
  match n with
  | O => Eps
  | S n' => Cat r (Exactly n' r)
  end.

Fixpoint Upto (n : nat) (r : regex) : regex :=
  match n with
  | O => Eps
  | S n' => Opt (Cat r (Upto n' r))
  end.

Definition Rep (lo hi : nat) (r : regex) : regex :=
  Cat (Exactly lo r) (Upto (hi - lo) r).

Definition Chr (c : N) : regex := Cls (N.eqb c).

(** The code points above U+007F that [re.IGNORECASE] matches with a
    lower-case ASCII letter: U+0130 and U+0131 with i, U+212A with k,
    U+017F with s. *)
Definition variants (a : N) : list N :=
  if a =? 0x69 then [0x130; 0x131]
  else if a =? 0x6b then [0x212a]
  else if a =? 0x73 then [0x17f]
  else [].

Definition lower_ascii (a : N) : N := if between 0x41 0x5a a then a + 32 else a.

(** [c] matches the literal character [a] under IGNORECASE *)
Definition matches_i (a c : N) : bool :=
  let l := lower_ascii a in
  (c =? l)
  || (between 0x61 0x7a l
      && ((c =? l - 32) || existsb (N.eqb c) (variants l))).

Definition ChrI (a : N) : regex := Cls (matches_i a).

Fixpoint LitI (s : ustr) : regex :=
  match s with
  | [] => Eps
  | c :: s' => Cat (ChrI c) (LitI s')
  end.

Definition Dollar : regex := Opt (Chr 10).

Inductive star (L : ustr -> Prop) : ustr -> Prop :=
| star_nil : star L []
| star_app : forall s1 s2, L s1 -> star L s2 -> star L (s1 ++ s2).

Fixpoint lang (r : regex) (s : ustr) : Prop :=
  match r with
  | Nul => False
  | Eps => s = []
  | Cls p => exists c, s = [c] /\ p c = true
  | Cat a b => exists s1 s2, s = s1 ++ s2 /\ lang a s1 /\ lang b s2
  | Alt a b => lang a s \/ lang b s
  | Star a => star (lang a) s
  end.

Fixpoint nullable (r : regex) : bool :=
  match r with
  | Nul => false
  | Eps => true
  | Cls _ => false
  | Cat a b => nullable a && nullable b
  | Alt a b => nullable a || nullable b
  | Star _ => true
  end.

Definition cat (a b : regex) : regex :=
  match a, b with
  | Nul, _ => Nul
  | _, Nul => Nul
  | Eps, _ => b
  | _, _ => Cat a b
  end.

Definition alt (a b : regex) : regex :=
  match a, b with
  | Nul, _ => b
  | _, Nul => a
  | _, _ => Alt a b
  end.

Fixpoint deriv (c : N) (r : regex) : regex :=
  match r with
  | Nul => Nul
  | Eps => Nul
  | Cls p => if p c then Eps else Nul
  | Cat a b =>
      if nullable a then alt (cat (deriv c a) b) (deriv c b)
      else cat (deriv c a) b
  | Alt a b => alt (deriv c a) (deriv c b)
  | Star a => cat (deriv c a) (Star a)
  end.

Fixpoint fullmatch (r : regex) (s : ustr) : bool :=
  match s with
  | [] => nullable r
  | c :: s' => fullmatch (deriv c r) s'
  end.

(** [[A-Z]] under IGNORECASE: the 52 ASCII letters and U+0130, U+0131,
    U+017F, U+212A. *)
Definition is_letter (c : N) : bool :=
  between 0x41 0x5a c || between 0x61 0x7a c
  || existsb (N.eqb c) [0x130; 0x131; 0x17f; 0x212a].

Definition is_digit09 (c : N) : bool := between 0x30 0x39 c.

(** The zeros of the runs of ten decimal digits (category Nd), and the
    fifty mathematical digits U+1D7CE..U+1D7FF. *)
Definition decimal_zeros : list N :=
  [ 0x30; 0x660; 0x6f0; 0x7c0; 0x966; 0x9e6; 0xa66; 0xae6; 0xb66; 0xbe6;
    0xc66; 0xce6; 0xd66; 0xde6; 0xe50; 0xed0; 0xf20; 0x1040; 0x1090;
    0x17e0; 0x1810; 0x1946; 0x19d0; 0x1a80; 0x1a90; 0x1b50; 0x1bb0; 0x1c40;
    0x1c50; 0xa620; 0xa8d0; 0xa900; 0xa9d0; 0xa9f0; 0xaa50; 0xabf0; 0xff10;
    0x104a0; 0x10d30; 0x11066; 0x110f0; 0x11136; 0x111d0; 0x112f0; 0x11450;
    0x114d0; 0x11650; 0x116c0; 0x11730; 0x118e0; 0x11950; 0x11c50; 0x11d50;
    0x11da0; 0x16a60; 0x16ac0; 0x16b50; 0x1e140; 0x1e2f0; 0x1e950; 0x1fbf0 ].

(** [\d] *)
Definition is_decimal (c : N) : bool :=
  existsb (fun z => between z (z + 9) c) decimal_zeros
  || between 0x1d7ce 0x1d7ff c.

(** [\s] *)
Definition is_space (c : N) : bool :=
  between 0x9 0xd c || between 0x1c 0x20 c || (c =? 0x85) || (c =? 0xa0)
  || (c =? 0x1680) || between 0x2000 0x200a c || between 0x2028 0x2029 c
  || (c =? 0x202f) || (c =? 0x205f) || (c =? 0x3000).

Definition alnum : regex := Cls (fun c => is_letter c || is_digit09 c).
Definition alnum_dash : regex :=
  Cls (fun c => is_letter c || is_digit09 c || (c =? 0x2d)).
Definition alpha : regex := Cls is_letter.
Definition digit : regex := Cls is_decimal.
Definition dot : regex := Chr 0x2e.
Definition nonspace : regex := Cls (fun c => negb (is_space c)).

Definition scheme_re : regex :=
  Cat (LitI (codes "http")) (Cat (Opt (ChrI 0x73)) (LitI (codes "://"))).

Definition label : regex :=
  Cat alnum (Cat (Opt (Cat (Rep 0 61 alnum_dash) alnum)) dot).

Definition domain : regex :=
  Cat (Plus label) (Cat (Rep 2 6 alpha) (Opt dot)).

Definition localhost : regex := LitI (codes "localhost").

Definition ipv4 : regex :=
  Cat (Rep 1 3 digit) (Cat dot (Cat (Rep 1 3 digit) (Cat dot
    (Cat (Rep 1 3 digit) (Cat dot (Rep 1 3 digit)))))).

Definition host_re : regex := Alt domain (Alt localhost ipv4).

Definition port_re : regex := Opt (Cat (Chr 0x3a) (Plus digit)).

Definition tail_re : regex :=
  Alt (Opt (Chr 0x2f))
      (Cat (Cls (fun c => (c =? 0x2f) || (c =? 0x3f))) (Plus nonspace)).

Definition url_pattern : regex :=
  Cat scheme_re (Cat host_re (Cat port_re (Cat tail_re Dollar))).

Definition is_valid_url (url : ustr) : bool := fullmatch url_pattern url.

End Wide.

(** The two matchers run the same expression: the classes of the second
    are those of the first on the code points below 256. *)
Inductive similar : Re.regex -> Wide.regex -> Prop :=
| sim_Nul : similar Re.Nul Wide.Nul
| sim_Eps : similar Re.Eps Wide.Eps
| sim_Cls : forall p q,
    (forall c, q (Wide.code c) = p c) -> similar (Re.Cls p) (Wide.Cls q)
| sim_Cat : forall a b a' b',
    similar a a' -> similar b b' -> similar (Re.Cat a b) (Wide.Cat a' b')
| sim_Alt : forall a b a' b',
    similar a a' -> similar b b' -> similar (Re.Alt a b) (Wide.Alt a' b')
| sim_Star : forall a a', similar a a' -> similar (Re.Star a) (Wide.Star a').

(** [s] is the lower-case ASCII word [w] in some letter case: for a word
    made of the letters of "https" this is [s.lower() == w]. *)
Definition spells (w : str) (s : Wide.ustr) : Prop :=
  Forall2 (fun a c => c = Wide.code a \/ c = (Wide.code a - 32)%N) w s.

(** the scheme is http or https *)
Definition http_scheme (sch : Wide.ustr) : Prop :=
  spells "http" sch \/ spells "https" sch.

(** U+017F, the long s *)
Definition long_s : N := 0x17f%N.

(** the schemes [is_valid_url] lets through *)
Definition accepted_scheme (sch : Wide.ustr) : Prop :=
  http_scheme sch \/ exists p, sch = p ++ [long_s] /\ spells "http" p.

(** ** app/models.py: the table [urls] *)

Record URL : Type := mkURL {
  id : Z;                 (* Integer, primary_key *)
  long_url : str;         (* String(2048), nullable=False *)
  short_code : str;       (* String(10), unique=True, nullable=False *)
  created_at : Z;         (* DateTime, server_default=func.now() *)
  click_count : Z         (* Integer, default=0 *)
}.

(** The rows of [urls], oldest first. *)
Definition Store : Type := list URL.

Definition set_click_count (v : Z) (r : URL) : URL :=
  mkURL (id r) (long_url r) (short_code r) (created_at r) v.

Module Db.

(** [db.query(URL).filter(p).first()] *)
Definition first (p : URL -> bool) (db : Store) : option URL := List.find p db.

Definition by_long_url (u : str) (r : URL) : bool := str_eqb (long_url r) u.
Definition by_short_code (c : str) (r : URL) : bool := str_eqb (short_code r) c.

(** The key the store gives to a new row: larger than every key in use. *)
Definition next_id (db : Store) : Z :=
  (1 + fold_right Z.max 0 (map id db))%Z.

(** [db.add(URL(long_url=..., short_code=...)); db.commit();
    db.refresh(new_url)]: the INSERT fails on the unique constraint of
    [short_code]; otherwise the row gets its key, the server time and the
    default click count. *)
Definition add_commit (now : Z) (long_url short_code : str) (db : Store)
  : outcome (URL * Store) :=
  if existsb (by_short_code short_code) db
  then Raise (IntegrityError "UNIQUE constraint failed: urls.short_code")
  else let row := mkURL (next_id db) long_url short_code now 0%Z in
       Return (row, db ++ [row]).

(** [db.commit()] after [click_count] was assigned on a loaded record:
    UPDATE urls SET click_count = v WHERE urls.id = rec_id *)
Definition update_click_count (rec_id : Z) (v : Z) (db : Store) : Store :=
  map (fun r => if (id r =? rec_id)%Z then set_click_count v r else r) db.

(** ORDER BY click_count DESC, rows with equal counts in table order *)
Fixpoint insert_desc (x : URL) (l : list URL) : list URL :=
  match l with
  | [] => [x]
  | y :: l' => if (click_count y <=? click_count x)%Z then x :: y :: l'
               else y :: insert_desc x l'
  end.

Definition order_by_click_count_desc (db : Store) : list URL :=
  fold_right insert_desc [] db.

End Db.

(** ** app/main.py *)

(** Values of a template context; the [request] entry is left out. *)
Inductive value : Type :=
| VStr (s : str)
| VRows (rows : list URL).

Definition context : Type := list (str * value).

Inductive Response : Type :=
| TemplateResponse (name : str) (ctx : context) (status_code : nat)
| RedirectResponse (url : str) (status_code : nat).

Fixpoint lookup (k : str) (ctx : context) : option value :=
  match ctx with
  | [] => None
  | (k', v) :: ctx' => if str_eqb k k' then Some v else lookup k ctx'
  end.

Definition invalid_url_message : str :=
  "Invalid URL format. Please enter a valid URL.".
Definition exhausted_message : str :=
  "Failed to generate unique short code. Please try again.".

Section Handlers.

Variable check_bracketed_netloc : str -> outcome unit.
Variable BASE_URL : str.

(** [for _ in range(attempts): ... break / else: ...]: [Some code] after a
    [break], [None] when the loop runs out and its [else] branch is taken. *)
Fixpoint unique_code_loop (attempts : nat) (db : Store) (g : Rng)
  : option str * Rng :=
  match attempts with
  | 0 => (None, g)
  | S n =>
      let '(short_code, g1) := generate_short_code 6 g in
      (* Check if code already exists *)
      match Db.first (Db.by_short_code short_code) db with
      | None => (Some short_code, g1)
      | Some _ => unique_code_loop n db g1
      end
  end.

Definition max_attempts : nat := 10.

(** [POST /shorten].  [form_url] is the form field [long_url], [now] the
    server time of the request. *)
Definition shorten_url (form_url : str) (now : Z) (g : Rng) (db : Store)
  : outcome Response * Rng * Store :=
  match normalize_url check_bracketed_netloc (strip form_url) with
  | Raise e => (Raise e, g, db)
  | Return normalized_url =>
    if negb (is_valid_url normalized_url) then
      (Return (TemplateResponse "index.html"
                 [ ("error" : str, VStr invalid_url_message);
                   ("long_url" : str, VStr form_url);
                   ("base_url" : str, VStr BASE_URL) ] 200), g, db)
    else
      (* Check if URL already exists *)
      match Db.first (Db.by_long_url normalized_url) db with
      | Some existing =>
          let short_url := BASE_URL ++ "/" ++ short_code existing in
          (Return (TemplateResponse "index.html"
                     [ ("short_url" : str, VStr short_url);
                       ("short_code" : str, VStr (short_code existing));
                       ("base_url" : str, VStr BASE_URL) ] 200), g, db)
      | None =>
          (* Generate unique short code *)
          match unique_code_loop max_attempts db g with
          | (None, g') =>
              (Return (TemplateResponse "index.html"
                         [ ("error" : str, VStr exhausted_message);
                           ("base_url" : str, VStr BASE_URL) ] 200), g', db)
          | (Some short_code, g') =>
              (* Create new URL record *)
              match Db.add_commit now normalized_url short_code db with
              | Raise e => (Raise e, g', db)
              | Return (new_url, db') =>
                  let short_url := BASE_URL ++ "/" ++ short_code in
                  (Return (TemplateResponse "index.html"
                             [ ("short_url" : str, VStr short_url);
                               ("short_code" : str, VStr short_code);
                               ("base_url" : str, VStr BASE_URL) ] 200),
                   g', db')
              end
          end
      end
  end.

(** [GET /analytics] *)
Definition analytics (db : Store) : Response * Store :=
  let urls := firstn 50 (Db.order_by_click_count_desc db) in
  (TemplateResponse "analytics.html"
     [ ("urls" : str, VRows urls); ("base_url" : str, VStr BASE_URL) ] 200,
   db).

(** [GET /{short_code}] *)
Definition redirect_to_url (code : str) (db : Store) : Response * Store :=
  (* Look up short code *)
  match Db.first (Db.by_short_code code) db with
  | None =>
      (TemplateResponse "404.html"
         [ ("short_code" : str, VStr code); ("base_url" : str, VStr BASE_URL) ]
         404, db)
  | Some url_record =>
      (* Increment click count *)
      let url_record :=
        set_click_count (click_count url_record + 1)%Z url_record in
      let db :=
        Db.update_click_count (id url_record) (click_count url_record) db in
      (* Redirect to original URL *)
      (RedirectResponse (long_url url_record) 302, db)
  end.

(** *** Requests in flight

    One [GET /{short_code}] talks to the store twice: the SELECT of the
    lookup and the UPDATE of the commit.  Between the two, the handler holds
    the record it loaded.  A schedule picks which request moves next. *)
Inductive request_state : Type :=
| Arrived (code : str)
| Loaded (url_record : URL)
| Answered (r : Response).

Definition request_step (t : request_state) (db : Store)
  : request_state * Store :=
  match t with
  | Arrived code =>
      match Db.first (Db.by_short_code code) db with
      | None =>
          (Answered (TemplateResponse "404.html"
             [ ("short_code" : str, VStr code);
               ("base_url" : str, VStr BASE_URL) ] 404), db)
      | Some url_record => (Loaded url_record, db)
      end
  | Loaded url_record =>
      let url_record :=
        set_click_count (click_count url_record + 1)%Z url_record in
      (Answered (RedirectResponse (long_url url_record) 302),
       Db.update_click_count (id url_record) (click_count url_record) db)
  | Answered r => (Answered r, db)
  end.

Fixpoint set_nth {A : Type} (i : nat) (x : A) (l : list A) : list A :=
  match l, i with
  | [], _ => []
  | _ :: l', 0 => x :: l'
  | y :: l', S i' => y :: set_nth i' x l'
  end.

Fixpoint run_schedule (sched : list nat) (ts : list request_state)
  (db : Store) : list request_state * Store :=
  match sched with
  | [] => (ts, db)
  | i :: sched' =>
      match nth_error ts i with
      | None => run_schedule sched' ts db
      | Some t =>
          let '(t', db') := request_step t db in
          run_schedule sched' (set_nth i t' ts) db'
      end
  end.

(** [k] resolutions of [code], one after the other *)
Fixpoint resolve_times (k : nat) (code : str) (db : Store) : Store :=
  match k with
  | 0 => db
  | S k' => resolve_times k' code (snd (redirect_to_url code db))
  end.

(** A sequence of [POST /shorten] requests, each a form field and a time. *)
Fixpoint shorten_all (reqs : list (str * Z)) (g : Rng) (db : Store)
  : list (outcome Response) * Rng * Store :=
  match reqs with
  | [] => ([], g, db)
  | (form_url, now) :: reqs' =>
      let '(r, g1, db1) := shorten_url form_url now g db in
      let '(rs, g2, db2) := shorten_all reqs' g1 db1 in
      (r :: rs, g2, db2)
  end.

End Handlers.

(** ** The outcomes of the specification, read off a response *)

Inductive shorten_result : Type :=
| Shortened (short_code : str)
| InvalidUrl
| CodeSpaceExhausted.

Definition shorten_view (r : outcome Response) : option shorten_result :=
  match r with
  | Return (TemplateResponse _ ctx _) =>
      match lookup "error" ctx with
      | Some (VStr e) =>
          if str_eqb e invalid_url_message then Some InvalidUrl
          else if str_eqb e exhausted_message then Some CodeSpaceExhausted
          else None
      | Some _ => None
      | None =>
          match lookup "short_code" ctx with
          | Some (VStr c) => Some (Shortened c)
          | _ => None
          end
      end
  | _ => None
  end.

Inductive resolve_result : Type :=
| Found (long_url : str)
| NotFound.

Definition resolve_view (r : Response) : option resolve_result :=
  match r with
  | RedirectResponse url 302 => Some (Found url)
  | TemplateResponse _ _ 404 => Some NotFound
  | _ => None
  end.

(** ** Store states

    Every handler reaches the store through [Db.add_commit] and
    [Db.update_click_count] only, so the states below include all those a
    run of the handlers can produce, in any order and interleaving. *)
Inductive reachable : Store -> Prop :=
| reach_empty : reachable []
| reach_add : forall db now lu sc row db',
    reachable db ->
    Db.add_commit now lu sc db = Return (row, db') ->
    reachable db'
| reach_update : forall db rec_id v,
    reachable db ->
    reachable (Db.update_click_count rec_id v db).

(** The stores produced by serving requests one at a time, starting from
    the empty table. *)
Inductive served (check_bracketed_netloc : str -> outcome unit)
  (BASE_URL : str)
  : Store -> Prop :=
| served_empty : served check_bracketed_netloc BASE_URL []
| served_shorten : forall db form_url now g,
    served check_bracketed_netloc BASE_URL db ->
    served check_bracketed_netloc BASE_URL
           (snd (shorten_url check_bracketed_netloc BASE_URL form_url now g db))
| served_redirect : forall db code,
    served check_bracketed_netloc BASE_URL db ->
    served check_bracketed_netloc BASE_URL (snd (redirect_to_url BASE_URL code db))
| served_analytics : forall db,
    served check_bracketed_netloc BASE_URL db ->
    served check_bracketed_netloc BASE_URL (snd (analytics BASE_URL db)).

(** The constraints of the table. *)
Definition pk_unique (db : Store) : Prop := NoDup (map id db).
Definition short_code_unique (db : Store) : Prop := NoDup (map short_code db).

(** At most one mapping per normalized URL. *)
Definition long_url_unique (db : Store) : Prop := NoDup (map long_url db).

(** The codes the generator hands out on [n] successive calls. *)
Fixpoint candidates (n : nat) (g : Rng) : list str :=
  match n with
  | 0 => []
  | S n' => let '(c, g1) := generate_short_code 6 g in c :: candidates n' g1
  end.

(** The short codes a list of responses carries, in order. *)
Fixpoint returned_codes (rs : list (outcome Response)) : list str :=
  match rs with
  | [] => []
  | r :: rs' =>
      match shorten_view r with
      | Some (Shortened c) => c :: returned_codes rs'
      | _ => returned_codes rs'
      end
  end.

(** The rows a response of [analytics] shows. *)
Definition shown_urls (r : Response) : list URL :=
  match r with
  | TemplateResponse _ ctx _ =>
      match lookup "urls" ctx with
      | Some (VRows rows) => rows
      | _ => []
      end
  | _ => []
  end.

(** [a] has at least as many clicks as [b]. *)
Definition more_clicks (a b : URL) : Prop := (click_count b <= click_count a)%Z.

(** The click count of the mapping a code resolves to. *)
Definition clicks_of (code : str) (db : Store) : option Z :=
  option_map click_count (Db.first (Db.by_short_code code) db).

(** ** What the parser computes, in closed form

    The functions below restate, by structural recursion, the pieces
    [urlsplit], [urlparse] and [normalize_url] cut out of a URL.  They are
    related to the code in the proofs about [normalize_url]. *)

Module Parts.

(** the part of [s] before the first [c], or all of [s] *)
Fixpoint before (c : ascii) (s : str) : str :=
  match s with
  | [] => []
  | x :: s' => if chr_eqb c x then [] else x :: before c s'
  end.

(** the part of [s] after the first [c], or nothing *)
Fixpoint after (c : ascii) (s : str) : str :=
  match s with
  | [] => []
  | x :: s' => if chr_eqb c x then s' else after c s'
  end.

(** the characters that end the authority *)
Definition is_delim (c : ascii) : bool :=
  chr_eqb "/" c || chr_eqb "?" c || chr_eqb "#" c.

Fixpoint before_delim (s : str) : str :=
  match s with
  | [] => []
  | x :: s' => if is_delim x then [] else x :: before_delim s'
  end.

Fixpoint from_delim (s : str) : str :=
  match s with
  | [] => []
  | x :: s' => if is_delim x then s else from_delim s'
  end.

(** characters that pass through the parser untouched inside an authority *)
Definition plain (c : ascii) : bool :=
  negb (is_delim c) && negb (UrlLib.unsafe_url_byte c)
  && negb (chr_eqb "[" c) && negb (chr_eqb "]" c).

Definition safe (c : ascii) : bool := negb (UrlLib.unsafe_url_byte c).

Definition strip_default_port (scheme netloc : str) : str :=
  if endswith ":80" netloc && str_eqb scheme "http" then drop_last 3 netloc
  else if endswith ":443" netloc && str_eqb scheme "https"
       then drop_last 4 netloc
  else netloc.

Definition collapse_root (path : str) : str :=
  if str_eqb path "/" then [] else path.

(** path and params of a path, for a scheme that uses params *)
Definition split_params (path0 : str) : str * str :=
  if contains ";" path0 then UrlLib._splitparams path0 else (path0, []).

(** path, params and query of what follows the authority *)
Definition tail_parts (rest : str) : str * str * str :=
  let r1 := before "#" rest in
  let '(p, pr) := split_params (before "?" r1) in
  (p, pr, after "?" r1).

(** the text [urlunparse] writes after a non-empty authority *)
Definition path_text (p pr : str) : str :=
  let url := if UrlLib.nonempty pr then collapse_root p ++ ";" ++ pr
             else collapse_root p in
  if UrlLib.nonempty url && negb (str_eqb (firstn 1 url) "/")
  then "/" ++ url else url.

Definition query_text (q : str) : str :=
  if UrlLib.nonempty q then "?" ++ q else [].

Definition no_colon (s : str) : Prop :=
  Forall (fun x => chr_eqb ":" x = false) s.

(** a path is empty or begins with "/" *)
Definition path_ok (path0 : str) : Prop :=
  path0 = [] \/ exists w, path0 = "/"%char :: w.

(** what follows an authority is empty or begins with a delimiter *)
Definition head_delim (r : str) : Prop :=
  r = [] \/ exists c t, r = c :: t /\ is_delim c = true.

(** the normal form of scheme, authority and rest *)
Definition rebuild (scheme netloc rest : str) : str :=
  let '(p, pr, q) := tail_parts rest in
  UrlLib.urlunparse scheme (strip_default_port scheme (lower netloc))
                    (collapse_root p) pr q [].

End Parts.

(** ** Predicates used to state further properties *)

(** What every stored row looks like: a long URL the validator accepts, a
    code of six letters and digits, a count that is not negative and a
    positive key. *)
Definition row_ok (r : URL) : Prop :=
  is_valid_url (long_url r) = true
  /\ length (short_code r) = 6
  /\ Forall (fun c => is_alnum c = true) (short_code r)
  /\ (0 <= click_count r)%Z
  /\ (1 <= id r)%Z.

(** [r'] is the row [r] with the same or a larger click count. *)
Definition same_mapping (r r' : URL) : Prop :=
  id r' = id r /\ long_url r' = long_url r
  /\ short_code r' = short_code r /\ created_at r' = created_at r
  /\ (click_count r <= click_count r')%Z.

(** The URL [normalize_url] parses: the input, with "https://" in front
    when it has no lower-case "http://" or "https://". *)
Definition with_scheme (url : str) : str :=
  if startswith "http://" url || startswith "https://" url
  then url else "https://" ++ url.

(** The exception [urlsplit] raises for the brackets of a netloc, if any:
    its own for a bracket without its partner, or the one of the check of
    a bracketed host. *)
Definition bracket_error (check : str -> outcome unit) (netloc : str)
  : option exn :=
  if (contains "[" netloc && negb (contains "]" netloc))
     || (contains "]" netloc && negb (contains "[" netloc))
  then Some (ValueError "Invalid IPv6 URL")
  else if contains "[" netloc && contains "]" netloc
  then match check netloc with Raise e => Some e | Return _ => None end
  else None.

(** [str.isascii] on one code point *)
Definition is_ascii (c : ascii) : bool := ord c <? 128.

(** a candidate code that no row of the store carries *)
Definition free_code (db : Store) (c : str) : bool :=
  negb (existsb (Db.by_short_code c) db).

(** Every character class of [r] is closed under [lower_char]. *)
Fixpoint lower_closed (r : Re.regex) : Prop :=
  match r with
  | Re.Nul | Re.Eps => True
  | Re.Cls p => forall c, p c = true -> p (lower_char c) = true
  | Re.Cat a b | Re.Alt a b => lower_closed a /\ lower_closed b
  | Re.Star a => lower_closed a
  end.

(** ** Concrete stores and sources of randomness used in the examples *)

Module Samples.

Definition base_url : str := "http://localhost:8000".

(** An instance of the bracket check: it raises on every bracketed host.
    No run below reaches it: none has a netloc with both brackets. *)
Definition reject_brackets (netloc : str) : outcome unit :=
  Raise (ValueError "does not appear to be an IPv4 or IPv6 address").

Definition row_A : URL := mkURL 1 "https://a.example.com" "AAAAAA" 100 5.
Definition row_B : URL := mkURL 2 "https://b.example.com" "BBBBBB" 101 10.
Definition row_C : URL := mkURL 3 "https://c.example.com" "CCCCCC" 102 1.

(** Click counts A:5, B:10, C:1. *)
Definition store_ABC : Store := [row_A; row_B; row_C].

(** A source that always draws index 0: every code is "aaaaaa". *)
Definition rng_zero : Rng := mkRng (fun _ => 0) 0.

(** A source whose [i]-th draw is [i]: the first code is "abcdef". *)
Definition rng_count : Rng := mkRng (fun i => i) 0.

(** A store in which the code "aaaaaa" is taken. *)
Definition store_taken : Store :=
  [mkURL 1 "https://taken.example.com" "aaaaaa" 100 0].

Definition row_fresh : URL := mkURL 1 "https://example.com" "abc123" 100 0.

(** "http", U+017F, "://example.com" *)
Definition long_s_url : Wide.ustr :=
  Wide.codes "http" ++ [long_s] ++ Wide.codes "://example.com".

End Samples.

(** * Proofs *)

(** ** Characters and strings *)

Ltac all_chars c :=
  destruct c as [[|] [|] [|] [|] [|] [|] [|] [|]].

Lemma chr_eqb_eq (a b : ascii) : chr_eqb a b = true <-> a = b.
Proof. apply Ascii.eqb_eq. Qed.

Lemma chr_eqb_refl (a : ascii) : chr_eqb a a = true.
Proof. apply Ascii.eqb_refl. Qed.

Lemma str_eqb_eq (a b : str) : str_eqb a b = true <-> a = b.
Proof.
  revert b; induction a as [|x a IH]; intros [|y b]; simpl;
    try (split; [discriminate | discriminate]); try tauto.
  rewrite andb_true_iff, chr_eqb_eq, IH. split.
  - intros [-> ->]; reflexivity.
  - intros H; injection H; auto.
Qed.

Lemma str_eqb_refl (a : str) : str_eqb a a = true.
Proof. apply str_eqb_eq; reflexivity. Qed.

Lemma str_eqb_neq (a b : str) : str_eqb a b = false <-> a <> b.
Proof.
  split.
  - intros H E. apply str_eqb_eq in E. congruence.
  - intros H. destruct (str_eqb a b) eqn:E; [|reflexivity].
    apply str_eqb_eq in E. contradiction.
Qed.

Lemma lower_char_idem (c : ascii) : lower_char (lower_char c) = lower_char c.
Proof. all_chars c; reflexivity. Qed.

Lemma lower_idem (s : str) : lower (lower s) = lower s.
Proof.
  unfold lower. rewrite map_map. apply map_ext. apply lower_char_idem.
Qed.

(** ** The matcher decides the language *)

Module ReFacts.
Import Re.

Lemma nullable_lang (r : regex) : nullable r = true <-> lang r [].
Proof.
  induction r; simpl.
  - split; [discriminate | tauto].
  - tauto.
  - split; [discriminate | intros (c & H & _); discriminate].
  - rewrite andb_true_iff, IHr1, IHr2. split.
    + intros [H1 H2]. exists [], []. auto.
    + intros (s1 & s2 & E & H1 & H2).
      symmetry in E. apply app_eq_nil in E as [-> ->]. auto.
  - rewrite orb_true_iff, IHr1, IHr2. tauto.
  - split; [intros _; constructor | reflexivity].
Qed.

Lemma cat_lang (a b : regex) (s : str) : lang (cat a b) s <-> lang (Cat a b) s.
Proof.
  assert (N : forall x, lang (Cat Nul x) s <-> False).
  { intros x; simpl; split; [intros (? & ? & _ & [] & _) | tauto]. }
  assert (M : forall x, lang (Cat x Nul) s <-> False).
  { intros x; simpl; split; [intros (? & ? & _ & _ & []) | tauto]. }
  assert (E : forall x, lang (Cat Eps x) s <-> lang x s).
  { intros x; simpl; split.
    - intros (s1 & s2 & -> & -> & H). exact H.
    - intros H. exists [], s. auto. }
  destruct a; destruct b; simpl cat;
    rewrite ?N, ?M, ?E; simpl; tauto.
Qed.

Lemma alt_lang (a b : regex) (s : str) : lang (alt a b) s <-> lang (Alt a b) s.
Proof. destruct a; destruct b; simpl; tauto. Qed.

Lemma star_cons (L : str -> Prop) (c : ascii) (s : str) :
  star L (c :: s) ->
  exists s1 s2, s = s1 ++ s2 /\ L (c :: s1) /\ star L s2.
Proof.
  intros H. remember (c :: s) as w eqn:E. revert c s E.
  induction H as [|s1 s2 H1 H2 IH]; intros c s E; [discriminate|].
  destruct s1 as [|x s1]; simpl in E.
  - apply IH. exact E.
  - injection E as -> <-. exists s1, s2. auto.
Qed.

Lemma deriv_lang (c : ascii) (r : regex) (s : str) :
  lang (deriv c r) s <-> lang r (c :: s).
Proof.
  revert s; induction r; intros s; simpl deriv.
  - simpl; tauto.
  - simpl; split; [tauto | discriminate].
  - destruct (p c) eqn:P; simpl; split.
    + intros ->. exists c. auto.
    + intros (x & E & _). injection E; auto.
    + tauto.
    + intros (x & E & Px). injection E as <- _. congruence.
  - assert (C : lang (cat (deriv c r1) r2) s <->
                exists s1 s2, s = s1 ++ s2 /\ lang r1 (c :: s1) /\ lang r2 s2).
    { rewrite cat_lang; simpl. split; intros (s1 & s2 & E & H1 & H2);
        exists s1, s2; (split; [exact E|split; [apply IHr1; exact H1|exact H2]]). }
    destruct (nullable r1) eqn:N1.
    + rewrite alt_lang; simpl lang at 1. rewrite C, IHr2. simpl. split.
      * intros [(s1 & s2 & -> & H1 & H2) | H].
        -- exists (c :: s1), s2. auto.
        -- exists [], (c :: s). split; [reflexivity|]. split; [|exact H].
           apply nullable_lang; exact N1.
      * intros (s1 & s2 & E & H1 & H2). destruct s1 as [|x s1]; simpl in E.
        -- right. rewrite E. exact H2.
        -- injection E as <- ->. left. exists s1, s2. auto.
    + rewrite C. simpl. split.
      * intros (s1 & s2 & -> & H1 & H2). exists (c :: s1), s2. auto.
      * intros (s1 & s2 & E & H1 & H2). destruct s1 as [|x s1]; simpl in E.
        -- apply nullable_lang in H1. congruence.
        -- injection E as <- ->. exists s1, s2. auto.
  - rewrite alt_lang; simpl. rewrite IHr1, IHr2. tauto.
  - rewrite cat_lang; simpl. split.
    + intros (s1 & s2 & -> & H1 & H2).
      apply (star_app (lang r) (c :: s1) s2); [apply IHr; exact H1 | exact H2].
    + intros H. apply star_cons in H as (s1 & s2 & -> & H1 & H2).
      exists s1, s2. split; [reflexivity|]. split; [apply IHr; exact H1|exact H2].
Qed.

Lemma fullmatch_lang (r : regex) (s : str) : fullmatch r s = true <-> lang r s.
Proof.
  revert r; induction s as [|c s IH]; intros r; simpl.
  - apply nullable_lang.
  - rewrite IH. apply deriv_lang.
Qed.

End ReFacts.

(** ** The shape of a string accepted by [is_valid_url] *)

Module PatternFacts.
Import Re ReFacts UrlPattern.

Lemma lang_within (P : ascii -> bool) (r : regex) :
  classes_within P r -> forall s, lang r s -> Forall (fun c => P c = true) s.
Proof.
  induction r; simpl; intros W s H.
  - contradiction.
  - subst; constructor.
  - destruct H as (c & -> & Hc). constructor; auto.
  - destruct W as [W1 W2]. destruct H as (s1 & s2 & -> & H1 & H2).
    apply Forall_app; split; auto.
  - destruct W as [W1 W2]. destruct H; auto.
  - induction H as [|s1 s2 H1 H2 IH]; [constructor|].
    apply Forall_app; split; auto.
Qed.

Lemma within_Opt P r : classes_within P r -> classes_within P (Opt r).
Proof. simpl; auto. Qed.

Lemma within_Plus P r : classes_within P r -> classes_within P (Plus r).
Proof. simpl; auto. Qed.

Lemma within_Exactly P n r : classes_within P r -> classes_within P (Exactly n r).
Proof. intros W; induction n; simpl; auto. Qed.

Lemma within_Upto P n r : classes_within P r -> classes_within P (Upto n r).
Proof. intros W; induction n; simpl; auto. Qed.

Lemma within_Rep P lo hi r : classes_within P r -> classes_within P (Rep lo hi r).
Proof.
  intros W; split; [apply within_Exactly | apply within_Upto]; exact W.
Qed.

Ltac char_fact :=
  let x := fresh "x" in
  intros x; all_chars x; vm_compute; intros; congruence.

Lemma alnum_host : classes_within host_char alnum.
Proof. simpl. char_fact. Qed.

Lemma alnum_dash_host : classes_within host_char alnum_dash.
Proof. simpl. char_fact. Qed.

Lemma alpha_host : classes_within host_char alpha.
Proof. simpl. char_fact. Qed.

Lemma digit_host : classes_within host_char digit.
Proof. simpl. char_fact. Qed.

Lemma dot_host : classes_within host_char dot.
Proof. simpl. char_fact. Qed.

Lemma localhost_host : classes_within host_char localhost.
Proof. simpl. repeat split; char_fact. Qed.

Lemma within_Cat P a b :
  classes_within P a -> classes_within P b -> classes_within P (Cat a b).
Proof. simpl; auto. Qed.

Lemma within_Alt P a b :
  classes_within P a -> classes_within P b -> classes_within P (Alt a b).
Proof. simpl; auto. Qed.

Lemma label_within : classes_within host_char label.
Proof.
  apply within_Cat; [exact alnum_host|].
  apply within_Cat; [|exact dot_host].
  apply within_Opt, within_Cat; [|exact alnum_host].
  apply within_Rep, alnum_dash_host.
Qed.

Lemma ipv4_within : classes_within host_char ipv4.
Proof.
  assert (D := within_Rep host_char 1 3 digit digit_host).
  assert (E := dot_host).
  repeat (apply within_Cat; [first [exact D | exact E]|]). exact D.
Qed.

Lemma host_re_within : classes_within host_char host_re.
Proof.
  apply within_Alt; [|apply within_Alt; [exact localhost_host | exact ipv4_within]].
  apply within_Cat; [apply within_Plus, label_within|].
  apply within_Cat; [apply within_Rep, alpha_host | apply within_Opt, dot_host].
Qed.

Lemma host_chars (s : str) :
  lang host_re s -> Forall (fun c => host_char c = true) s.
Proof. apply lang_within, host_re_within. Qed.

Lemma host_nonempty (s : str) : lang host_re s -> s <> [].
Proof.
  intros H ->. apply nullable_lang in H. vm_compute in H. discriminate.
Qed.

Lemma ci_letter (c x : ascii) :
  chr_eqb (lower_char x) (lower_char c) = true -> lower_char x = lower_char c.
Proof. apply chr_eqb_eq. Qed.

Lemma ci_colon (x : ascii) : lower_char x = ":"%char -> x = ":"%char.
Proof. all_chars x; vm_compute; intros; congruence. Qed.

Lemma ci_slash (x : ascii) : lower_char x = "/"%char -> x = "/"%char.
Proof. all_chars x; vm_compute; intros; congruence. Qed.

Lemma scheme_shape (s : str) :
  lang scheme_re s ->
  exists sch, s = sch ++ "://" /\ (lower sch = "http" \/ lower sch = "https").
Proof.
  unfold scheme_re, Opt. cbn [lang LitI list_ascii_of_string].
  unfold ChrI; cbn [lang].
  intros (s1 & s2 & -> & H1 & (s3 & s4 & -> & H3 & H4)).
  destruct H1 as (? & ? & -> & (h & -> & Hh) & (? & ? & -> & (t & -> & Ht)
                 & (? & ? & -> & (t' & -> & Ht') & (? & ? & -> & (p & -> & Hp) & ->)))).
  destruct H4 as (? & ? & -> & (c & -> & Hc) & (? & ? & -> & (d & -> & Hd)
                 & (? & ? & -> & (e & -> & He) & ->))).
  apply ci_letter in Hh, Ht, Ht', Hp, Hc, Hd, He.
  apply ci_colon in Hc. apply ci_slash in Hd. apply ci_slash in He. subst c d e.
  destruct H3 as [(x & -> & Hx) | ->].
  - apply ci_letter in Hx. exists [h; t; t'; p; x]. split; [reflexivity|].
    right. simpl. rewrite Hh, Ht, Ht', Hp, Hx. reflexivity.
  - exists [h; t; t'; p]. split; [reflexivity|].
    left. simpl. rewrite Hh, Ht, Ht', Hp. reflexivity.
Qed.

Lemma port_shape (s : str) :
  lang port_re s ->
  s = [] \/ exists d, s = ":"%char :: d /\ Forall (fun c => is_digit c = true) d.
Proof.
  unfold port_re, Opt, Chr. cbn [lang].
  intros [(s1 & s2 & -> & (c & -> & Hc) & H) | ->]; [right | left; reflexivity].
  apply chr_eqb_eq in Hc. subst c. exists s2. split; [reflexivity|].
  apply (lang_within is_digit (Plus digit)); [|exact H].
  apply within_Plus. intros c Hc; exact Hc.
Qed.

Lemma tail_shape (s : str) :
  lang tail_re s ->
  s = [] \/ exists c t, s = c :: t /\ (c = "/"%char \/ c = "?"%char).
Proof.
  unfold tail_re, Opt, Chr. cbn [lang].
  intros [[(c & -> & Hc) | ->] | (s1 & s2 & -> & (c & -> & Hc) & _)].
  - right. apply chr_eqb_eq in Hc. exists c, []. auto.
  - left; reflexivity.
  - right. exists c, s2. split; [reflexivity|].
    apply orb_true_iff in Hc as [Hc | Hc]; apply chr_eqb_eq in Hc; auto.
Qed.

Lemma dollar_shape (s : str) :
  lang Dollar s -> s = [] \/ s = [ascii_of_nat 10].
Proof.
  unfold Dollar, Opt, Chr. cbn [lang].
  intros [(c & -> & Hc) | ->]; [right | left; reflexivity].
  apply chr_eqb_eq in Hc. subst c. reflexivity.
Qed.

(** A valid URL is a scheme, "://", a host, an optional port, a tail that
    is empty or begins with "/" or "?", and an optional final line feed. *)
Lemma valid_url_shape (u : str) :
  is_valid_url u = true ->
  exists sch host port tl nl,
    u = sch ++ "://" ++ host ++ port ++ tl ++ nl
    /\ (lower sch = "http" \/ lower sch = "https")
    /\ host <> [] /\ Forall (fun c => host_char c = true) host
    /\ (port = [] \/
        exists d, port = ":"%char :: d /\ Forall (fun c => is_digit c = true) d)
    /\ (tl = [] \/ exists c t, tl = c :: t /\ (c = "/"%char \/ c = "?"%char))
    /\ (nl = [] \/ nl = [ascii_of_nat 10]).
Proof.
  unfold is_valid_url. rewrite fullmatch_lang. unfold url_pattern.
  intros (s0 & r0 & -> & Hs & (h & r1 & -> & Hh & (p & r2 & -> & Hp
          & (t & n & -> & Ht & Hn)))).
  apply scheme_shape in Hs as (sch & -> & Hsch).
  exists sch, h, p, t, n. rewrite <- app_assoc.
  split; [reflexivity|]. split; [exact Hsch|].
  split; [eapply host_nonempty; eassumption|].
  split; [apply host_chars; exact Hh|].
  split; [apply port_shape; exact Hp|].
  split; [apply tail_shape; exact Ht | apply dollar_shape; exact Hn].
Qed.

End PatternFacts.

(** ** The validator on every code point *)

Module WideFacts.
Import Wide.

Lemma w_nullable_lang (r : regex) : nullable r = true <-> lang r [].
Proof.
  induction r; simpl.
  - split; [discriminate | tauto].
  - tauto.
  - split; [discriminate | intros (c & H & _); discriminate].
  - rewrite andb_true_iff, IHr1, IHr2. split.
    + intros [H1 H2]. exists [], []. auto.
    + intros (s1 & s2 & E & H1 & H2).
      symmetry in E. apply app_eq_nil in E as [-> ->]. auto.
  - rewrite orb_true_iff, IHr1, IHr2. tauto.
  - split; [intros _; constructor | reflexivity].
Qed.

Lemma w_cat_lang (a b : regex) (s : ustr) :
  lang (cat a b) s <-> lang (Cat a b) s.
Proof.
  assert (N : forall x, lang (Cat Nul x) s <-> False).
  { intros x; simpl; split; [intros (? & ? & _ & [] & _) | tauto]. }
  assert (M : forall x, lang (Cat x Nul) s <-> False).
  { intros x; simpl; split; [intros (? & ? & _ & _ & []) | tauto]. }
  assert (E : forall x, lang (Cat Eps x) s <-> lang x s).
  { intros x; simpl; split.
    - intros (s1 & s2 & -> & -> & H). exact H.
    - intros H. exists [], s. auto. }
  destruct a; destruct b; simpl cat;
    rewrite ?N, ?M, ?E; simpl; tauto.
Qed.

Lemma w_alt_lang (a b : regex) (s : ustr) :
  lang (alt a b) s <-> lang (Alt a b) s.
Proof. destruct a; destruct b; simpl; tauto. Qed.

Lemma w_star_cons (L : ustr -> Prop) (c : N) (s : ustr) :
  star L (c :: s) ->
  exists s1 s2, s = s1 ++ s2 /\ L (c :: s1) /\ star L s2.
Proof.
  intros H. remember (c :: s) as w eqn:E. revert c s E.
  induction H as [|s1 s2 H1 H2 IH]; intros c s E; [discriminate|].
  destruct s1 as [|x s1]; simpl in E.
  - apply IH. exact E.
  - injection E as -> <-. exists s1, s2. auto.
Qed.

Lemma w_deriv_lang (c : N) (r : regex) (s : ustr) :
  lang (deriv c r) s <-> lang r (c :: s).
Proof.
  revert s; induction r; intros s; simpl deriv.
  - simpl; tauto.
  - simpl; split; [tauto | discriminate].
  - destruct (p c) eqn:P; simpl; split.
    + intros ->. exists c. auto.
    + intros (x & E & _). injection E; auto.
    + tauto.
    + intros (x & E & Px). injection E as <- _. congruence.
  - assert (C : lang (cat (deriv c r1) r2) s <->
                exists s1 s2, s = s1 ++ s2 /\ lang r1 (c :: s1) /\ lang r2 s2).
    { rewrite w_cat_lang; simpl. split; intros (s1 & s2 & E & H1 & H2);
        exists s1, s2; (split; [exact E|split; [apply IHr1; exact H1|exact H2]]). }
    destruct (nullable r1) eqn:N1.
    + rewrite w_alt_lang; simpl lang at 1. rewrite C, IHr2. simpl. split.
      * intros [(s1 & s2 & -> & H1 & H2) | H].
        -- exists (c :: s1), s2. auto.
        -- exists [], (c :: s). split; [reflexivity|]. split; [|exact H].
           apply w_nullable_lang; exact N1.
      * intros (s1 & s2 & E & H1 & H2). destruct s1 as [|x s1]; simpl in E.
        -- right. rewrite E. exact H2.
        -- injection E as <- ->. left. exists s1, s2. auto.
    + rewrite C. simpl. split.
      * intros (s1 & s2 & -> & H1 & H2). exists (c :: s1), s2. auto.
      * intros (s1 & s2 & E & H1 & H2). destruct s1 as [|x s1]; simpl in E.
        -- apply w_nullable_lang in H1. congruence.
        -- injection E as <- ->. exists s1, s2. auto.
  - rewrite w_alt_lang; simpl. rewrite IHr1, IHr2. tauto.
  - rewrite w_cat_lang; simpl. split.
    + intros (s1 & s2 & -> & H1 & H2).
      apply (star_app (lang r) (c :: s1) s2); [apply IHr; exact H1 | exact H2].
    + intros H. apply w_star_cons in H as (s1 & s2 & -> & H1 & H2).
      exists s1, s2. split; [reflexivity|]. split; [apply IHr; exact H1|exact H2].
Qed.

Lemma w_fullmatch_lang (r : regex) (s : ustr) :
  fullmatch r s = true <-> lang r s.
Proof.
  revert r; induction s as [|c s IH]; intros r; simpl.
  - apply w_nullable_lang.
  - rewrite IH. apply w_deriv_lang.
Qed.

(** *** The scheme of an accepted string *)

Lemma matches_i_cases (a c : N) :
  matches_i a c = true ->
  c = lower_ascii a
  \/ (between 0x61 0x7a (lower_ascii a) = true
      /\ (c = (lower_ascii a - 32)%N \/ In c (variants (lower_ascii a)))).
Proof.
  unfold matches_i. cbv zeta. intros H. apply orb_true_iff in H as [H | H].
  - left. apply N.eqb_eq; exact H.
  - right. apply andb_true_iff in H as [B H]. split; [exact B|].
    apply orb_true_iff in H as [H | H].
    + left. apply N.eqb_eq; exact H.
    + right. apply existsb_exists in H as (y & Hy & E).
      apply N.eqb_eq in E. subst y. exact Hy.
Qed.

(** a letter of "http" in either case *)
Lemma matches_i_plain (a : ascii) (c : N) :
  lower_ascii (code a) = code a -> variants (code a) = [] ->
  matches_i (code a) c = true -> c = code a \/ c = (code a - 32)%N.
Proof.
  intros L V H. apply matches_i_cases in H. rewrite L, V in H.
  destruct H as [H | (_ & [H | []])]; auto.
Qed.

(** a character that is no letter *)
Lemma matches_i_other (a : ascii) (c : N) :
  lower_ascii (code a) = code a -> between 0x61 0x7a (code a) = false ->
  matches_i (code a) c = true -> c = code a.
Proof.
  intros L B H. apply matches_i_cases in H. rewrite L, B in H.
  destruct H as [H | (H & _)]; [exact H | discriminate].
Qed.

Lemma scheme_shape_wide (s : ustr) :
  lang scheme_re s ->
  exists sch, s = sch ++ codes "://" /\ accepted_scheme sch.
Proof.
  unfold scheme_re, Opt.
  cbn [LitI codes map list_ascii_of_string]. unfold ChrI. cbn [lang].
  intros (s1 & s2 & -> & H1 & (s3 & s4 & -> & H3 & H4)).
  destruct H1 as (? & ? & -> & (h & -> & Hh) & (? & ? & -> & (t & -> & Ht)
                 & (? & ? & -> & (t' & -> & Ht') & (? & ? & -> & (p & -> & Hp) & ->)))).
  destruct H4 as (? & ? & -> & (c & -> & Hc) & (? & ? & -> & (d & -> & Hd)
                 & (? & ? & -> & (e & -> & He) & ->))).
  apply (matches_i_plain "h" h eq_refl eq_refl) in Hh.
  apply (matches_i_plain "t" t eq_refl eq_refl) in Ht.
  apply (matches_i_plain "t" t' eq_refl eq_refl) in Ht'.
  apply (matches_i_plain "p" p eq_refl eq_refl) in Hp.
  apply (matches_i_other ":" c eq_refl eq_refl) in Hc.
  apply (matches_i_other "/" d eq_refl eq_refl) in Hd.
  apply (matches_i_other "/" e eq_refl eq_refl) in He.
  subst c d e.
  assert (Http : spells "http" [h; t; t'; p]).
  { unfold spells. repeat (constructor; [assumption|]). constructor. }
  destruct H3 as [(x & -> & Hx) | ->].
  - exists [h; t; t'; p; x]. split; [reflexivity|].
    apply matches_i_cases in Hx.
    destruct Hx as [Kx | (_ & [Kx | [Kx | []]])].
    + left; right. unfold spells.
      repeat (constructor; [assumption|]).
      constructor; [left; exact Kx | constructor].
    + left; right. unfold spells.
      repeat (constructor; [assumption|]).
      constructor; [right; exact Kx | constructor].
    + right. exists [h; t; t'; p]. split; [|exact Http].
      rewrite <- Kx. reflexivity.
  - exists [h; t; t'; p]. split; [reflexivity|]. left; left; exact Http.
Qed.

(** Every string the validator accepts begins with "http://" or
    "https://" in some letter case, the s possibly a long s. *)
Lemma valid_scheme_wide (w : ustr) :
  is_valid_url w = true ->
  exists sch rest, w = sch ++ codes "://" ++ rest /\ accepted_scheme sch.
Proof.
  unfold is_valid_url. rewrite w_fullmatch_lang. unfold url_pattern.
  intros (s0 & r0 & -> & Hs & _).
  apply scheme_shape_wide in Hs as (sch & -> & Hsch).
  exists sch, r0. rewrite <- app_assoc. auto.
Qed.

(** *** The two matchers *)

Lemma code_eqb (a b : ascii) : N.eqb (code a) (code b) = chr_eqb a b.
Proof.
  destruct (chr_eqb a b) eqn:E.
  - apply chr_eqb_eq in E. subst b. apply N.eqb_refl.
  - apply N.eqb_neq. intros H. apply (f_equal ascii_of_N) in H.
    unfold code in H. rewrite !ascii_N_embedding in H. subst b.
    rewrite chr_eqb_refl in E. discriminate.
Qed.

Lemma similar_nullable (r : Re.regex) (w : regex) :
  similar r w -> Re.nullable r = nullable w.
Proof.
  induction 1; cbn [Re.nullable nullable]; congruence.
Qed.

Lemma similar_cat a b a' b' :
  similar a a' -> similar b b' -> similar (Re.cat a b) (cat a' b').
Proof.
  intros Ha Hb. destruct Ha; destruct Hb; cbn [Re.cat cat];
    repeat first [assumption | constructor].
Qed.

Lemma similar_alt a b a' b' :
  similar a a' -> similar b b' -> similar (Re.alt a b) (alt a' b').
Proof.
  intros Ha Hb. destruct Ha; destruct Hb; cbn [Re.alt alt];
    repeat first [assumption | constructor].
Qed.

Lemma similar_deriv (c : ascii) (r : Re.regex) (w : regex) :
  similar r w -> similar (Re.deriv c r) (deriv (code c) w).
Proof.
  induction 1 as [| |p q H|a b a' b' Ha IHa Hb IHb|a b a' b' Ha IHa Hb IHb
                  |a a' Ha IHa]; cbn [Re.deriv deriv].
  - constructor.
  - constructor.
  - rewrite H. destruct (p c); constructor.
  - rewrite (similar_nullable a a' Ha).
    destruct (nullable a').
    + apply similar_alt; [apply similar_cat; assumption | assumption].
    + apply similar_cat; assumption.
  - apply similar_alt; assumption.
  - apply similar_cat; [assumption | constructor; assumption].
Qed.

Lemma similar_fullmatch (s : str) (r : Re.regex) (w : regex) :
  similar r w -> Re.fullmatch r s = fullmatch w (codes s).
Proof.
  revert r w. induction s as [|c s IH]; intros r w H;
    cbn [Re.fullmatch fullmatch codes map].
  - apply similar_nullable; exact H.
  - apply IH, similar_deriv; exact H.
Qed.

Lemma similar_Exactly n a a' :
  similar a a' -> similar (Re.Exactly n a) (Exactly n a').
Proof.
  intros H. induction n; cbn [Re.Exactly Exactly]; constructor; assumption.
Qed.

Lemma similar_Upto n a a' :
  similar a a' -> similar (Re.Upto n a) (Upto n a').
Proof.
  intros H. induction n; cbn [Re.Upto Upto]; [constructor|].
  unfold Re.Opt, Opt. repeat first [assumption | constructor].
Qed.

Lemma similar_Rep lo hi a a' :
  similar a a' -> similar (Re.Rep lo hi a) (Rep lo hi a').
Proof.
  intros H. unfold Re.Rep, Rep.
  constructor; [apply similar_Exactly | apply similar_Upto]; exact H.
Qed.

Ltac same_class :=
  let x := fresh "x" in
  intros x; all_chars x; vm_compute; reflexivity.

Ltac same_regex :=
  repeat first [ apply similar_Rep | apply sim_Eps | apply sim_Cat
               | apply sim_Alt | apply sim_Star | apply sim_Cls; same_class ].

Lemma similar_scheme : similar UrlPattern.scheme_re scheme_re.
Proof.
  unfold UrlPattern.scheme_re, scheme_re, Re.Opt, Opt, Re.ChrI, ChrI.
  cbn [Re.LitI LitI codes map list_ascii_of_string].
  unfold Re.ChrI, ChrI. same_regex.
Qed.

Lemma similar_host : similar UrlPattern.host_re host_re.
Proof.
  unfold UrlPattern.host_re, host_re, UrlPattern.domain, domain,
    UrlPattern.label, label, UrlPattern.localhost, localhost,
    UrlPattern.ipv4, ipv4, UrlPattern.alnum, alnum, UrlPattern.alnum_dash,
    alnum_dash, UrlPattern.alpha, alpha, UrlPattern.digit, digit,
    UrlPattern.dot, dot, Re.Opt, Opt, Re.Plus, Plus, Re.Chr, Chr.
  cbn [Re.LitI LitI codes map list_ascii_of_string].
  unfold Re.ChrI, ChrI. same_regex.
Qed.

Lemma similar_pattern : similar UrlPattern.url_pattern url_pattern.
Proof.
  unfold UrlPattern.url_pattern, url_pattern.
  apply sim_Cat; [exact similar_scheme|].
  apply sim_Cat; [exact similar_host|].
  unfold UrlPattern.port_re, port_re, UrlPattern.tail_re, tail_re,
    UrlPattern.digit, digit, UrlPattern.nonspace, nonspace,
    Re.Dollar, Dollar, Re.Opt, Opt, Re.Plus, Plus, Re.Chr, Chr.
  same_regex.
Qed.

End WideFacts.

(** On the code points below 256 the validator is [is_valid_url]. *)
Lemma wide_is_valid_url (u : str) :
  Wide.is_valid_url (Wide.codes u) = is_valid_url u.
Proof.
  unfold Wide.is_valid_url, is_valid_url. symmetry.
  apply WideFacts.similar_fullmatch, WideFacts.similar_pattern.
Qed.

Ltac spelled :=
  repeat match goal with
         | H : Forall2 _ (_ :: _) _ |- _ => inversion H; subst; clear H
         | H : Forall2 _ [] _ |- _ => inversion H; subst; clear H
         end.

(** "http", U+017F, "://example.com" is accepted, and its scheme is
    neither "http" nor "https" in any letter case. *)
Lemma long_s_scheme_accepted :
  Wide.is_valid_url Samples.long_s_url = true
  /\ ~ (exists sch rest,
          Samples.long_s_url = sch ++ Wide.codes "://" ++ rest /\ http_scheme sch).
Proof.
  split; [vm_compute; reflexivity|].
  intros (sch & rest & E & [H | H]); unfold spells in H;
    cbn [list_ascii_of_string] in H; spelled;
    vm_compute in E; injection E; intros; subst;
    repeat match goal with
           | H : _ \/ _ |- _ => destruct H as [H | H]; vm_compute in H
           end; discriminate.
Qed.

(** ** The normalizer on the three spellings of example.com *)

Section NormalizerExamples.

Variable check_bracketed_netloc : str -> outcome unit.
Local Abbreviation normalize := (normalize_url check_bracketed_netloc).

(** C1.  [normalize_url] sends "example.com" and "https://example.com" to
    "https://example.com", but it sends "HTTPS://EXAMPLE.com:443/" to
    "https://https://EXAMPLE.com:443/": the test for a missing scheme is
    case-sensitive, so a second scheme is put in front of the upper-case
    one, the old scheme becomes the authority "https:" and the host and port
    end up in the path, where nothing is lowercased or stripped. *)
Theorem normalize_url_upper_case_scheme :
  normalize "example.com" = Return ("https://example.com" : str)
  /\ normalize "https://example.com" = Return ("https://example.com" : str)
  /\ normalize "HTTPS://EXAMPLE.com:443/"
     = Return ("https://https://EXAMPLE.com:443/" : str)
  /\ normalize "HTTPS://EXAMPLE.com:443/" <> normalize "example.com".
Proof.
  assert (E1 : normalize "example.com" = Return ("https://example.com" : str))
    by (vm_compute; reflexivity).
  assert (E2 : normalize "HTTPS://EXAMPLE.com:443/"
               = Return ("https://https://EXAMPLE.com:443/" : str))
    by (vm_compute; reflexivity).
  split; [exact E1|]. split; [vm_compute; reflexivity|]. split; [exact E2|].
  rewrite E1, E2. intros H. discriminate H.
Qed.

End NormalizerExamples.

(** ** The store *)

Section StoreFacts.

Lemma first_none (p : URL -> bool) (db : Store) :
  Db.first p db = None <-> forall r, In r db -> p r = false.
Proof.
  unfold Db.first. split.
  - intros H r Hr. exact (find_none p db H r Hr).
  - induction db as [|x db IH]; simpl; intros H; [reflexivity|].
    rewrite (H x (or_introl eq_refl)). apply IH. intros r Hr. apply H; right; exact Hr.
Qed.

Lemma first_some (p : URL -> bool) (db : Store) (r : URL) :
  Db.first p db = Some r -> In r db /\ p r = true.
Proof. apply find_some. Qed.

Lemma by_short_code_true (c : str) (r : URL) :
  Db.by_short_code c r = true <-> short_code r = c.
Proof. apply str_eqb_eq. Qed.

Lemma by_long_url_true (u : str) (r : URL) :
  Db.by_long_url u r = true <-> long_url r = u.
Proof. apply str_eqb_eq. Qed.

Lemma first_absent_code (code : str) (db : Store) :
  ~ In code (map short_code db) ->
  Db.first (Db.by_short_code code) db = None.
Proof.
  intros H. apply first_none. intros r Hr.
  destruct (Db.by_short_code code r) eqn:E; [|reflexivity].
  apply by_short_code_true in E. exfalso. apply H. rewrite <- E.
  apply in_map; exact Hr.
Qed.

Lemma exists_code_iff (code : str) (db : Store) :
  existsb (Db.by_short_code code) db = true <-> In code (map short_code db).
Proof.
  rewrite existsb_exists, in_map_iff. split.
  - intros (r & Hr & E). exists r. apply by_short_code_true in E. auto.
  - intros (r & E & Hr). exists r. split; [exact Hr|].
    apply by_short_code_true; exact E.
Qed.

Lemma first_code_some_iff (code : str) (db : Store) :
  (exists r, Db.first (Db.by_short_code code) db = Some r)
  <-> In code (map short_code db).
Proof.
  split.
  - intros (r & H). apply first_some in H as [Hr E].
    apply by_short_code_true in E. rewrite <- E. apply in_map; exact Hr.
  - intros H. destruct (Db.first (Db.by_short_code code) db) eqn:E.
    + eauto.
    + exfalso. rewrite first_none in E. apply in_map_iff in H as (r & Hc & Hr).
      specialize (E r Hr). apply by_short_code_true in Hc. congruence.
Qed.

(** With a key that is unique in the column, the lookup returns the row. *)
Lemma first_unique {K : Type} (key : URL -> K) (p : URL -> bool)
  (db : Store) (r : URL) :
  NoDup (map key db) ->
  (forall x, p x = true -> key x = key r) ->
  In r db -> p r = true ->
  Db.first p db = Some r.
Proof.
  unfold Db.first. intros ND Hp Hin Hr.
  induction db as [|x db IH]; simpl in *; [contradiction|].
  inversion ND as [|? ? Hx ND']; subst.
  destruct Hin as [-> | Hin].
  - rewrite Hr. reflexivity.
  - destruct (p x) eqn:Px.
    + exfalso. apply Hx. rewrite (Hp x Px). apply in_map; exact Hin.
    + apply IH; assumption.
Qed.

Lemma first_by_code_unique (db : Store) (r : URL) :
  short_code_unique db -> In r db ->
  Db.first (Db.by_short_code (short_code r)) db = Some r.
Proof.
  intros ND Hin. apply (first_unique short_code); auto.
  - intros x Hx. apply by_short_code_true; exact Hx.
  - apply by_short_code_true; reflexivity.
Qed.

(** The UPDATE touches the row with the given key and no other. *)
Lemma update_untouched (rec_id v : Z) (db : Store) :
  ~ In rec_id (map id db) -> Db.update_click_count rec_id v db = db.
Proof.
  unfold Db.update_click_count. induction db as [|x db IH]; simpl; intros H.
  - reflexivity.
  - destruct (Z.eqb_spec (id x) rec_id) as [E | _]; [tauto|].
    rewrite IH; [reflexivity | tauto].
Qed.

Lemma update_split (v : Z) (db : Store) (r : URL) :
  pk_unique db -> In r db ->
  exists pre post,
    db = pre ++ r :: post
    /\ Db.update_click_count (id r) v db = pre ++ set_click_count v r :: post.
Proof.
  unfold pk_unique. intros ND Hin.
  apply in_split in Hin as (pre & post & ->).
  exists pre, post. split; [reflexivity|].
  rewrite map_app in ND. simpl in ND.
  assert (Hpre : ~ In (id r) (map id pre)).
  { intros H. apply NoDup_remove_2 in ND. apply ND, in_or_app; left; exact H. }
  assert (Hpost : ~ In (id r) (map id post)).
  { intros H. apply NoDup_remove_2 in ND. apply ND, in_or_app; right; exact H. }
  unfold Db.update_click_count in *. rewrite map_app. simpl.
  rewrite Z.eqb_refl.
  change (map (fun r0 : URL => if (id r0 =? id r)%Z then set_click_count v r0 else r0) pre)
    with (Db.update_click_count (id r) v pre).
  change (map (fun r0 : URL => if (id r0 =? id r)%Z then set_click_count v r0 else r0) post)
    with (Db.update_click_count (id r) v post).
  rewrite !update_untouched by assumption. reflexivity.
Qed.

End StoreFacts.

(** ** Rejection of invalid input *)

Section Rejection.

Variable check_bracketed_netloc : str -> outcome unit.
Variable BASE_URL : str.
Local Abbreviation shorten := (shorten_url check_bracketed_netloc BASE_URL).

(** C5.  [shorten_url] answers "not a url" and "ftp://example.com" with the
    invalid-URL error, without drawing a code or touching the store.  The
    validator, on strings of arbitrary code points, accepts only a string
    that begins with "http://" or "https://" in some letter case, where the
    s of "https" may also be U+017F, the long s, which [re.IGNORECASE]
    matches with s; on any string without such a beginning it returns
    [false]; on the strings of code points below 256 it is [is_valid_url].
    It is a total function to [bool]: it has no exceptional outcome.  So
    "http", U+017F, "://example.com" is accepted, with a scheme that is
    neither "http" nor "https" in any letter case. *)
Theorem invalid_input_rejected :
  (forall now g db,
      shorten "not a url" now g db
      = (Return (TemplateResponse "index.html"
                   [ ("error" : str, VStr invalid_url_message);
                     ("long_url" : str, VStr "not a url");
                     ("base_url" : str, VStr BASE_URL) ] 200), g, db)
      /\ shorten_view (fst (fst (shorten "not a url" now g db)))
         = Some InvalidUrl)
  /\ (forall now g db,
      shorten "ftp://example.com" now g db
      = (Return (TemplateResponse "index.html"
                   [ ("error" : str, VStr invalid_url_message);
                     ("long_url" : str, VStr "ftp://example.com");
                     ("base_url" : str, VStr BASE_URL) ] 200), g, db)
      /\ shorten_view (fst (fst (shorten "ftp://example.com" now g db)))
         = Some InvalidUrl)
  /\ (forall u : str, Wide.is_valid_url (Wide.codes u) = is_valid_url u)
  /\ (forall w,
      Wide.is_valid_url w = true ->
      exists sch rest,
        w = sch ++ Wide.codes "://" ++ rest /\ accepted_scheme sch)
  /\ (forall w,
      (forall sch rest,
          w = sch ++ Wide.codes "://" ++ rest -> ~ accepted_scheme sch) ->
      Wide.is_valid_url w = false)
  /\ (Wide.is_valid_url Samples.long_s_url = true
      /\ ~ (exists sch rest,
              Samples.long_s_url = sch ++ Wide.codes "://" ++ rest
              /\ http_scheme sch)).
Proof.
  split; [|split; [|split; [|split; [|split]]]].
  - intros now g db. split; vm_compute; reflexivity.
  - intros now g db. split; vm_compute; reflexivity.
  - exact wide_is_valid_url.
  - exact WideFacts.valid_scheme_wide.
  - intros w H. destruct (Wide.is_valid_url w) eqn:V; [|reflexivity].
    destruct (WideFacts.valid_scheme_wide w V) as (sch & rest & E & Hs).
    exfalso. exact (H sch rest E Hs).
  - exact long_s_scheme_accepted.
Qed.

End Rejection.

(** ** Resolution *)

Section Resolution.

Variable BASE_URL : str.
Local Abbreviation resolve := (redirect_to_url BASE_URL).

(** C6.  For a code that no row of the store carries, [redirect_to_url]
    answers with the 404 page and returns the store as it was. *)
Theorem unknown_code_not_found (code : str) (db : Store) :
  ~ In code (map short_code db) ->
  resolve_view (fst (resolve code db)) = Some NotFound
  /\ snd (resolve code db) = db.
Proof.
  intros H. unfold redirect_to_url.
  rewrite (first_absent_code code db H). simpl. auto.
Qed.

(** C7.  For a row [r] of a store that satisfies the table constraints,
    [redirect_to_url] on the code of [r] redirects to the long URL of [r];
    the new store is the old one with [r] replaced, in place, by a row that
    differs from [r] in [click_count] only, which is one more. *)
Theorem resolve_increments_one_row (db : Store) (r : URL) :
  pk_unique db -> short_code_unique db -> In r db ->
  resolve_view (fst (resolve (short_code r) db)) = Some (Found (long_url r))
  /\ exists pre post r',
       db = pre ++ r :: post
       /\ snd (resolve (short_code r) db) = pre ++ r' :: post
       /\ id r' = id r /\ long_url r' = long_url r
       /\ short_code r' = short_code r /\ created_at r' = created_at r
       /\ click_count r' = (click_count r + 1)%Z.
Proof.
  intros PK SC Hin. unfold redirect_to_url.
  rewrite (first_by_code_unique db r SC Hin). simpl.
  split; [reflexivity|].
  destruct (update_split (click_count r + 1)%Z db r PK Hin)
    as (pre & post & E1 & E2).
  exists pre, post, (set_click_count (click_count r + 1)%Z r).
  repeat split; assumption.
Qed.

End Resolution.

(** ** Analytics *)

Lemma insert_desc_perm (x : URL) (l : list URL) :
  Permutation (Db.insert_desc x l) (x :: l).
Proof.
  induction l as [|y l IH]; simpl; [apply Permutation_refl|].
  destruct (click_count y <=? click_count x)%Z; [apply Permutation_refl|].
  eapply perm_trans; [apply perm_skip, IH | apply perm_swap].
Qed.

Lemma insert_desc_sorted (x : URL) (l : list URL) :
  StronglySorted more_clicks l -> StronglySorted more_clicks (Db.insert_desc x l).
Proof.
  induction 1 as [|y l Hs IH Hy]; simpl.
  - constructor; constructor.
  - destruct (Z.leb_spec (click_count y) (click_count x)) as [Le | Gt].
    + constructor; [constructor; assumption|].
      constructor; [exact Le|].
      eapply Forall_impl; [|exact Hy]. unfold more_clicks. intros; lia.
    + constructor; [exact IH|].
      eapply Permutation_Forall; [apply Permutation_sym, insert_desc_perm|].
      constructor; [unfold more_clicks; lia | exact Hy].
Qed.

Lemma order_by_perm (db : Store) :
  Permutation (Db.order_by_click_count_desc db) db.
Proof.
  induction db as [|x db IH]; simpl; [constructor|].
  eapply perm_trans; [apply insert_desc_perm | apply perm_skip, IH].
Qed.

Lemma order_by_sorted (db : Store) :
  StronglySorted more_clicks (Db.order_by_click_count_desc db).
Proof.
  induction db as [|x db IH]; simpl; [constructor|].
  apply insert_desc_sorted, IH.
Qed.

Lemma sorted_app (l1 l2 : list URL) :
  StronglySorted more_clicks (l1 ++ l2) ->
  StronglySorted more_clicks l1
  /\ forall a b, In a l1 -> In b l2 -> more_clicks a b.
Proof.
  induction l1 as [|x l1 IH]; simpl; intros H.
  - split; [constructor | contradiction].
  - inversion H as [|? ? Hs Hx]; subst.
    destruct (IH Hs) as [S1 C1]. apply Forall_app in Hx as [Hx1 Hx2]. split.
    + constructor; assumption.
    + intros a b [<- | Ha] Hb.
      * rewrite Forall_forall in Hx2. apply Hx2; exact Hb.
      * apply C1; assumption.
Qed.

Section Analytics.

Variable BASE_URL : str.

Lemma shown_analytics (db : Store) :
  shown_urls (fst (analytics BASE_URL db))
  = firstn 50 (Db.order_by_click_count_desc db).
Proof. reflexivity. Qed.

Lemma analytics_store (db : Store) : snd (analytics BASE_URL db) = db.
Proof. reflexivity. Qed.

(** C10, as the code has it.  [analytics] has no limit parameter: it shows
    the first 50 rows of the table ordered by falling click count.  The rows
    shown are at most 50, in falling order of [click_count], they are rows
    of the table and none of the rows left out has more clicks than a row
    shown; the store is returned as it was.  For click counts A:5, B:10, C:1
    the rows shown are B, A, C. *)
Theorem analytics_top_50 (db : Store) :
  let rows := shown_urls (fst (analytics BASE_URL db)) in
  length rows <= 50
  /\ StronglySorted more_clicks rows
  /\ (exists rest,
        Permutation (rows ++ rest) db
        /\ forall a b, In a rows -> In b rest -> more_clicks a b)
  /\ snd (analytics BASE_URL db) = db
  /\ shown_urls (fst (analytics BASE_URL Samples.store_ABC))
     = [Samples.row_B; Samples.row_A; Samples.row_C].
Proof.
  cbv zeta. rewrite shown_analytics, analytics_store.
  assert (S := order_by_sorted db).
  rewrite <- (firstn_skipn 50 (Db.order_by_click_count_desc db)) in S.
  apply sorted_app in S as [S1 S2].
  split; [apply firstn_le_length|]. split; [exact S1|]. split.
  - exists (skipn 50 (Db.order_by_click_count_desc db)). split; [|exact S2].
    rewrite firstn_skipn. apply order_by_perm.
  - split; [reflexivity | vm_compute; reflexivity].
Qed.

End Analytics.

(** ** Shortening *)

Lemma loop_exhausted (n : nat) (db : Store) (g : Rng) :
  Forall (fun c => In c (map short_code db)) (candidates n g) ->
  fst (unique_code_loop n db g) = None.
Proof.
  revert g; induction n as [|n IH]; intros g H;
    cbn [unique_code_loop candidates] in *; [reflexivity|].
  destruct (generate_short_code 6 g) as [c g1].
  inversion H as [|? ? Hc Hrest]; subst.
  apply first_code_some_iff in Hc as (r & ->).
  apply IH; exact Hrest.
Qed.

Lemma loop_fresh (n : nat) (db : Store) (g g' : Rng) (c : str) :
  unique_code_loop n db g = (Some c, g') -> ~ In c (map short_code db).
Proof.
  revert g; induction n as [|n IH]; intros g H;
    cbn [unique_code_loop] in *; [discriminate|].
  destruct (generate_short_code 6 g) as [c1 g1].
  destruct (Db.first (Db.by_short_code c1) db) eqn:F.
  - eapply IH; exact H.
  - injection H as <- <-. intros Hin.
    apply first_code_some_iff in Hin as (r & Hr). congruence.
Qed.

Lemma add_commit_fresh (now : Z) (n c : str) (db : Store) :
  ~ In c (map short_code db) ->
  Db.add_commit now n c db
  = Return (mkURL (Db.next_id db) n c now 0,
            db ++ [mkURL (Db.next_id db) n c now 0]).
Proof.
  intros H. unfold Db.add_commit.
  destruct (existsb (Db.by_short_code c) db) eqn:E; [|reflexivity].
  apply exists_code_iff in E. contradiction.
Qed.

Lemma first_app_none (p : URL -> bool) (db l : Store) :
  Db.first p db = None -> Db.first p (db ++ l) = Db.first p l.
Proof.
  unfold Db.first. induction db as [|x db IH]; simpl; [reflexivity|].
  destruct (p x); [discriminate | exact IH].
Qed.

Lemma filter_none (p : URL -> bool) (db : Store) :
  (forall r, In r db -> p r = false) -> filter p db = [].
Proof.
  induction db as [|x db IH]; simpl; intros H; [reflexivity|].
  rewrite (H x (or_introl eq_refl)). apply IH. intros r Hr; apply H; right; exact Hr.
Qed.

Lemma one_row_per_url (db : Store) (e : URL) :
  long_url_unique db -> In e db ->
  length (filter (Db.by_long_url (long_url e)) db) = 1.
Proof.
  unfold long_url_unique. induction db as [|x db IH]; simpl; intros ND Hin;
    [contradiction|].
  inversion ND as [|? ? Hx ND']; subst.
  destruct Hin as [-> | Hin].
  - unfold Db.by_long_url at 1. rewrite str_eqb_refl. simpl. f_equal.
    rewrite filter_none; [reflexivity|]. intros r Hr.
    destruct (Db.by_long_url (long_url e) r) eqn:E; [|reflexivity].
    apply by_long_url_true in E. exfalso. apply Hx. rewrite <- E.
    apply in_map; exact Hr.
  - destruct (Db.by_long_url (long_url e) x) eqn:E.
    + apply by_long_url_true in E. exfalso. apply Hx. rewrite E.
      apply in_map; exact Hin.
    + apply IH; assumption.
Qed.

Lemma next_id_above (db : Store) (x : URL) :
  In x db -> (id x < Db.next_id db)%Z.
Proof.
  unfold Db.next_id. induction db as [|y db IH]; cbn [fold_right map In];
    [contradiction|].
  intros [-> | H]; [lia|]. specialize (IH H). lia.
Qed.

Lemma update_keeps_codes (rec_id v : Z) (db : Store) :
  map short_code (Db.update_click_count rec_id v db) = map short_code db.
Proof.
  unfold Db.update_click_count. rewrite map_map. apply map_ext.
  intros r. destruct (id r =? rec_id)%Z; reflexivity.
Qed.

Lemma update_keeps_ids (rec_id v : Z) (db : Store) :
  map id (Db.update_click_count rec_id v db) = map id db.
Proof.
  unfold Db.update_click_count. rewrite map_map. apply map_ext.
  intros r. destruct (id r =? rec_id)%Z; reflexivity.
Qed.

Lemma unique_snoc {K : Type} (key : URL -> K) (db : Store) (row : URL) :
  NoDup (map key db) -> ~ In (key row) (map key db) ->
  NoDup (map key (db ++ [row])).
Proof.
  intros ND Fresh. rewrite map_app. apply NoDup_app; [exact ND | |].
  - simpl. constructor; [simpl; tauto | constructor].
  - intros a Ha [<- | []]. contradiction.
Qed.

(** The table constraints hold in every state of the store. *)
Lemma reachable_constraints (db : Store) :
  reachable db -> pk_unique db /\ short_code_unique db.
Proof.
  unfold pk_unique, short_code_unique.
  induction 1 as [|db now lu sc row db' R [PK SC] A | db rec_id v R [PK SC]].
  - split; constructor.
  - unfold Db.add_commit in A.
    destruct (existsb (Db.by_short_code sc) db) eqn:E; [discriminate|].
    injection A as <- <-. split; apply unique_snoc; try assumption; simpl.
    + intros Hin. apply in_map_iff in Hin as (x & Hx & Hin).
      apply next_id_above in Hin. lia.
    + intros Hin. apply exists_code_iff in Hin. congruence.
  - rewrite update_keeps_ids, update_keeps_codes. auto.
Qed.

Lemma unique_key_eq {K : Type} (key : URL -> K) (db : Store) (a b : URL) :
  NoDup (map key db) -> In a db -> In b db -> key a = key b -> a = b.
Proof.
  induction db as [|x db IH]; simpl; intros ND Ha Hb E; [contradiction|].
  inversion ND as [|? ? Hx ND']; subst.
  destruct Ha as [-> | Ha], Hb as [-> | Hb]; auto.
  - exfalso. apply Hx. rewrite E. apply in_map; exact Hb.
  - exfalso. apply Hx. rewrite <- E. apply in_map; exact Ha.
Qed.

Lemma update_keeps_urls (rec_id v : Z) (db : Store) :
  map long_url (Db.update_click_count rec_id v db) = map long_url db.
Proof.
  unfold Db.update_click_count. rewrite map_map. apply map_ext.
  intros r. destruct (id r =? rec_id)%Z; reflexivity.
Qed.

Section Shortening.

Variable check_bracketed_netloc : str -> outcome unit.
Variable BASE_URL : str.
Local Abbreviation normalize := (normalize_url check_bracketed_netloc).
Local Abbreviation shorten := (shorten_url check_bracketed_netloc BASE_URL).

(** The path taken when the normalized URL is already stored. *)
Lemma shorten_existing (raw : str) (now : Z) (g : Rng) (db : Store)
  (n : str) (e : URL) :
  normalize (strip raw) = Return n ->
  is_valid_url n = true ->
  Db.first (Db.by_long_url n) db = Some e ->
  exists r, shorten raw now g db = (r, g, db)
            /\ shorten_view r = Some (Shortened (short_code e)).
Proof.
  intros N V F. unfold shorten_url. rewrite N, V, F. simpl negb. cbv iota.
  eexists. split; [reflexivity|]. reflexivity.
Qed.

(** What a call that returns a short code has done. *)
Lemma shorten_success_inv (raw : str) (now : Z) (g g' : Rng) (db db' : Store)
  (r : outcome Response) (c : str) :
  shorten raw now g db = (r, g', db') ->
  shorten_view r = Some (Shortened c) ->
  exists n,
    normalize (strip raw) = Return n /\ is_valid_url n = true
    /\ ((exists e, Db.first (Db.by_long_url n) db = Some e
                   /\ short_code e = c /\ g' = g /\ db' = db)
        \/ (Db.first (Db.by_long_url n) db = None
            /\ ~ In c (map short_code db)
            /\ db' = db ++ [mkURL (Db.next_id db) n c now 0])).
Proof.
  unfold shorten_url. intros H V.
  destruct (normalize (strip raw)) as [n|e] eqn:N.
  2:{ injection H as <- _ _. discriminate V. }
  exists n. split; [reflexivity|].
  destruct (is_valid_url n) eqn:Valid; simpl negb in H; cbv iota in H.
  2:{ injection H as <- _ _. vm_compute in V. discriminate V. }
  split; [reflexivity|].
  destruct (Db.first (Db.by_long_url n) db) as [e|] eqn:F.
  - injection H as <- <- <-. left. exists e.
    repeat split; try reflexivity.
    cbn in V. injection V as V. exact V.
  - right. split; [reflexivity|].
    destruct (unique_code_loop max_attempts db g) as [[code|] g1] eqn:L.
    2:{ injection H as <- _ _. vm_compute in V. discriminate V. }
    assert (Fresh := loop_fresh _ _ _ _ _ L).
    rewrite (add_commit_fresh now n code db Fresh) in H.
    injection H as <- <- <-. cbn in V. injection V as <-.
    split; [exact Fresh | reflexivity].
Qed.

(** A call leaves the table as it was or appends one row with a new code
    and a new URL. *)
Lemma shorten_store (raw : str) (now : Z) (g : Rng) (db : Store) :
  snd (shorten raw now g db) = db
  \/ exists n c,
       snd (shorten raw now g db) = db ++ [mkURL (Db.next_id db) n c now 0]
       /\ ~ In c (map short_code db)
       /\ ~ In n (map long_url db).
Proof.
  unfold shorten_url.
  destruct (normalize (strip raw)) as [n|e]; [|left; reflexivity].
  destruct (is_valid_url n); simpl negb; cbv iota; [|left; reflexivity].
  destruct (Db.first (Db.by_long_url n) db) as [e|] eqn:F; [left; reflexivity|].
  destruct (unique_code_loop max_attempts db g) as [[code|] g1] eqn:L;
    [|left; reflexivity].
  assert (Fresh := loop_fresh _ _ _ _ _ L).
  rewrite (add_commit_fresh now n code db Fresh).
  right. exists n, code. split; [reflexivity|]. split; [exact Fresh|].
  intros Hin. apply in_map_iff in Hin as (x & Hx & Hinx).
  rewrite first_none in F. specialize (F x Hinx).
  apply by_long_url_true in Hx. congruence.
Qed.

(** C4.  When the submitted URL is valid and not yet stored, and each of
    the 10 codes the generator produces is the code of a stored row,
    [shorten_url] answers with the exhaustion error and returns the store
    as it was. *)
Theorem code_space_exhausted (raw : str) (now : Z) (g : Rng) (db : Store)
  (n : str) :
  normalize (strip raw) = Return n ->
  is_valid_url n = true ->
  ~ In n (map long_url db) ->
  Forall (fun c => In c (map short_code db)) (candidates max_attempts g) ->
  shorten_view (fst (fst (shorten raw now g db))) = Some CodeSpaceExhausted
  /\ snd (shorten raw now g db) = db.
Proof.
  intros N V Hn Hc. unfold shorten_url. rewrite N, V. simpl negb. cbv iota.
  assert (F : Db.first (Db.by_long_url n) db = None).
  { apply first_none. intros r Hr.
    destruct (Db.by_long_url n r) eqn:E; [|reflexivity].
    apply by_long_url_true in E. exfalso. apply Hn. rewrite <- E.
    apply in_map; exact Hr. }
  rewrite F. apply loop_exhausted in Hc.
  destruct (unique_code_loop max_attempts db g) as [[code|] g1];
    simpl in Hc; [discriminate|].
  split; [vm_compute; reflexivity | reflexivity].
Qed.

(** *** Dedup *)

(** C2.  In a store with at most one row per long URL, let a first call of
    [shorten_url] return the short code [c].  A second call whose input has
    the same normalized form returns [c] as well, draws nothing from the
    generator and leaves the store as the first call left it; that store
    holds exactly one row for the normalized URL. *)
Theorem dedup_same_code (raw1 raw2 : str) (now1 now2 : Z) (g : Rng)
  (db : Store) (c : str) :
  long_url_unique db ->
  normalize (strip raw1) = normalize (strip raw2) ->
  shorten_view (fst (fst (shorten raw1 now1 g db))) = Some (Shortened c) ->
  exists n r1 g1 db1 r2,
    normalize (strip raw1) = Return n
    /\ shorten raw1 now1 g db = (r1, g1, db1)
    /\ shorten raw2 now2 g1 db1 = (r2, g1, db1)
    /\ shorten_view r2 = Some (Shortened c)
    /\ length (filter (Db.by_long_url n) db1) = 1.
Proof.
  intros U Same V1.
  destruct (shorten raw1 now1 g db) as [[r1 g1] db1] eqn:E1. simpl in V1.
  destruct (shorten_success_inv _ _ _ _ _ _ _ _ E1 V1)
    as (n & N & Valid & [(e & F & <- & -> & ->) | (F & Fresh & ->)]).
  - rewrite N in Same. symmetry in Same.
    destruct (shorten_existing raw2 now2 g db n e Same Valid F) as (r2 & E2 & V2).
    exists n, r1, g, db, r2. repeat split; try assumption.
    apply first_some in F as [Hin Hn]. apply by_long_url_true in Hn.
    rewrite <- Hn. apply one_row_per_url; assumption.
  - rewrite N in Same. symmetry in Same.
    set (row := mkURL (Db.next_id db) n c now1 0) in *.
    assert (F1 : Db.first (Db.by_long_url n) (db ++ [row]) = Some row).
    { rewrite (first_app_none _ _ _ F). unfold Db.first. simpl.
      unfold Db.by_long_url. simpl. rewrite str_eqb_refl. reflexivity. }
    destruct (shorten_existing raw2 now2 g1 (db ++ [row]) n row Same Valid F1)
      as (r2 & E2 & V2).
    exists n, r1, g1, (db ++ [row]), r2. repeat split; try assumption.
    rewrite filter_app, filter_none by (apply first_none; exact F).
    simpl. unfold Db.by_long_url. simpl. rewrite str_eqb_refl. reflexivity.
Qed.

(** *** Uniqueness of short codes *)

Lemma shorten_keeps_unique (raw : str) (now : Z) (g : Rng) (db : Store) :
  short_code_unique db -> short_code_unique (snd (shorten raw now g db)).
Proof.
  intros U. destruct (shorten_store raw now g db) as [-> | (n & c & -> & F & _)];
    [exact U | apply unique_snoc; assumption].
Qed.

Lemma shorten_extends (raw : str) (now : Z) (g : Rng) (db : Store) :
  exists ext, snd (shorten raw now g db) = db ++ ext.
Proof.
  destruct (shorten_store raw now g db) as [-> | (n & c & -> & _)].
  - exists []. rewrite app_nil_r. reflexivity.
  - eexists. reflexivity.
Qed.

(** Every code a run of requests returns is stored, in the final table,
    with the normalized URL of the request it answers. *)
Lemma shorten_all_bindings (reqs : list (str * Z)) :
  forall (g g' : Rng) (db db' : Store) (rs : list (outcome Response)),
  short_code_unique db ->
  shorten_all check_bracketed_netloc BASE_URL reqs g db = (rs, g', db') ->
  short_code_unique db'
  /\ (exists ext, db' = db ++ ext)
  /\ forall c, In c (returned_codes rs) ->
       exists q n row,
         In q reqs /\ normalize (strip (fst q)) = Return n
         /\ In row db' /\ long_url row = n /\ short_code row = c.
Proof.
  induction reqs as [|[raw now] reqs IH]; intros g g' db db' rs U E;
    cbn [shorten_all] in E.
  - injection E as <- _ <-. split; [exact U|]. split.
    + exists []. rewrite app_nil_r. reflexivity.
    + simpl. contradiction.
  - destruct (shorten raw now g db) as [[r g1] db1] eqn:E1.
    destruct (shorten_all check_bracketed_netloc BASE_URL reqs g1 db1)
      as [[rs' g2] db2] eqn:E2.
    injection E as <- _ <-.
    assert (U1 : short_code_unique db1).
    { generalize (shorten_keeps_unique raw now g db U). rewrite E1. auto. }
    destruct (IH _ _ _ _ _ U1 E2) as (U2 & (ext2 & X2) & B2).
    destruct (shorten_extends raw now g db) as (ext1 & X1).
    rewrite E1 in X1. simpl in X1.
    split; [exact U2|]. split.
    { exists (ext1 ++ ext2). rewrite X2, X1, app_assoc. reflexivity. }
    intros c Hc. cbn [returned_codes] in Hc.
    assert (Tail : In c (returned_codes rs') ->
                   exists q n row,
                     In q ((raw, now) :: reqs)
                     /\ normalize (strip (fst q)) = Return n
                     /\ In row db2 /\ long_url row = n /\ short_code row = c).
    { intros H. destruct (B2 c H) as (q & n & row & Hq & Hrest).
      exists q, n, row. split; [right; exact Hq | exact Hrest]. }
    destruct (shorten_view r) as [[c1| |]|] eqn:V; try (apply Tail; exact Hc).
    destruct Hc as [<- | Hc]; [|apply Tail; exact Hc].
    destruct (shorten_success_inv _ _ _ _ _ _ _ _ E1 V)
      as (n & N & _ & [(e & F & Ec & _ & ->) | (F & _ & ->)]).
    + apply first_some in F as [Hin Hn]. apply by_long_url_true in Hn.
      exists (raw, now), n, e. split; [left; reflexivity|].
      split; [exact N|]. split; [|auto].
      rewrite X2. apply in_or_app; left; exact Hin.
    + exists (raw, now), n, (mkURL (Db.next_id db) n c1 now 0).
      split; [left; reflexivity|]. split; [exact N|]. split; [|auto].
      rewrite X2. apply in_or_app; left. apply in_or_app; right; left; reflexivity.
Qed.

(** C8.  In every state of the store no two rows share a short code; and
    when requests whose normalized URLs are pairwise distinct are served
    one after the other, starting from a store without duplicate codes,
    the short codes returned are pairwise distinct. *)
Theorem short_codes_distinct :
  (forall db, reachable db -> short_code_unique db)
  /\ (forall (reqs : list (str * Z)) (g : Rng) (db : Store),
        short_code_unique db ->
        NoDup (map (fun q => normalize (strip (fst q))) reqs) ->
        NoDup (returned_codes
                 (fst (fst (shorten_all check_bracketed_netloc BASE_URL
                                        reqs g db))))).
Proof.
  split; [intros db R; apply reachable_constraints; exact R|].
  induction reqs as [|[raw now] reqs IH]; intros g db U ND;
    cbn [shorten_all].
  - simpl. constructor.
  - destruct (shorten raw now g db) as [[r g1] db1] eqn:E1.
    destruct (shorten_all check_bracketed_netloc BASE_URL reqs g1 db1)
      as [[rs' g2] db2] eqn:E2.
    cbn [fst returned_codes map] in *.
    inversion ND as [|? ? Hq ND']; subst.
    assert (U1 : short_code_unique db1).
    { generalize (shorten_keeps_unique raw now g db U). rewrite E1. auto. }
    assert (Rest : NoDup (returned_codes rs')).
    { generalize (IH g1 db1 U1 ND'). rewrite E2. auto. }
    destruct (shorten_view r) as [[c| |]|] eqn:V; try exact Rest.
    constructor; [|exact Rest]. intros Hc.
    destruct (shorten_all_bindings reqs _ _ _ _ _ U1 E2) as (U2 & (ext & X) & B).
    destruct (B c Hc) as (q & n' & row' & Hin & N' & Hrow' & L' & C').
    assert (Head : exists n row,
               normalize (strip raw) = Return n
               /\ In row db1 /\ long_url row = n /\ short_code row = c).
    { destruct (shorten_success_inv _ _ _ _ _ _ _ _ E1 V)
        as (n & N & _ & [(e & F & Ec & _ & ->) | (F & _ & ->)]).
      - apply first_some in F as [Hi Hn]. apply by_long_url_true in Hn.
        exists n, e. auto.
      - exists n, (mkURL (Db.next_id db) n c now 0).
        split; [exact N|]. split; [|auto]. apply in_or_app; right; left; reflexivity. }
    destruct Head as (n & row & N & Hrow & L & C).
    assert (row = row').
    { apply (unique_key_eq short_code db2); try assumption.
      - rewrite X. apply in_or_app; left; exact Hrow.
      - congruence. }
    subst row'. apply Hq. simpl. rewrite N.
    apply in_map_iff. exists q. split; [|exact Hin]. rewrite N'. congruence.
Qed.

(** Requests served one at a time keep one row per long URL, and every
    store they produce is a state of the store. *)
Lemma served_constraints (db : Store) :
  served check_bracketed_netloc BASE_URL db ->
  long_url_unique db /\ reachable db.
Proof.
  unfold long_url_unique.
  induction 1 as [|db raw now g Sv [U R] | db code Sv [U R] | db Sv [U R]].
  - split; constructor.
  - destruct (shorten_store raw now g db) as [-> | (n & c & -> & Fc & Fn)];
      [auto|]. split.
    + apply unique_snoc; assumption.
    + eapply reach_add; [exact R | apply add_commit_fresh; exact Fc].
  - unfold redirect_to_url.
    destruct (Db.first (Db.by_short_code code) db); cbn [snd]; [|auto].
    rewrite update_keeps_urls. split; [exact U | apply reach_update; exact R].
  - auto.
Qed.

End Shortening.

(** ** Strings cut by [find], [split] and slices *)

Module StrFacts.
Import Parts.

Lemma contains_false (c : ascii) (s : str) :
  contains c s = false <-> Forall (fun x => chr_eqb c x = false) s.
Proof.
  unfold contains. induction s as [|x s IH]; simpl.
  - split; [constructor | reflexivity].
  - rewrite orb_false_iff, IH. split.
    + intros [H1 H2]. constructor; assumption.
    + intros H. inversion H; subst. auto.
Qed.

Lemma contains_app (c : ascii) (a b : str) :
  contains c (a ++ b) = contains c a || contains c b.
Proof. unfold contains. apply existsb_app. Qed.

Lemma incl_before (c : ascii) (s : str) : incl (before c s) s.
Proof.
  induction s as [|x s IH]; simpl; [apply incl_refl|].
  destruct (chr_eqb c x); [intros y []|].
  intros y [<- | H]; [left; reflexivity | right; apply IH; exact H].
Qed.

Lemma incl_after (c : ascii) (s : str) : incl (after c s) s.
Proof.
  induction s as [|x s IH]; simpl; [apply incl_refl|].
  destruct (chr_eqb c x); intros y H; right; [exact H | apply IH; exact H].
Qed.

Lemma incl_firstn (n : nat) (s : str) : incl (firstn n s) s.
Proof.
  intros y H. rewrite <- (firstn_skipn n s). apply in_or_app; left; exact H.
Qed.

Lemma incl_skipn (n : nat) (s : str) : incl (skipn n s) s.
Proof.
  intros y H. rewrite <- (firstn_skipn n s). apply in_or_app; right; exact H.
Qed.

Lemma Forall_incl (P : ascii -> Prop) (a s : str) :
  incl a s -> Forall P s -> Forall P a.
Proof. intros I H. exact (incl_Forall I H). Qed.

Lemma before_free (c : ascii) (s : str) : contains c (before c s) = false.
Proof.
  induction s as [|x s IH]; simpl; [reflexivity|].
  destruct (chr_eqb c x) eqn:E; [reflexivity|].
  unfold contains in *. simpl. rewrite E, IH. reflexivity.
Qed.

Lemma before_absent (c : ascii) (s : str) :
  contains c s = false -> before c s = s /\ after c s = [].
Proof.
  unfold contains. induction s as [|x s IH]; simpl; intros H; [auto|].
  apply orb_false_iff in H as [E H]. rewrite E.
  destruct (IH H) as [-> ->]. auto.
Qed.

Lemma before_after (c : ascii) (s : str) :
  contains c s = true -> s = before c s ++ c :: after c s.
Proof.
  unfold contains. induction s as [|x s IH]; simpl; intros H; [discriminate|].
  destruct (chr_eqb c x) eqn:E.
  - apply chr_eqb_eq in E. subst x. reflexivity.
  - simpl in H. simpl. f_equal. apply IH. exact H.
Qed.

Lemma before_app_hit (c : ascii) (a b : str) :
  contains c a = false -> before c (a ++ c :: b) = a /\ after c (a ++ c :: b) = b.
Proof.
  unfold contains. induction a as [|x a IH]; simpl; intros H.
  - rewrite chr_eqb_refl. auto.
  - apply orb_false_iff in H as [E H]. rewrite E.
    destruct (IH H) as [-> ->]. auto.
Qed.

(** [find] in terms of [before] and [after] *)
Lemma find_spec (c : ascii) (s : str) :
  match find c s with
  | Some i => contains c s = true
              /\ firstn i s = before c s /\ skipn (S i) s = after c s
  | None => contains c s = false
  end.
Proof.
  unfold contains. induction s as [|x s IH]; simpl; [reflexivity|].
  destruct (chr_eqb c x) eqn:E; simpl; [auto|].
  destruct (find c s) as [i|]; simpl.
  - destruct IH as (H1 & H2 & H3). rewrite H2. auto.
  - exact IH.
Qed.

Lemma split_once_spec (c : ascii) (s : str) :
  match split_once c s with Some p => p | None => (s, []) end
  = (before c s, after c s).
Proof.
  unfold split_once. generalize (find_spec c s).
  destruct (find c s) as [i|].
  - intros (_ & -> & ->). reflexivity.
  - intros H. destruct (before_absent c s H) as [-> ->]. reflexivity.
Qed.

Lemma delim_split (s : str) : before_delim s ++ from_delim s = s.
Proof.
  induction s as [|x s IH]; simpl; [reflexivity|].
  destruct (is_delim x); simpl; [reflexivity | rewrite IH; reflexivity].
Qed.

Lemma before_delim_free (s : str) :
  Forall (fun c => is_delim c = false) (before_delim s).
Proof.
  induction s as [|x s IH]; simpl; [constructor|].
  destruct (is_delim x) eqn:E; constructor; assumption.
Qed.

Lemma from_delim_head (s : str) :
  from_delim s = [] \/ exists c t, from_delim s = c :: t /\ is_delim c = true.
Proof.
  induction s as [|x s IH]; simpl; [left; reflexivity|].
  destruct (is_delim x) eqn:E; [right; eauto | exact IH].
Qed.

Lemma delim_app (a r : str) :
  Forall (fun c => is_delim c = false) a ->
  (r = [] \/ exists c t, r = c :: t /\ is_delim c = true) ->
  before_delim (a ++ r) = a /\ from_delim (a ++ r) = r.
Proof.
  intros Ha Hr. induction Ha as [|x a Hx Ha IH]; simpl.
  - destruct Hr as [-> | (c & t & -> & Hc)]; simpl; [auto|].
    rewrite Hc. auto.
  - rewrite Hx. destruct IH as [-> ->]. auto.
Qed.

(** The index [_splitnetloc] computes is the length of [before_delim]. *)
Lemma is_delim_cases (c : ascii) :
  is_delim c = true -> c = "/"%char \/ c = "?"%char \/ c = "#"%char.
Proof.
  unfold is_delim. rewrite !orb_true_iff, !chr_eqb_eq. intuition auto.
Qed.

Lemma find_delim_bound (s : str) :
  let n := length (before_delim s) in
  n <= length s
  /\ (forall c, is_delim c = true ->
        match find c s with Some i => n <= i | None => True end)
  /\ (n < length s ->
        match find "/" s with Some i => i = n | None => False end
        \/ match find "?" s with Some i => i = n | None => False end
        \/ match find "#" s with Some i => i = n | None => False end).
Proof.
  induction s as [|x s IH]; cbn [before_delim length find].
  - split; [lia|]. split; [intros; exact I | lia].
  - destruct IH as (B & L & U).
    destruct (is_delim x) eqn:E; cbn [length].
    + split; [lia|]. split.
      * intros c Hc. destruct (chr_eqb c x); [lia|].
        destruct (find c s); simpl; [lia | exact I].
      * intros _. destruct (is_delim_cases x E) as [-> | [-> | ->]];
          rewrite chr_eqb_refl; auto.
    + split; [lia|]. split.
      * intros c Hc. destruct (chr_eqb c x) eqn:Ec.
        -- apply chr_eqb_eq in Ec. congruence.
        -- specialize (L c Hc). destruct (find c s); simpl; [lia | exact I].
      * intros H. unfold is_delim in E.
        apply orb_false_iff in E as [E E3]. apply orb_false_iff in E as [E1 E2].
        rewrite E1, E2, E3.
        destruct U as [U | [U | U]]; [lia | | |].
        -- left. destruct (find "/" s); simpl; [lia | exact U].
        -- right; left. destruct (find "?" s); simpl; [lia | exact U].
        -- right; right. destruct (find "#" s); simpl; [lia | exact U].
Qed.

Lemma firstn_before_delim (s : str) :
  firstn (length (before_delim s)) s = before_delim s
  /\ skipn (length (before_delim s)) s = from_delim s.
Proof.
  induction s as [|x s IH]; simpl; [auto|].
  destruct (is_delim x); simpl; [auto|].
  destruct IH as [-> ->]. auto.
Qed.

Lemma splitnetloc_spec (y : str) :
  UrlLib._splitnetloc ("/"%char :: "/"%char :: y) 2
  = (before_delim y, from_delim y).
Proof.
  unfold UrlLib._splitnetloc, find_from, slice.
  cbn [fold_left skipn length].
  destruct (find_delim_bound y) as (B & L & U).
  destruct (firstn_before_delim y) as [F1 F2].
  set (n := length (before_delim y)) in *.
  assert (L1 := L "/"%char eq_refl).
  assert (L2 := L "?"%char eq_refl).
  assert (L3 := L "#"%char eq_refl).
  clear L.
  destruct (find "/" y) as [i1|], (find "?" y) as [i2|], (find "#" y) as [i3|];
    cbn [option_map];
    match goal with
    | |- (firstn (?d - 2) _, skipn ?d _) = _ =>
        replace d with (2 + n) by lia
    end;
    replace (2 + n - 2) with n by lia;
    cbn [Nat.add skipn]; rewrite F1, F2; reflexivity.
Qed.

Lemma filter_safe (s : str) :
  Forall (fun c => safe c = true) s -> UrlLib.remove_unsafe s = s.
Proof.
  unfold UrlLib.remove_unsafe, safe. induction 1 as [|x s Hx Hs IH]; simpl.
  - reflexivity.
  - rewrite Hx, IH. reflexivity.
Qed.

Lemma remove_unsafe_safe (s : str) :
  Forall (fun c => safe c = true) (UrlLib.remove_unsafe s).
Proof.
  unfold UrlLib.remove_unsafe, safe. induction s as [|x s IH]; simpl.
  - constructor.
  - destruct (negb (UrlLib.unsafe_url_byte x)) eqn:E; [constructor|]; assumption.
Qed.

End StrFacts.

(** ** The normalizer on a URL that begins with a lower-case scheme *)

Module NormalizeFacts.
Import Parts StrFacts.

Section Params.

Lemma rfind_last (a b : str) :
  contains "/" b = false -> rfind "/" (a ++ "/"%char :: b) = Some (length a).
Proof.
  intros Hb. assert (R : rfind "/" b = None).
  { unfold contains in Hb. induction b as [|x b IH]; simpl in *; [reflexivity|].
    apply orb_false_iff in Hb as [E Hb]. rewrite (IH Hb), E. reflexivity. }
  induction a as [|x a IH]; simpl.
  - rewrite R. reflexivity.
  - rewrite IH. reflexivity.
Qed.

Lemma last_slash (s : str) :
  contains "/" s = true ->
  exists a b, s = a ++ "/"%char :: b /\ contains "/" b = false.
Proof.
  unfold contains. induction s as [|x s IH]; simpl; intros H; [discriminate|].
  destruct (existsb (chr_eqb "/") s) eqn:E.
  - destruct (IH eq_refl) as (a & b & -> & Hb). exists (x :: a), b. auto.
  - rewrite orb_false_r in H. apply chr_eqb_eq in H. subst x.
    exists [], s. auto.
Qed.

Lemma skipn_past (a l : str) (n : nat) :
  skipn (length a + n) (a ++ l) = skipn n l.
Proof. induction a as [|x a IH]; simpl; auto. Qed.

Lemma splitparams_spec (a b : str) :
  contains "/" b = false ->
  split_params (a ++ "/"%char :: b)
  = if contains ";" b then (a ++ "/"%char :: before ";" b, after ";" b)
    else (a ++ "/"%char :: b, []).
Proof.
  intros Hb. unfold split_params, UrlLib._splitparams.
  assert (C : contains "/" (a ++ "/"%char :: b) = true).
  { rewrite contains_app. unfold contains at 2. simpl. apply orb_true_r. }
  rewrite C, (rfind_last a b Hb). unfold find_from.
  replace (length a) with (length a + 0) at 1 by lia.
  rewrite skipn_past. change (skipn 0 ("/"%char :: b)) with ("/"%char :: b).
  cbn [find].
  change (chr_eqb ";" "/") with false. cbv iota.
  generalize (find_spec ";" b). destruct (find ";" b) as [k|]; cbn [option_map].
  - intros (Cb & F & Sk). rewrite Cb.
    destruct (contains ";" (a ++ "/"%char :: b)) eqn:Ca.
    + rewrite firstn_app_2. cbn [firstn]. rewrite F.
      replace (S (length a + S k)) with (length a + S (S k)) by lia.
      rewrite skipn_past. cbn [skipn] in *. rewrite Sk. reflexivity.
    + (* no ";" at all contradicts the one found in [b] *)
      exfalso.
      assert (contains ";" (a ++ "/"%char :: b) = true).
      { rewrite contains_app. unfold contains at 2. simpl.
        unfold contains in Cb. rewrite Cb. rewrite !orb_true_r. reflexivity. }
      congruence.
  - intros Cb. rewrite Cb.
    destruct (contains ";" (a ++ "/"%char :: b)); reflexivity.
Qed.

Lemma split_params_nil : split_params [] = ([], []).
Proof. reflexivity. Qed.

End Params.

Section Tail.

Lemma collapse_root_slash (p' : str) :
  collapse_root ("/"%char :: p')
  = match p' with [] => [] | _ :: _ => "/"%char :: p' end.
Proof. destruct p'; reflexivity. Qed.

Lemma path_text_plain (p' : str) :
  path_text ("/"%char :: p') [] = collapse_root ("/"%char :: p').
Proof. destruct p'; reflexivity. Qed.

Lemma path_text_params (p' pr' : str) (y : ascii) :
  path_text ("/"%char :: p') (y :: pr')
  = "/"%char :: p' ++ ";"%char :: y :: pr'.
Proof. destruct p'; reflexivity. Qed.

Lemma split_params_no_semicolon (a b : str) :
  contains "/" b = false -> contains ";" b = false ->
  split_params (a ++ "/"%char :: b) = (a ++ "/"%char :: b, []).
Proof. intros Hb Hs. rewrite (splitparams_spec a b Hb), Hs. reflexivity. Qed.

Lemma leading_slash (a b w : str) :
  "/"%char :: w = a ++ "/"%char :: b -> exists a', a ++ ["/"%char] = "/"%char :: a'.
Proof.
  destruct a as [|x a]; simpl; intros E.
  - exists []. reflexivity.
  - injection E as <- _. exists (a ++ ["/"%char]). reflexivity.
Qed.

Lemma incl_app_tail (a t b : str) (c : ascii) :
  incl t b -> incl (a ++ c :: t) (a ++ c :: b).
Proof.
  intros I x Hx. apply in_app_or in Hx as [Hx | [<- | Hx]].
  - apply in_or_app; left; exact Hx.
  - apply in_or_app; right; left; reflexivity.
  - apply in_or_app; right; right; apply I; exact Hx.
Qed.

(** The path that is written is split again into the same parts. *)
Lemma path_text_fix (path0 : str) :
  path_ok path0 ->
  exists p pr p2,
    split_params path0 = (p, pr)
    /\ split_params (path_text p pr) = (p2, pr)
    /\ collapse_root p2 = collapse_root p
    /\ path_ok (path_text p pr)
    /\ incl (path_text p pr) path0.
Proof.
  unfold path_ok. intros [-> | (w & ->)].
  - exists [], [], []. repeat split; try reflexivity.
    + left; reflexivity.
    + apply incl_refl.
  - destruct (last_slash ("/"%char :: w) eq_refl) as (a & b & E & Hb).
    destruct (leading_slash a b w E) as (a' & Ea).
    assert (Shape : forall t, a ++ "/"%char :: t = "/"%char :: a' ++ t).
    { intros t. change (a ++ "/"%char :: t) with (a ++ ["/"%char] ++ t).
      rewrite app_assoc, Ea. reflexivity. }
    rewrite E. rewrite (splitparams_spec a b Hb).
    destruct (contains ";" b) eqn:Cb.
    + assert (B := before_after ";" b Cb).
      assert (Hb' : contains "/" (before ";" b) = false).
      { apply contains_false. eapply Forall_incl; [apply incl_before|].
        apply contains_false; exact Hb. }
      destruct (after ";" b) as [|y pr'] eqn:A.
      * exists (a ++ "/"%char :: before ";" b), [].
        rewrite (Shape (before ";" b)), path_text_plain, collapse_root_slash.
        destruct (a' ++ before ";" b) as [|z t] eqn:Et.
        -- exists []. repeat split; try reflexivity.
           ++ left; reflexivity.
           ++ intros x [].
        -- cbv iota. exists ("/"%char :: z :: t). rewrite <- Et, <- Shape.
           rewrite (split_params_no_semicolon a _ Hb' (before_free ";" b)).
           repeat split; try reflexivity.
           ++ rewrite Shape, collapse_root_slash, Et. reflexivity.
           ++ rewrite Shape. right; eexists; reflexivity.
           ++ apply incl_app_tail, incl_before.
      * exists (a ++ "/"%char :: before ";" b), (y :: pr'),
               (a ++ "/"%char :: before ";" b).
        rewrite (Shape (before ";" b)), path_text_params.
        assert (Same : "/"%char :: (a' ++ before ";" b) ++ ";"%char :: y :: pr'
                       = a ++ "/"%char :: b).
        { rewrite B at 2. rewrite Shape, <- app_assoc. reflexivity. }
        rewrite Same, (splitparams_spec a b Hb), Cb, A, <- Shape.
        repeat split; try reflexivity.
        -- rewrite Shape. right; eexists; reflexivity.
        -- apply incl_refl.
    + exists (a ++ "/"%char :: b), [].
      rewrite (Shape b), path_text_plain, collapse_root_slash.
      destruct (a' ++ b) as [|z t] eqn:Et.
      * exists []. repeat split; try reflexivity.
        -- left; reflexivity.
        -- intros x [].
      * cbv iota. exists ("/"%char :: z :: t). rewrite <- Et, <- Shape.
        rewrite (split_params_no_semicolon a b Hb Cb).
        repeat split; try reflexivity.
        -- rewrite Shape, collapse_root_slash, Et. reflexivity.
        -- rewrite Shape. right; eexists; reflexivity.
        -- apply incl_refl.
Qed.

End Tail.

Section TailParts.

Lemma head_delim_path (r : str) :
  head_delim r -> path_ok (before "?" (before "#" r)).
Proof.
  unfold head_delim, path_ok. intros [-> | (c & t & -> & Hc)].
  - left; reflexivity.
  - destruct (is_delim_cases c Hc) as [-> | [-> | ->]].
    + right. eexists. reflexivity.
    + left. reflexivity.
    + left. reflexivity.
Qed.

Lemma query_text_cases (q : str) :
  (q = [] /\ query_text q = [])
  \/ (exists y q', q = y :: q' /\ query_text q = "?"%char :: q).
Proof. destruct q as [|y q']; [left | right; exists y, q']; auto. Qed.

(** What is written after the authority is parsed into the same parts. *)
Lemma tail_parts_fix (r : str) :
  Forall (fun c => safe c = true) r -> head_delim r ->
  exists p pr q p2,
    tail_parts r = (p, pr, q)
    /\ Forall (fun c => safe c = true) (path_text p pr ++ query_text q)
    /\ head_delim (path_text p pr ++ query_text q)
    /\ tail_parts (path_text p pr ++ query_text q) = (p2, pr, q)
    /\ collapse_root p2 = collapse_root p.
Proof.
  intros Safe HD.
  destruct (path_text_fix _ (head_delim_path r HD))
    as (p & pr & p2 & SP & SP2 & CE & PO2 & I2).
  set (r1 := before "#" r) in *. set (q := after "?" r1).
  exists p, pr, q, p2.
  assert (T : tail_parts r = (p, pr, q)).
  { unfold tail_parts. fold r1. rewrite SP. reflexivity. }
  split; [exact T|].
  assert (I1 : incl r1 r) by apply incl_before.
  assert (Ip : incl (before "?" r1) r1) by apply incl_before.
  assert (Iq : incl q r1) by apply incl_after.
  assert (H1 : Forall (fun x => chr_eqb "#" x = false) r1).
  { apply contains_false, before_free. }
  assert (Q1 : Forall (fun x => chr_eqb "?" x = false) (before "?" r1)).
  { apply contains_false, before_free. }
  set (u2 := path_text p pr) in *.
  assert (Hu : contains "#" u2 = false).
  { apply contains_false. eapply Forall_incl; [|exact H1].
    eapply incl_tran; [exact I2 | exact Ip]. }
  assert (Qu : contains "?" u2 = false).
  { apply contains_false. eapply Forall_incl; [exact I2 | exact Q1]. }
  assert (Hq : contains "#" q = false).
  { apply contains_false. eapply Forall_incl; [exact Iq | exact H1]. }
  assert (Su : Forall (fun c => safe c = true) u2).
  { eapply Forall_incl; [|exact Safe].
    eapply incl_tran; [exact I2|]. eapply incl_tran; [exact Ip | exact I1]. }
  assert (Sq : Forall (fun c => safe c = true) q).
  { eapply Forall_incl; [|exact Safe]. eapply incl_tran; [exact Iq | exact I1]. }
  destruct (query_text_cases q) as [[Eq Et] | (y & q' & Eq & Et)]; rewrite Et.
  - rewrite app_nil_r. split; [exact Su|]. split.
    { destruct PO2 as [E | (w & E)]; [left; exact E|].
      right. exists "/"%char, w. split; [exact E | reflexivity]. }
    split; [|exact CE].
    unfold tail_parts.
    destruct (before_absent "#" u2 Hu) as [-> _].
    destruct (before_absent "?" u2 Qu) as [-> ->].
    rewrite SP2, Eq. reflexivity.
  - split; [apply Forall_app; split; [exact Su | constructor; [reflexivity | exact Sq]]|].
    split.
    { destruct PO2 as [E | (w & E)]; rewrite E.
      - right. exists "?"%char, q. split; reflexivity.
      - right. exists "/"%char, (w ++ "?"%char :: q). split; reflexivity. }
    split; [|exact CE].
    unfold tail_parts.
    assert (Hall : contains "#" (u2 ++ "?"%char :: q) = false).
    { rewrite contains_app, Hu. unfold contains. simpl.
      unfold contains in Hq. rewrite Hq. reflexivity. }
    destruct (before_absent "#" _ Hall) as [-> _].
    destruct (before_app_hit "?" u2 q Qu) as [-> ->].
    rewrite SP2. reflexivity.
Qed.

Lemma unparse_form (sch nl p pr q : str) :
  sch = "http" \/ sch = "https" -> nl <> [] ->
  UrlLib.urlunparse sch nl (collapse_root p) pr q []
  = sch ++ "://" ++ nl ++ path_text p pr ++ query_text q.
Proof.
  intros Hs Hn. unfold UrlLib.urlunparse, UrlLib.urlunsplit, path_text, query_text.
  destruct nl as [|x nl]; [contradiction|].
  cbn [UrlLib.nonempty orb].
  set (url := if UrlLib.nonempty pr then collapse_root p ++ ";" ++ pr
              else collapse_root p).
  set (url' := if UrlLib.nonempty url && negb (str_eqb (firstn 1 url) "/")
               then "/" ++ url else url).
  destruct Hs as [-> | ->]; cbn [UrlLib.nonempty list_ascii_of_string];
    destruct q as [|y q']; cbn [UrlLib.nonempty];
    repeat (rewrite <- app_assoc; cbn [app]); rewrite ?app_nil_r; reflexivity.
Qed.

End TailParts.

Section Ports.

Lemma startswith_true (p s : str) :
  startswith p s = true -> exists t, s = p ++ t.
Proof.
  revert s; induction p as [|x p IH]; intros s H; simpl in *.
  - exists s. reflexivity.
  - destruct s as [|y s]; [discriminate|].
    apply andb_true_iff in H as [E H]. apply chr_eqb_eq in E. subst y.
    destruct (IH s H) as (t & ->). exists t. reflexivity.
Qed.

Lemma endswith_true (p s : str) :
  endswith p s = true -> exists w, s = w ++ p.
Proof.
  unfold endswith. intros H. apply startswith_true in H as (t & E).
  exists (rev t). rewrite <- (rev_involutive s), E, rev_app_distr, rev_involutive.
  reflexivity.
Qed.

(** The last ":" of a string is where it is. *)
Lemma last_colon (a d w d' : str) :
  no_colon d -> no_colon d' ->
  a ++ ":"%char :: d = w ++ ":"%char :: d' -> a = w /\ d = d'.
Proof.
  unfold no_colon. intros Hd Hd' E. apply (f_equal (@rev ascii)) in E.
  rewrite !rev_app_distr in E. simpl in E. rewrite <- !app_assoc in E. simpl in E.
  assert (Rd : contains ":" (rev d) = false).
  { apply contains_false, Forall_rev; exact Hd. }
  assert (Rd' : contains ":" (rev d') = false).
  { apply contains_false, Forall_rev; exact Hd'. }
  destruct (before_app_hit ":" (rev d) (rev a) Rd) as [B1 A1].
  destruct (before_app_hit ":" (rev d') (rev w) Rd') as [B2 A2].
  rewrite E in B1, A1. rewrite B2 in B1. rewrite A2 in A1.
  split.
  - rewrite <- (rev_involutive a), <- (rev_involutive w), A1. reflexivity.
  - rewrite <- (rev_involutive d), <- (rev_involutive d'), B1. reflexivity.
Qed.

Lemma endswith_no_colon (p s : str) :
  no_colon s -> endswith (":"%char :: p) s = false.
Proof.
  intros H. destruct (endswith (":"%char :: p) s) eqn:E; [|reflexivity].
  apply endswith_true in E as (w & ->). exfalso.
  apply Forall_app in H as [_ H]. inversion H as [|? ? Hc _]; subst.
  rewrite chr_eqb_refl in Hc. discriminate.
Qed.

Lemma strip_no_colon (sch z : str) :
  no_colon z -> strip_default_port sch z = z.
Proof.
  intros H. unfold strip_default_port.
  change (":80" : str) with (":"%char :: ("80" : str)).
  change (":443" : str) with (":"%char :: ("443" : str)).
  rewrite !endswith_no_colon by exact H. reflexivity.
Qed.

Lemma drop_last_app (a p : str) : drop_last (length p) (a ++ p) = a.
Proof.
  unfold drop_last. rewrite length_app.
  replace (length a + length p - length p) with (length a + 0) by lia.
  rewrite firstn_app_2. simpl. apply app_nil_r.
Qed.

(** With at most one ":", stripping the default port once is enough. *)
Lemma strip_one_colon (sch a d : str) :
  no_colon a -> no_colon d ->
  let z := a ++ ":"%char :: d in
  strip_default_port sch (strip_default_port sch z) = strip_default_port sch z
  /\ (a <> [] -> strip_default_port sch z <> []).
Proof.
  intros Ha Hd z.
  assert (Cut : forall p : str,
            no_colon p -> endswith (":"%char :: p) z = true ->
            drop_last (S (length p)) z = a).
  { intros p Hp E. apply endswith_true in E as (w & E). unfold z in *.
    destruct (last_colon a d w p Hd Hp E) as [-> ->].
    apply (drop_last_app w (":"%char :: p)). }
  assert (N80 : no_colon "80") by (repeat constructor).
  assert (N443 : no_colon "443") by (repeat constructor).
  unfold strip_default_port at 2 3 4.
  destruct (endswith ":80" z && str_eqb sch "http") eqn:C1.
  - apply andb_true_iff in C1 as [E _].
    rewrite (Cut "80" N80 E : drop_last 3 z = a).
    split; [apply strip_no_colon; exact Ha | auto].
  - destruct (endswith ":443" z && str_eqb sch "https") eqn:C2.
    + apply andb_true_iff in C2 as [E _].
      rewrite (Cut "443" N443 E : drop_last 4 z = a).
      split; [apply strip_no_colon; exact Ha | auto].
    + split.
      * unfold strip_default_port. rewrite C1, C2. reflexivity.
      * intros _. unfold z. destruct a; discriminate.
Qed.

Lemma strip_incl (sch z : str) : incl (strip_default_port sch z) z.
Proof.
  unfold strip_default_port, drop_last.
  destruct (_ && _); [apply incl_firstn|].
  destruct (_ && _); [apply incl_firstn | apply incl_refl].
Qed.

End Ports.

Section FirstPass.

Variable check_bracketed_netloc : str -> outcome unit.
Local Abbreviation normalize := (normalize_url check_bracketed_netloc).
Local Abbreviation parse := (UrlLib.urlparse check_bracketed_netloc).

Ltac run_urlparse pfx sch i x y :=
      change (sch ++ "://" ++ x) with (pfx ++ x);
      unfold UrlLib.urlparse, UrlLib.urlsplit;
      change (lstrip UrlLib.c0_control_or_space (pfx ++ x)) with (pfx ++ x);
      change (UrlLib.remove_unsafe (pfx ++ x)) with (pfx ++ y);
      change (find ":" (pfx ++ y)) with (Some i);
      cbv zeta; cbv iota; cbv beta;
      change (is_ascii_alpha (hd " "%char (pfx ++ y))
              && forallb UrlLib.scheme_char (firstn i (pfx ++ y))) with true;
      cbv iota;
      change (lower (firstn i (pfx ++ y))) with sch;
      change (skipn (S i) (pfx ++ y)) with ("/"%char :: "/"%char :: y);
      change (str_eqb (firstn 2 ("/"%char :: "/"%char :: y)) "//") with true;
      cbv iota; rewrite splitnetloc_spec.

Lemma urlparse_lower_scheme (sch x : str) :
  let y := UrlLib.remove_unsafe x in
  sch = "http" \/ sch = "https" ->
  contains "[" (before_delim y) = false ->
  contains "]" (before_delim y) = false ->
  parse (sch ++ "://" ++ x)
  = Return (let '(p, pr, q) := tail_parts (from_delim y) in
            UrlLib.mkParse sch (before_delim y) p pr q
                           (after "#" (from_delim y))).
Proof.
  intros y Hs B1 B2.
  assert (Tail :
    forall s : str,
      (s = "http" \/ s = "https") ->
      (' (netloc, url0) <- Return (before_delim y, from_delim y) ;;
       (let '(url1, fragment) :=
          match split_once "#" url0 with Some p => p | None => (url0, []) end in
        let '(url2, query) :=
          match split_once "?" url1 with Some p => p | None => (url1, []) end in
        Return (UrlLib.mkSplit s netloc url2 query fragment)))
      = Return (UrlLib.mkSplit s (before_delim y)
                  (before "?" (before "#" (from_delim y)))
                  (after "?" (before "#" (from_delim y)))
                  (after "#" (from_delim y)))).
  { intros s _. unfold bind.
    rewrite (split_once_spec "#" (from_delim y)).
    rewrite (split_once_spec "?" (before "#" (from_delim y))). reflexivity. }
  destruct Hs as [-> | ->].
  - run_urlparse ("http://" : str) ("http" : str) 4 x y.
    rewrite B1, B2. cbn [andb orb negb]. cbv iota.
    rewrite (Tail "http" (or_introl eq_refl)).
    unfold bind, tail_parts, split_params.
    cbn [UrlLib.s_scheme UrlLib.s_path UrlLib.s_netloc
         UrlLib.s_query UrlLib.s_fragment].
    change (UrlLib.mem "http" UrlLib.uses_params) with true. cbn [andb].
    destruct (contains ";" (before "?" (before "#" (from_delim y))));
      [destruct (UrlLib._splitparams _)|]; reflexivity.
  - run_urlparse ("https://" : str) ("https" : str) 5 x y.
    rewrite B1, B2. cbn [andb orb negb]. cbv iota.
    rewrite (Tail "https" (or_intror eq_refl)).
    unfold bind, tail_parts, split_params.
    cbn [UrlLib.s_scheme UrlLib.s_path UrlLib.s_netloc
         UrlLib.s_query UrlLib.s_fragment].
    change (UrlLib.mem "https" UrlLib.uses_params) with true. cbn [andb].
    destruct (contains ";" (before "?" (before "#" (from_delim y))));
      [destruct (UrlLib._splitparams _)|]; reflexivity.
Qed.

(** The first pass: the URL is rebuilt from its scheme, the authority
    before the first delimiter and the rest. *)
Lemma normalize_lower_scheme (sch x : str) :
  let y := UrlLib.remove_unsafe x in
  sch = "http" \/ sch = "https" ->
  contains "[" (before_delim y) = false ->
  contains "]" (before_delim y) = false ->
  normalize (sch ++ "://" ++ x)
  = Return (rebuild sch (before_delim y) (from_delim y)).
Proof.
  intros y Hs B1 B2. unfold normalize_url.
  assert (P : startswith "http://" (sch ++ "://" ++ x)
              || startswith "https://" (sch ++ "://" ++ x) = true).
  { destruct Hs as [-> | ->]; reflexivity. }
  rewrite P. rewrite (urlparse_lower_scheme sch x Hs B1 B2).
  subst y. unfold bind, rebuild, strip_default_port, collapse_root.
  destruct (tail_parts (from_delim (UrlLib.remove_unsafe x))) as [[p pr] q].
  cbn [UrlLib.scheme UrlLib.netloc UrlLib.path UrlLib.params UrlLib.query].
  assert (L : lower sch = sch) by (destruct Hs as [-> | ->]; reflexivity).
  rewrite L. reflexivity.
Qed.

End FirstPass.

Lemma plain_facts (c : ascii) :
  plain c = true ->
  is_delim c = false /\ safe c = true
  /\ chr_eqb "[" c = false /\ chr_eqb "]" c = false.
Proof.
  unfold plain, safe. rewrite !andb_true_iff, !negb_true_iff. tauto.
Qed.

Lemma plain_list (s : str) :
  Forall (fun c => plain c = true) s ->
  Forall (fun c => is_delim c = false) s
  /\ Forall (fun c => safe c = true) s
  /\ contains "[" s = false /\ contains "]" s = false.
Proof.
  intros H. rewrite !contains_false. repeat split;
    (eapply Forall_impl; [|exact H]); intros c Hc; apply plain_facts in Hc; tauto.
Qed.

Lemma lower_fixed (s : str) :
  Forall (fun c => lower_char c = c) s -> lower s = s.
Proof.
  unfold lower. induction 1 as [|x s Hx Hs IH]; simpl; [reflexivity|].
  rewrite Hx, IH. reflexivity.
Qed.

Section SecondPass.

Variable check_bracketed_netloc : str -> outcome unit.
Local Abbreviation normalize := (normalize_url check_bracketed_netloc).

(** The second pass: a rebuilt URL whose authority is in normal form is
    rebuilt to itself. *)
Lemma rebuild_fixed (sch nl r p pr q : str) :
  sch = "http" \/ sch = "https" ->
  nl <> [] ->
  Forall (fun c => plain c = true) nl ->
  lower nl = nl ->
  strip_default_port sch nl = nl ->
  Forall (fun c => safe c = true) r -> head_delim r ->
  tail_parts r = (p, pr, q) ->
  normalize (UrlLib.urlunparse sch nl (collapse_root p) pr q [])
  = Return (UrlLib.urlunparse sch nl (collapse_root p) pr q []).
Proof.
  intros Hs Hn Hp Hl Hst Safe HD T.
  destruct (tail_parts_fix r Safe HD)
    as (p0 & pr0 & q0 & p2 & T0 & S2 & HD2 & T2 & CE).
  rewrite T in T0. injection T0 as <- <- <-.
  destruct (plain_list nl Hp) as (ND & NS & B1 & B2).
  rewrite (unparse_form sch nl p pr q Hs Hn).
  set (rest2 := path_text p pr ++ query_text q) in *.
  assert (Y : UrlLib.remove_unsafe (nl ++ rest2) = nl ++ rest2).
  { apply filter_safe, Forall_app; split; assumption. }
  destruct (delim_app nl rest2 ND HD2) as [BD FD].
  generalize (normalize_lower_scheme check_bracketed_netloc sch (nl ++ rest2) Hs).
  cbv zeta. rewrite Y, BD, FD. intros N. rewrite (N B1 B2).
  unfold rebuild. rewrite T2, Hl, Hst, CE.
  rewrite (unparse_form sch nl p pr q Hs Hn). reflexivity.
Qed.

End SecondPass.

Section ValidUrls.

Import UrlPattern.

Lemma host_char_facts (c : ascii) :
  host_char c = true ->
  plain c = true /\ plain (lower_char c) = true
  /\ chr_eqb ":" (lower_char c) = false.
Proof. all_chars c; vm_compute; intros; repeat split; congruence. Qed.

Lemma digit_facts (c : ascii) :
  is_digit c = true ->
  plain c = true /\ plain (lower_char c) = true
  /\ chr_eqb ":" (lower_char c) = false.
Proof. all_chars c; vm_compute; intros; repeat split; congruence. Qed.

Lemma plain_lower (c : ascii) : plain (lower_char c) = true -> plain c = true.
Proof. all_chars c; vm_compute; intros; congruence. Qed.

(** A scheme spelled in lower case, when the URL passes the test for a
    scheme. *)
Lemma scheme_lower_case (sch0 b : str) :
  lower sch0 = "http" \/ lower sch0 = "https" ->
  startswith "http://" (sch0 ++ "://" ++ b)
  || startswith "https://" (sch0 ++ "://" ++ b) = true ->
  sch0 = "http" \/ sch0 = "https".
Proof.
  intros Hs P. apply orb_true_iff in P.
  assert (Q : (exists t, sch0 ++ "://" ++ b = "http://" ++ t)
              \/ (exists t, sch0 ++ "://" ++ b = "https://" ++ t)).
  { destruct P as [P | P]; apply startswith_true in P; auto. }
  clear P.
  destruct Hs as [Hs | Hs];
    destruct sch0 as [|c1 [|c2 [|c3 [|c4 [|c5 [|c6 rest]]]]]];
    cbn [lower map list_ascii_of_string] in Hs; try discriminate Hs;
    injection Hs as H1 H2 H3 H4;
    destruct Q as [(t & E) | (t & E)];
    cbn [app list_ascii_of_string] in E; injection E; intros; subst;
    try discriminate; auto.
  all: try (exfalso; match goal with
            | H : lower_char ":" = _ |- _ => vm_compute in H; discriminate H
            end).
Qed.

Lemma remove_unsafe_app (a b : str) :
  UrlLib.remove_unsafe (a ++ b) = UrlLib.remove_unsafe a ++ UrlLib.remove_unsafe b.
Proof. apply filter_app. Qed.

Lemma tail_head_delim (tl nl : str) :
  (tl = [] \/ exists c t, tl = c :: t /\ (c = "/"%char \/ c = "?"%char)) ->
  (nl = [] \/ nl = [ascii_of_nat 10]) ->
  head_delim (UrlLib.remove_unsafe (tl ++ nl)).
Proof.
  unfold head_delim. intros [-> | (c & t & -> & Hc)] Hn.
  - left. destruct Hn as [-> | ->]; reflexivity.
  - right. destruct Hc as [-> | ->]; eexists; eexists; split; reflexivity.
Qed.

(** The authority of a valid URL in normal form. *)
Lemma authority_normal (sch host port : str) :
  host <> [] ->
  Forall (fun c => host_char c = true) host ->
  (port = [] \/
   exists d, port = ":"%char :: d /\ Forall (fun c => is_digit c = true) d) ->
  let nl := strip_default_port sch (lower (host ++ port)) in
  Forall (fun c => plain c = true) (host ++ port)
  /\ nl <> []
  /\ Forall (fun c => plain c = true) nl
  /\ lower nl = nl
  /\ strip_default_port sch nl = nl.
Proof.
  intros Hne Hh Hp nl.
  assert (Hport : Forall (fun c => plain c = true /\ plain (lower_char c) = true) port
                  /\ exists d', lower port = [] /\ port = []
                                \/ lower port = ":"%char :: d' /\ no_colon d').
  { destruct Hp as [-> | (d & -> & Hd)].
    - split; [constructor|]. exists []. left; auto.
    - split.
      + constructor; [split; reflexivity|].
        eapply Forall_impl; [|exact Hd]. intros c Hc.
        apply digit_facts in Hc. tauto.
      + exists (lower d). right. split; [reflexivity|].
        unfold no_colon, lower. apply Forall_map.
        eapply Forall_impl; [|exact Hd]. intros c Hc.
        apply digit_facts in Hc. tauto. }
  destruct Hport as (Pp & d' & Hd').
  assert (Ph : Forall (fun c => plain c = true /\ plain (lower_char c) = true) host).
  { eapply Forall_impl; [|exact Hh]. intros c Hc.
    apply host_char_facts in Hc. tauto. }
  assert (Nh : no_colon (lower host)).
  { unfold no_colon, lower. apply Forall_map.
    eapply Forall_impl; [|exact Hh]. intros c Hc.
    apply host_char_facts in Hc. tauto. }
  assert (Lne : lower host <> []).
  { destruct host; [contradiction | discriminate]. }
  assert (Pall : Forall (fun c => plain c = true /\ plain (lower_char c) = true)
                        (host ++ port)).
  { apply Forall_app; split; assumption. }
  assert (Plow : Forall (fun c => plain c = true) (lower (host ++ port))).
  { unfold lower. apply Forall_map. eapply Forall_impl; [|exact Pall].
    intros c Hc; apply Hc. }
  assert (Fix : Forall (fun c => lower_char c = c) (lower (host ++ port))).
  { unfold lower. apply Forall_map, Forall_forall. intros c _.
    apply lower_char_idem. }
  assert (I := strip_incl sch (lower (host ++ port))). fold nl in I.
  split; [eapply Forall_impl; [|exact Pall]; intros c Hc; apply Hc|].
  assert (Stable : nl <> [] /\ strip_default_port sch nl = nl).
  { unfold nl, lower. rewrite map_app. fold (lower host) (lower port).
    destruct Hd' as [[-> _] | [-> Hd']].
    - rewrite app_nil_r, !(strip_no_colon sch (lower host) Nh). auto.
    - destruct (strip_one_colon sch (lower host) d' Nh Hd') as [S1 S2]. auto. }
  destruct Stable as [S1 S2].
  split; [exact S1|]. split; [eapply Forall_incl; eassumption|].
  split; [apply lower_fixed; eapply Forall_incl; eassumption | exact S2].
Qed.

End ValidUrls.

Section Idempotence.

Variable check_bracketed_netloc : str -> outcome unit.
Local Abbreviation normalize := (normalize_url check_bracketed_netloc).

Lemma normalize_prefixed (u : str) :
  startswith "http://" u || startswith "https://" u = false ->
  normalize u = normalize ("https" ++ "://" ++ u).
Proof. intros P. unfold normalize_url. rewrite P. reflexivity. Qed.

(** C9.  For every string [u] that [is_valid_url] accepts, [normalize_url]
    returns a string, and [normalize_url] maps that string to itself. *)
Theorem normalize_idempotent (u : str) :
  is_valid_url u = true ->
  exists n, normalize u = Return n /\ normalize n = Return n.
Proof.
  intros V.
  apply PatternFacts.valid_url_shape in V
    as (sch0 & host & port & tl & nl & E & Hs & Hne & Hh & Hp & Ht & Hn).
  set (r := UrlLib.remove_unsafe (tl ++ nl)).
  assert (HDr : head_delim r) by (apply tail_head_delim; assumption).
  assert (Sr : Forall (fun c => safe c = true) r) by apply remove_unsafe_safe.
  destruct (startswith "http://" u || startswith "https://" u) eqn:P.
  - (* the scheme is in lower case *)
    rewrite E in P. apply (scheme_lower_case sch0 _ Hs) in P.
    destruct (authority_normal sch0 host port Hne Hh Hp)
      as (Pl & Nne & Npl & Nlow & Nst).
    destruct (plain_list _ Pl) as (ND & NS & B1 & B2).
    assert (Y : UrlLib.remove_unsafe (host ++ port ++ tl ++ nl)
                = (host ++ port) ++ r).
    { rewrite app_assoc, remove_unsafe_app, (filter_safe _ NS). reflexivity. }
    destruct (delim_app (host ++ port) r ND HDr) as [BD FD].
    generalize (normalize_lower_scheme check_bracketed_netloc sch0
                  (host ++ port ++ tl ++ nl) P).
    cbv zeta. rewrite Y, BD, FD. intros N. specialize (N B1 B2).
    rewrite <- E in N. rewrite N. unfold rebuild.
    destruct (tail_parts r) as [[p pr] q] eqn:T.
    eexists. split; [reflexivity|].
    apply (rebuild_fixed check_bracketed_netloc sch0 _ r p pr q); assumption.
  - (* the scheme is not in lower case: "https://" is put in front *)
    rewrite (normalize_prefixed u P).
    assert (Ps : Forall (fun c => plain c = true) (sch0 ++ [":"%char])).
    { apply Forall_app; split; [|repeat constructor].
      assert (L : Forall (fun c => plain c = true) (lower sch0)).
      { destruct Hs as [-> | ->]; repeat constructor. }
      unfold lower in L. apply Forall_map in L.
      eapply Forall_impl; [|exact L]. intros c; apply plain_lower. }
    destruct (plain_list _ Ps) as (ND & NS & B1 & B2).
    set (r2 := "/"%char :: "/"%char
               :: UrlLib.remove_unsafe (host ++ port ++ tl ++ nl)).
    assert (Y : UrlLib.remove_unsafe u = (sch0 ++ [":"%char]) ++ r2).
    { rewrite E. change (sch0 ++ "://" ++ host ++ port ++ tl ++ nl)
        with (sch0 ++ [":"%char] ++ "//" ++ host ++ port ++ tl ++ nl).
      rewrite app_assoc, remove_unsafe_app, (filter_safe _ NS). reflexivity. }
    assert (HD2 : head_delim r2).
    { right. eexists; eexists; split; reflexivity. }
    assert (S2 : Forall (fun c => safe c = true) r2).
    { repeat (constructor; [reflexivity|]). apply remove_unsafe_safe. }
    destruct (delim_app _ r2 ND HD2) as [BD FD].
    generalize (normalize_lower_scheme check_bracketed_netloc "https" u
                  (or_intror eq_refl)).
    cbv zeta. rewrite Y, BD, FD. intros N. rewrite (N B1 B2). unfold rebuild.
    destruct (tail_parts r2) as [[p pr] q] eqn:T.
    eexists. split; [reflexivity|].
    assert (Low : lower (sch0 ++ [":"%char]) = "http:"
                  \/ lower (sch0 ++ [":"%char]) = "https:").
    { unfold lower in *. rewrite map_app.
      destruct Hs as [-> | ->]; [left | right]; reflexivity. }
    destruct Low as [-> | ->].
    + apply (rebuild_fixed check_bracketed_netloc "https" "http:" r2 p pr q);
        try assumption; try reflexivity.
      * right; reflexivity.
      * discriminate.
      * repeat constructor.
    + apply (rebuild_fixed check_bracketed_netloc "https" "https:" r2 p pr q);
        try assumption; try reflexivity.
      * right; reflexivity.
      * discriminate.
      * repeat constructor.
Qed.

End Idempotence.

End NormalizeFacts.

(** ** Click accounting *)

Lemma first_after_update (code : str) (db : Store) (r : URL) (v : Z) :
  Db.first (Db.by_short_code code) db = Some r ->
  Db.first (Db.by_short_code code) (Db.update_click_count (id r) v db)
  = Some (set_click_count v r).
Proof.
  unfold Db.first, Db.update_click_count.
  induction db as [|x db IH]; cbn [List.find map]; intros H; [discriminate|].
  destruct (Db.by_short_code code x) eqn:B.
  - injection H as ->. rewrite Z.eqb_refl.
    change (Db.by_short_code code (set_click_count v r))
      with (Db.by_short_code code r).
    rewrite B. reflexivity.
  - assert (B' : Db.by_short_code code
                   (if (id x =? id r)%Z then set_click_count v x else x) = false).
    { destruct (id x =? id r)%Z; exact B. }
    rewrite B'. apply IH; exact H.
Qed.

Section InFlight.

Variable BASE_URL : str.
Local Abbreviation resolve := (redirect_to_url BASE_URL).

Lemma resolve_once (code : str) (db : Store) (c : Z) :
  clicks_of code db = Some c ->
  clicks_of code (snd (resolve code db)) = Some (c + 1)%Z.
Proof.
  unfold clicks_of, redirect_to_url.
  destruct (Db.first (Db.by_short_code code) db) as [r|] eqn:F;
    cbn [option_map]; intros H; [|discriminate].
  injection H as <-. cbn [snd set_click_count id click_count].
  rewrite (first_after_update code db r _ F). reflexivity.
Qed.

(** C3, as the code has it.  A resolution is the SELECT of the lookup
    followed by the UPDATE that writes the count read plus one: run alone,
    the two steps of a request give the response and the store of
    [redirect_to_url].  [k] resolutions of a stored code made one after the
    other raise its click count by exactly [k]. *)
Theorem sequential_resolutions_count :
  (forall code db,
      run_schedule BASE_URL [0; 0] [Arrived code] db
      = ([Answered (fst (resolve code db))], snd (resolve code db)))
  /\ (forall k code db c,
        clicks_of code db = Some c ->
        clicks_of code (resolve_times BASE_URL k code db)
        = Some (c + Z.of_nat k)%Z).
Proof.
  split.
  - intros code db. unfold redirect_to_url.
    cbn [run_schedule nth_error request_step set_nth].
    destruct (Db.first (Db.by_short_code code) db) as [r|]; reflexivity.
  - induction k as [|k IH]; intros code db c H; cbn [resolve_times].
    + rewrite Z.add_0_r. exact H.
    + rewrite (IH code _ (c + 1)%Z (resolve_once code db c H)).
      f_equal. lia.
Qed.

End InFlight.

(** * Further properties of the code *)

(** ** The code generator *)

Lemma base62_alnum (c : ascii) :
  existsb (chr_eqb c) BASE62_CHARS = is_alnum c.
Proof. all_chars c; vm_compute; reflexivity. Qed.

Lemma choice_alnum (g : Rng) :
  is_alnum (fst (secrets_choice BASE62_CHARS g)) = true.
Proof.
  rewrite <- base62_alnum. apply existsb_exists.
  exists (fst (secrets_choice BASE62_CHARS g)). split; [|apply chr_eqb_refl].
  unfold secrets_choice. cbn [fst]. apply nth_In.
  apply Nat.mod_upper_bound. vm_compute. intros H; discriminate H.
Qed.

Lemma generate_step (n : nat) (g : Rng) :
  generate_short_code (S n) g
  = (fst (secrets_choice BASE62_CHARS g)
       :: fst (generate_short_code n (mkRng (tape g) (S (pos g)))),
     snd (generate_short_code n (mkRng (tape g) (S (pos g))))).
Proof.
  cbn [generate_short_code]. unfold secrets_choice.
  destruct (generate_short_code n (mkRng (tape g) (S (pos g)))); reflexivity.
Qed.

Lemma generate_facts (n : nat) (g : Rng) :
  length (fst (generate_short_code n g)) = n
  /\ Forall (fun c => is_alnum c = true) (fst (generate_short_code n g)).
Proof.
  revert g. induction n as [|n IH]; intros g.
  - split; constructor.
  - rewrite generate_step. cbn [fst length].
    destruct (IH (mkRng (tape g) (S (pos g)))) as (L & A).
    rewrite L. split; [reflexivity|].
    constructor; [apply choice_alnum | exact A].
Qed.

(** X1.  [generate_short_code length] returns a string of exactly [length]
    characters, each a letter or a digit, and leaves the random source
    advanced by [length] draws. *)
Theorem generate_short_code_spec (n : nat) (g : Rng) :
  length (fst (generate_short_code n g)) = n
  /\ Forall (fun c => is_alnum c = true) (fst (generate_short_code n g))
  /\ snd (generate_short_code n g) = mkRng (tape g) (pos g + n).
Proof.
  destruct (generate_facts n g) as [L A]. split; [exact L|]. split; [exact A|].
  clear L A. revert g. induction n as [|n IH]; intros g.
  - cbn [generate_short_code snd]. rewrite Nat.add_0_r. destruct g; reflexivity.
  - rewrite generate_step. cbn [snd]. rewrite IH. cbn [tape pos].
    f_equal. lia.
Qed.

Lemma candidates_facts (n : nat) (g : Rng) :
  Forall (fun c => length c = 6 /\ Forall (fun x => is_alnum x = true) c)
         (candidates n g).
Proof.
  revert g. induction n as [|n IH]; intros g; cbn [candidates]; [constructor|].
  generalize (generate_facts 6 g).
  destruct (generate_short_code 6 g) as [c g1]. cbn [fst]. intros H.
  constructor; [exact H | apply IH].
Qed.

(** ** The loop that looks for a free code *)

Lemma free_code_first (db : Store) (c : str) :
  free_code db c = true <-> Db.first (Db.by_short_code c) db = None.
Proof.
  unfold free_code. rewrite negb_true_iff. split.
  - intros H. destruct (Db.first (Db.by_short_code c) db) eqn:F; [|reflexivity].
    assert (E : existsb (Db.by_short_code c) db = true).
    { apply exists_code_iff, first_code_some_iff. eauto. }
    congruence.
  - intros F. destruct (existsb (Db.by_short_code c) db) eqn:E; [|reflexivity].
    apply exists_code_iff, first_code_some_iff in E as (r & Hr). congruence.
Qed.

Lemma loop_find (n : nat) (db : Store) (g : Rng) :
  fst (unique_code_loop n db g) = List.find (free_code db) (candidates n g).
Proof.
  revert g. induction n as [|n IH]; intros g;
    cbn [unique_code_loop candidates List.find]; [reflexivity|].
  destruct (generate_short_code 6 g) as [c g1]. cbn [List.find].
  destruct (Db.first (Db.by_short_code c) db) eqn:F.
  - assert (E : free_code db c = false).
    { destruct (free_code db c) eqn:E; [|reflexivity].
      apply free_code_first in E. congruence. }
    rewrite E. apply IH.
  - apply free_code_first in F. rewrite F. reflexivity.
Qed.

Lemma loop_candidate (n : nat) (db : Store) (g g' : Rng) (c : str) :
  unique_code_loop n db g = (Some c, g') -> In c (candidates n g).
Proof.
  intros L. assert (F := loop_find n db g). rewrite L in F. cbn [fst] in F.
  symmetry in F. apply find_some in F. tauto.
Qed.

Section ShorteningMore.

Variable check_bracketed_netloc : str -> outcome unit.
Variable BASE_URL : str.
Local Abbreviation normalize := (normalize_url check_bracketed_netloc).
Local Abbreviation shorten := (shorten_url check_bracketed_netloc BASE_URL).
Local Abbreviation resolve := (redirect_to_url BASE_URL).

(** X2.  For a valid URL that is not stored yet, [shorten_url] takes the
    first of its ten candidate codes that no row carries: it answers with
    that code and the short URL made of the base URL, "/" and the code, and
    it appends one row with the next key, the normalized URL, the code, the
    time of the request and no clicks. *)
Theorem shorten_creates_row (raw : str) (now : Z) (g : Rng) (db : Store)
  (n c : str) :
  normalize (strip raw) = Return n ->
  is_valid_url n = true ->
  ~ In n (map long_url db) ->
  List.find (free_code db) (candidates max_attempts g) = Some c ->
  exists g',
    shorten raw now g db
    = (Return (TemplateResponse "index.html"
                 [ ("short_url" : str, VStr (BASE_URL ++ "/" ++ c));
                   ("short_code" : str, VStr c);
                   ("base_url" : str, VStr BASE_URL) ] 200),
       g', db ++ [mkURL (Db.next_id db) n c now 0]).
Proof.
  intros N V Hn Hc. unfold shorten_url. rewrite N, V. simpl negb. cbv iota.
  assert (F : Db.first (Db.by_long_url n) db = None).
  { apply first_none. intros r Hr.
    destruct (Db.by_long_url n r) eqn:E; [|reflexivity].
    apply by_long_url_true in E. exfalso. apply Hn. rewrite <- E.
    apply in_map; exact Hr. }
  rewrite F. rewrite <- loop_find in Hc.
  destruct (unique_code_loop max_attempts db g) as [[code|] g1] eqn:L;
    cbn [fst] in Hc; [|discriminate]. injection Hc as ->.
  rewrite (add_commit_fresh now n c db (loop_fresh _ _ _ _ _ L)).
  exists g1. reflexivity.
Qed.

(** X3.  A call of [shorten_url] leaves the rows of the table in place and
    appends at most one row; a row is appended only together with a response
    that carries its code, and it holds the normalized URL, the time of the
    request and no clicks. *)
Theorem shorten_appends_at_most_one_row (raw : str) (now : Z) (g g' : Rng)
  (db db' : Store) (r : outcome Response) :
  shorten raw now g db = (r, g', db') ->
  db' = db
  \/ exists row,
       db' = db ++ [row]
       /\ shorten_view r = Some (Shortened (short_code row))
       /\ normalize (strip raw) = Return (long_url row)
       /\ id row = Db.next_id db
       /\ created_at row = now /\ click_count row = 0%Z
       /\ ~ In (short_code row) (map short_code db)
       /\ ~ In (long_url row) (map long_url db).
Proof.
  unfold shorten_url. intros H.
  destruct (normalize (strip raw)) as [n|e] eqn:N;
    [|injection H as _ _ <-; left; reflexivity].
  destruct (is_valid_url n); simpl negb in H; cbv iota in H;
    [|injection H as _ _ <-; left; reflexivity].
  destruct (Db.first (Db.by_long_url n) db) as [e|] eqn:F;
    [injection H as _ _ <-; left; reflexivity|].
  destruct (unique_code_loop max_attempts db g) as [[code|] g1] eqn:L;
    [|injection H as _ _ <-; left; reflexivity].
  assert (Fresh := loop_fresh _ _ _ _ _ L).
  rewrite (add_commit_fresh now n code db Fresh) in H.
  injection H as <- _ <-. right.
  exists (mkURL (Db.next_id db) n code now 0).
  cbn [short_code long_url id created_at click_count].
  repeat split; try reflexivity; try exact Fresh.
  intros Hin. apply in_map_iff in Hin as (x & Hx & Hinx).
  rewrite first_none in F. specialize (F x Hinx).
  apply by_long_url_true in Hx. congruence.
Qed.

(** X4.  In a store without duplicate codes, the code [shorten_url] returns
    resolves, in the store it leaves, to the normalized form of the URL
    that was submitted. *)
Theorem shorten_then_resolve (raw : str) (now : Z) (g g' : Rng)
  (db db' : Store) (r : outcome Response) (c : str) :
  short_code_unique db ->
  shorten raw now g db = (r, g', db') ->
  shorten_view r = Some (Shortened c) ->
  exists n,
    normalize (strip raw) = Return n
    /\ fst (resolve c db') = RedirectResponse n 302.
Proof.
  intros U E V.
  destruct (shorten_success_inv _ _ _ _ _ _ _ _ _ _ E V)
    as (n & N & _ & [(e & F & <- & _ & ->) | (F & Fresh & ->)]);
    exists n; (split; [exact N|]).
  - apply first_some in F as [Hin Hn]. apply by_long_url_true in Hn.
    unfold redirect_to_url. rewrite (first_by_code_unique db e U Hin).
    cbn [fst long_url set_click_count]. rewrite Hn. reflexivity.
  - set (row := mkURL (Db.next_id db) n c now 0).
    assert (U' : short_code_unique (db ++ [row])).
    { apply unique_snoc; [exact U | exact Fresh]. }
    assert (Hin : In row (db ++ [row])).
    { apply in_or_app; right; left; reflexivity. }
    unfold redirect_to_url.
    rewrite (first_by_code_unique (db ++ [row]) row U' Hin
             : Db.first (Db.by_short_code c) (db ++ [row]) = Some row).
    reflexivity.
Qed.

End ShorteningMore.

(** ** Rows of a store that requests have produced *)

Lemma next_id_positive (db : Store) : (1 <= Db.next_id db)%Z.
Proof.
  unfold Db.next_id.
  assert (0 <= fold_right Z.max 0 (map id db))%Z.
  { induction db as [|x db IH]; cbn [fold_right map]; lia. }
  lia.
Qed.

Lemma sorted_snoc (l : list Z) (a : Z) :
  StronglySorted Z.lt l -> Forall (fun x => (x < a)%Z) l ->
  StronglySorted Z.lt (l ++ [a]).
Proof.
  induction 1 as [|x l S IH Hx]; intros B; cbn [app].
  - constructor; constructor.
  - inversion B as [|? ? Bx Bl]; subst.
    constructor; [apply IH; exact Bl|].
    apply Forall_app; split; [exact Hx | constructor; [exact Bx | constructor]].
Qed.

Lemma row_ok_clicks (v : Z) (r : URL) :
  row_ok r -> (0 <= v)%Z -> row_ok (set_click_count v r).
Proof. unfold row_ok. cbn [set_click_count long_url short_code click_count id]. tauto. Qed.

Lemma same_mapping_refl (l : list URL) : Forall2 same_mapping l l.
Proof.
  induction l as [|x l IH]; constructor; [|exact IH].
  unfold same_mapping. repeat split; lia.
Qed.

Section ServedRows.

Variable check_bracketed_netloc : str -> outcome unit.
Variable BASE_URL : str.
Local Abbreviation shorten := (shorten_url check_bracketed_netloc BASE_URL).
Local Abbreviation resolve := (redirect_to_url BASE_URL).

Lemma shorten_row (raw : str) (now : Z) (g : Rng) (db : Store) :
  snd (shorten raw now g db) = db
  \/ exists n c,
       snd (shorten raw now g db) = db ++ [mkURL (Db.next_id db) n c now 0]
       /\ is_valid_url n = true
       /\ In c (candidates max_attempts g).
Proof.
  unfold shorten_url.
  destruct (normalize_url check_bracketed_netloc (strip raw)) as [n|e];
    [|left; reflexivity].
  destruct (is_valid_url n) eqn:V; simpl negb; cbv iota; [|left; reflexivity].
  destruct (Db.first (Db.by_long_url n) db) as [e|] eqn:F; [left; reflexivity|].
  destruct (unique_code_loop max_attempts db g) as [[code|] g1] eqn:L;
    [|left; reflexivity].
  rewrite (add_commit_fresh now n code db (loop_fresh _ _ _ _ _ L)).
  right. exists n, code. split; [reflexivity|]. split; [exact V|].
  eapply loop_candidate; exact L.
Qed.

(** X5.  In every store produced by serving requests one at a time from
    the empty table, each row holds a long URL the validator accepts, a code
    of six letters and digits, a click count that is not negative and a
    positive key, and the keys increase along the table. *)
Theorem served_rows_ok (db : Store) :
  served check_bracketed_netloc BASE_URL db ->
  Forall row_ok db /\ StronglySorted Z.lt (map id db).
Proof.
  induction 1 as [|db raw now g Sv [R S] | db code Sv [R S] | db Sv [R S]].
  - split; constructor.
  - destruct (shorten_row raw now g db) as [-> | (n & c & -> & V & C)]; [auto|].
    split.
    + apply Forall_app; split; [exact R|]. constructor; [|constructor].
      assert (F := candidates_facts max_attempts g).
      rewrite Forall_forall in F. destruct (F c C) as [L A].
      unfold row_ok. cbn [long_url short_code click_count id].
      repeat split; try assumption; [lia | apply next_id_positive].
    + rewrite map_app. cbn [map id]. apply sorted_snoc; [exact S|].
      apply Forall_forall. intros x Hx. apply in_map_iff in Hx as (y & <- & Hy).
      apply next_id_above; exact Hy.
  - unfold redirect_to_url.
    destruct (Db.first (Db.by_short_code code) db) as [r|] eqn:F;
      cbn [snd]; [|auto].
    rewrite update_keeps_ids. split; [|exact S].
    apply first_some in F as [Hin _].
    assert (Hr : row_ok r) by (rewrite Forall_forall in R; apply R; exact Hin).
    unfold Db.update_click_count. apply Forall_map.
    eapply Forall_impl; [|exact R]. intros x Hx.
    destruct (id x =? _)%Z; [|exact Hx].
    apply row_ok_clicks; [exact Hx|].
    cbn [click_count set_click_count]. destruct Hr as (_ & _ & _ & Hc & _). lia.
  - auto.
Qed.

(** X6.  On a store with unique keys, [redirect_to_url] returns a store
    with the same rows in the same order: for any code, known or not, no
    row is added or removed, no key, long URL, code or creation time
    changes, and no click count goes down. *)
Theorem redirect_keeps_rows (code : str) (db : Store) :
  pk_unique db -> Forall2 same_mapping db (snd (resolve code db)).
Proof.
  intros PK. unfold redirect_to_url.
  destruct (Db.first (Db.by_short_code code) db) as [r|] eqn:F; cbn [snd].
  - apply first_some in F as [Hin _].
    cbn [id click_count set_click_count].
    destruct (update_split (click_count r + 1)%Z db r PK Hin)
      as (pre & post & E1 & E2).
    rewrite E2. rewrite E1 at 1.
    apply Forall2_app; [apply same_mapping_refl|].
    constructor; [|apply same_mapping_refl].
    unfold same_mapping. cbn [id long_url short_code created_at click_count
                               set_click_count].
    repeat split; lia.
  - apply same_mapping_refl.
Qed.

End ServedRows.

(** ** Surrounding whitespace *)

Lemma lstrip_skip (f : ascii -> bool) (a t : str) :
  Forall (fun c => f c = true) a -> lstrip f (a ++ t) = lstrip f t.
Proof.
  induction 1 as [|x a Hx Ha IH]; cbn [app lstrip]; [reflexivity|].
  rewrite Hx. exact IH.
Qed.

Lemma lstrip_all (f : ascii -> bool) (b : str) :
  Forall (fun c => f c = true) b -> lstrip f b = [].
Proof.
  intros H. rewrite <- (app_nil_r b). rewrite lstrip_skip by exact H. reflexivity.
Qed.

Lemma lstrip_app (f : ascii -> bool) (s b : str) :
  lstrip f (s ++ b)
  = match lstrip f s with [] => lstrip f b | _ :: _ => lstrip f s ++ b end.
Proof.
  induction s as [|x s IH]; cbn [app lstrip].
  - destruct (lstrip f b); reflexivity.
  - destruct (f x); [exact IH | reflexivity].
Qed.

Lemma rstrip_skip (f : ascii -> bool) (t b : str) :
  Forall (fun c => f c = true) b -> rstrip f (t ++ b) = rstrip f t.
Proof.
  intros H. unfold rstrip. rewrite rev_app_distr.
  rewrite lstrip_skip by (apply Forall_rev; exact H). reflexivity.
Qed.

Lemma strip_padded (a s b : str) :
  Forall (fun c => isspace c = true) a ->
  Forall (fun c => isspace c = true) b ->
  strip (a ++ s ++ b) = strip s.
Proof.
  intros Ha Hb. unfold strip. rewrite (lstrip_skip isspace a _ Ha), lstrip_app.
  destruct (lstrip isspace s) as [|x t] eqn:E.
  - rewrite (lstrip_all isspace b Hb). reflexivity.
  - apply rstrip_skip; exact Hb.
Qed.

Section Padding.

Variable check_bracketed_netloc : str -> outcome unit.
Variable BASE_URL : str.
Local Abbreviation shorten := (shorten_url check_bracketed_netloc BASE_URL).

Lemma shorten_same_strip (raw1 raw2 : str) (now : Z) (g : Rng) (db : Store) :
  strip raw1 = strip raw2 ->
  shorten_view (fst (fst (shorten raw1 now g db)))
  = shorten_view (fst (fst (shorten raw2 now g db)))
  /\ snd (fst (shorten raw1 now g db)) = snd (fst (shorten raw2 now g db))
  /\ snd (shorten raw1 now g db) = snd (shorten raw2 now g db).
Proof.
  intros E. unfold shorten_url. rewrite E.
  destruct (normalize_url check_bracketed_netloc (strip raw2)) as [n|e];
    [|auto].
  destruct (is_valid_url n); simpl negb; cbv iota; [|repeat split].
  destruct (Db.first (Db.by_long_url n) db); [auto|].
  destruct (unique_code_loop max_attempts db g) as [[code|] g1]; [|auto].
  destruct (Db.add_commit now n code db) as [[row db']|e]; auto.
Qed.

(** X7.  Whitespace around the submitted URL does not matter to
    [shorten_url]: with the input padded on both sides, the outcome, the
    draws made and the store are the same. *)
Theorem shorten_ignores_padding (a raw b : str) (now : Z) (g : Rng)
  (db : Store) :
  Forall (fun c => isspace c = true) a ->
  Forall (fun c => isspace c = true) b ->
  shorten_view (fst (fst (shorten (a ++ raw ++ b) now g db)))
  = shorten_view (fst (fst (shorten raw now g db)))
  /\ snd (fst (shorten (a ++ raw ++ b) now g db))
     = snd (fst (shorten raw now g db))
  /\ snd (shorten (a ++ raw ++ b) now g db) = snd (shorten raw now g db).
Proof.
  intros Ha Hb. apply shorten_same_strip, strip_padded; assumption.
Qed.

End Padding.

(** ** What the analytics page shows *)

Section AnalyticsMore.

Variable BASE_URL : str.

(** X8.  When the table has at most 50 rows, [analytics] shows every row;
    and whatever the size of the table, the first row shown has at least as
    many clicks as any row of the table. *)
Theorem analytics_shows_the_top (db : Store) :
  (length db <= 50 ->
   Permutation (shown_urls (fst (analytics BASE_URL db))) db)
  /\ (forall top rest x,
        shown_urls (fst (analytics BASE_URL db)) = top :: rest ->
        In x db -> more_clicks top x)
  /\ (db <> [] -> shown_urls (fst (analytics BASE_URL db)) <> []).
Proof.
  rewrite shown_analytics.
  assert (P := order_by_perm db). assert (S := order_by_sorted db).
  set (s := Db.order_by_click_count_desc db) in *.
  split; [|split].
  - intros L. rewrite firstn_all2; [exact P|].
    rewrite (Permutation_length P). exact L.
  - intros top rest x E Hx.
    destruct s as [|y s']; cbn [firstn] in E; [discriminate|].
    injection E as -> _.
    apply (Permutation_in _ (Permutation_sym P)) in Hx.
    inversion S as [|? ? _ Hy]; subst.
    destruct Hx as [<- | Hx].
    + unfold more_clicks. lia.
    + rewrite Forall_forall in Hy. apply Hy; exact Hx.
  - intros Hne E. destruct s as [|y s']; cbn [firstn] in E; [|discriminate].
    apply Permutation_nil in P. contradiction.
Qed.

End AnalyticsMore.

(** ** The normalizer on any input *)

Module NormalizeMore.
Import Parts StrFacts NormalizeFacts.

Lemma startswith_app (p t : str) : startswith p (p ++ t) = true.
Proof.
  induction p as [|x p IH]; cbn [app startswith]; [reflexivity|].
  rewrite chr_eqb_refl. exact IH.
Qed.

Lemma endswith_app (a p : str) : endswith p (a ++ p) = true.
Proof. unfold endswith. rewrite rev_app_distr. apply startswith_app. Qed.

(** a prefix test does not see what follows a character the prefix lacks *)
Lemma startswith_cut (p u f : str) (c : ascii) :
  contains c p = false ->
  startswith p (u ++ c :: f) = startswith p u.
Proof.
  unfold contains. revert u. induction p as [|x p IH]; intros u H;
    cbn [startswith]; [reflexivity|].
  cbn [existsb] in H. apply orb_false_iff in H as [Hx Hp].
  destruct u as [|y u]; cbn [app].
  - destruct (chr_eqb x c) eqn:E; [|reflexivity].
    apply chr_eqb_eq in E. subst x. rewrite chr_eqb_refl in Hx. discriminate.
  - rewrite (IH u Hp). reflexivity.
Qed.

Lemma before_delim_cut (a t : str) (d : ascii) :
  is_delim d = true ->
  before_delim (a ++ d :: t) = before_delim a
  /\ from_delim (a ++ d :: t) = from_delim a ++ d :: t.
Proof.
  intros Hd. induction a as [|x a [IH1 IH2]]; cbn [app before_delim from_delim].
  - rewrite Hd. auto.
  - destruct (is_delim x); [auto|]. rewrite IH1, IH2. auto.
Qed.

Lemma with_scheme_form (u : str) :
  exists sch x : str,
    (sch = "http" \/ sch = "https")
    /\ with_scheme u = sch ++ "://" ++ x
    /\ incl x u.
Proof.
  unfold with_scheme.
  destruct (startswith "http://" u) eqn:P1; cbn [orb].
  - apply startswith_true in P1 as (t & ->).
    exists ("http" : str), t. split; [auto|]. split; [reflexivity|].
    intros c Hc. apply in_or_app; right; exact Hc.
  - destruct (startswith "https://" u) eqn:P2.
    + apply startswith_true in P2 as (t & ->).
      exists ("https" : str), t. split; [auto|]. split; [reflexivity|].
      intros c Hc. apply in_or_app; right; exact Hc.
    + exists ("https" : str), u. split; [auto|]. split; [reflexivity|].
      apply incl_refl.
Qed.

Lemma split_params_incl (path0 p pr : str) :
  split_params path0 = (p, pr) -> incl p path0 /\ incl pr path0.
Proof.
  unfold split_params, UrlLib._splitparams, drop_last.
  destruct (contains ";" path0); [|intros H; injection H as <- <-;
                                   split; [apply incl_refl | intros c []]].
  destruct (contains "/" path0).
  - destruct (find_from ";" _ path0) as [i|]; intros H; injection H as <- <-.
    + split; [apply incl_firstn | exact (incl_skipn (S i) path0)].
    + split; [apply incl_refl | intros c []].
  - destruct (find ";" path0) as [i|]; intros H; injection H as <- <-.
    + split; [apply incl_firstn | exact (incl_skipn (S i) path0)].
    + split; [apply incl_firstn | apply incl_refl].
Qed.

Lemma tail_parts_incl (r p pr q : str) :
  tail_parts r = (p, pr, q) ->
  incl p (before "#" r) /\ incl pr (before "#" r) /\ incl q (before "#" r).
Proof.
  unfold tail_parts.
  destruct (split_params (before "?" (before "#" r))) as [p0 pr0] eqn:SP.
  intros H. injection H as <- <- <-.
  apply split_params_incl in SP as [I1 I2].
  assert (I : incl (before "?" (before "#" r)) (before "#" r))
    by apply incl_before.
  split; [eapply incl_tran; eassumption|].
  split; [eapply incl_tran; eassumption | apply incl_after].
Qed.

Lemma two_slashes (url : str) :
  str_eqb (firstn 2 url) "//" = true ->
  exists w, url = "/"%char :: "/"%char :: w.
Proof.
  intros H. apply str_eqb_eq in H.
  destruct url as [|a [|b w]]; cbn [firstn] in H; try discriminate.
  injection H as -> ->. exists w. reflexivity.
Qed.

(** What [urlunparse] writes for "http" or "https": the scheme, "://" and
    characters of the parts, "/", ";" or "?". *)
Lemma unparse_any (sch nl p pr q : str) :
  sch = "http" \/ sch = "https" ->
  exists body,
    UrlLib.urlunparse sch nl p pr q [] = sch ++ "://" ++ body
    /\ incl body ("/"%char :: ";"%char :: "?"%char :: nl ++ p ++ pr ++ q).
Proof.
  intros Hs. unfold UrlLib.urlunparse.
  set (url := if UrlLib.nonempty pr then p ++ ";" ++ pr else p).
  assert (Iu : incl url (";"%char :: p ++ pr)).
  { unfold url. destruct (UrlLib.nonempty pr).
    - intros c Hc. apply in_app_or in Hc as [Hc | [<- | Hc]].
      + right. apply in_or_app; left; exact Hc.
      + left; reflexivity.
      + right. apply in_or_app; right; exact Hc.
    - intros c Hc. right. apply in_or_app; left; exact Hc. }
  clearbody url.
  assert (Big : forall l : str,
             incl l ("/"%char :: "?"%char :: nl ++ url ++ q) ->
             incl l ("/"%char :: ";"%char :: "?"%char :: nl ++ p ++ pr ++ q)).
  { intros l Hl c Hc. apply Hl in Hc.
    destruct Hc as [<- | [<- | Hc]]; [left; reflexivity
                                     | right; right; left; reflexivity|].
    apply in_app_or in Hc as [Hc | Hc];
      [right; right; right; apply in_or_app; left; exact Hc|].
    apply in_app_or in Hc as [Hc | Hc].
    - apply Iu in Hc. destruct Hc as [<- | Hc]; [right; left; reflexivity|].
      right; right; right. apply in_or_app; right.
      apply in_app_or in Hc as [Hc | Hc]; apply in_or_app;
        [left; exact Hc | right; apply in_or_app; left; exact Hc].
    - right; right; right. apply in_or_app; right. apply in_or_app; right.
      apply in_or_app; right; exact Hc. }
  assert (Qt : exists qt : str,
             (forall s : str,
                 (if UrlLib.nonempty q then s ++ "?" ++ q else s) = s ++ qt)
             /\ incl qt ("?"%char :: q)).
  { destruct q as [|y q']; cbn [UrlLib.nonempty].
    - exists []. split; [intros s; rewrite app_nil_r; reflexivity | intros c []].
    - exists ("?"%char :: y :: q'). split; [reflexivity | apply incl_refl]. }
  destruct Qt as (qt & Hqt & Iq).
  set (fix_url := if UrlLib.nonempty url && negb (str_eqb (firstn 1 url) "/")
                  then "/" ++ url else url).
  assert (If : incl fix_url ("/"%char :: url)).
  { unfold fix_url. destruct (_ && _); [apply incl_refl|].
    intros c Hc; right; exact Hc. }
  assert (Body1 : incl (nl ++ fix_url ++ qt)
                       ("/"%char :: "?"%char :: nl ++ url ++ q)).
  { intros c Hc. apply in_app_or in Hc as [Hc | Hc];
      [right; right; apply in_or_app; left; exact Hc|].
    apply in_app_or in Hc as [Hc | Hc].
    - apply If in Hc. destruct Hc as [<- | Hc]; [left; reflexivity|].
      right; right. apply in_or_app; right. apply in_or_app; left; exact Hc.
    - apply Iq in Hc. destruct Hc as [<- | Hc]; [right; left; reflexivity|].
      right; right. apply in_or_app; right. apply in_or_app; right; exact Hc. }
  unfold UrlLib.urlunsplit. cbv zeta. fold fix_url. clearbody fix_url.
  destruct (UrlLib.nonempty nl) eqn:Nn; cbn [orb].
  - exists (nl ++ fix_url ++ qt). split; [|apply Big, Body1].
    destruct Hs as [-> | ->]; cbn [UrlLib.nonempty list_ascii_of_string];
      rewrite Hqt; repeat (rewrite <- app_assoc; cbn [app]); reflexivity.
  - assert (Mem : UrlLib.nonempty sch && UrlLib.mem sch UrlLib.uses_netloc = true)
      by (destruct Hs as [-> | ->]; reflexivity).
    rewrite Mem. cbn [andb].
    destruct (str_eqb (firstn 2 url) "//") eqn:E2; cbn [negb].
    + destruct (two_slashes url E2) as (w & Ew).
      exists (w ++ qt). split.
      * rewrite Ew.
        destruct Hs as [-> | ->]; cbn [UrlLib.nonempty list_ascii_of_string];
          rewrite Hqt; repeat (rewrite <- app_assoc; cbn [app]); reflexivity.
      * apply Big. intros c Hc. apply in_app_or in Hc as [Hc | Hc].
        -- right; right. apply in_or_app; right. apply in_or_app; left.
           rewrite Ew. right; right; exact Hc.
        -- apply Iq in Hc. destruct Hc as [<- | Hc]; [right; left; reflexivity|].
           right; right. apply in_or_app; right. apply in_or_app; right; exact Hc.
    + exists (nl ++ fix_url ++ qt). split; [|apply Big, Body1].
      destruct Hs as [-> | ->]; cbn [UrlLib.nonempty list_ascii_of_string];
        rewrite Hqt; repeat (rewrite <- app_assoc; cbn [app]); reflexivity.
Qed.

Lemma collapse_root_incl (p : str) : incl (collapse_root p) p.
Proof.
  unfold collapse_root. destruct (str_eqb p "/"); [intros c [] | apply incl_refl].
Qed.

(** The characters of a rebuilt URL. *)
Lemma rebuild_form (sch nl r : str) :
  sch = "http" \/ sch = "https" ->
  exists body,
    rebuild sch nl r = sch ++ "://" ++ body
    /\ incl body ("/"%char :: ";"%char :: "?"%char
                  :: lower nl ++ before "#" r).
Proof.
  intros Hs. unfold rebuild.
  destruct (tail_parts r) as [[p pr] q] eqn:T.
  apply tail_parts_incl in T as (Ip & Ipr & Iq).
  destruct (unparse_any sch (strip_default_port sch (lower nl))
                        (collapse_root p) pr q Hs) as (body & E & I).
  exists body. split; [exact E|].
  intros c Hc. apply I in Hc.
  destruct Hc as [<- | [<- | [<- | Hc]]];
    [left; reflexivity | right; left; reflexivity
     | right; right; left; reflexivity|].
  right; right; right.
  apply in_app_or in Hc as [Hc | Hc];
    [apply in_or_app; left; apply (strip_incl sch); exact Hc|].
  apply in_or_app; right.
  apply in_app_or in Hc as [Hc | Hc];
    [apply Ip, collapse_root_incl; exact Hc|].
  apply in_app_or in Hc as [Hc | Hc]; [apply Ipr | apply Iq]; exact Hc.
Qed.

Lemma lower_keeps_others (c : ascii) :
  (chr_eqb "#" (lower_char c) = true -> chr_eqb "#" c = true)
  /\ (safe c = true -> safe (lower_char c) = true)
  /\ (plain c = true -> plain (lower_char c) = true).
Proof. all_chars c; vm_compute; repeat split; intros; congruence. Qed.

Lemma head_delim_filter (rest : str) :
  head_delim rest -> head_delim (UrlLib.remove_unsafe rest)
  /\ (rest = [] -> UrlLib.remove_unsafe rest = []).
Proof.
  unfold head_delim. intros [-> | (c & t & -> & Hc)].
  - split; [left; reflexivity | reflexivity].
  - split; [|discriminate]. right.
    exists c, (UrlLib.remove_unsafe t). split; [|exact Hc].
    destruct (is_delim_cases c Hc) as [-> | [-> | ->]]; reflexivity.
Qed.

Lemma no_colon_lower (host : str) :
  contains ":" host = false -> no_colon (lower host).
Proof.
  intros H. apply contains_false in H. unfold no_colon, lower.
  apply Forall_map. eapply Forall_impl; [|exact H]. intros c Hc.
  destruct (chr_eqb ":" (lower_char c)) eqn:E; [|reflexivity].
  apply chr_eqb_eq in E. symmetry in E. apply PatternFacts.ci_colon in E.
  subst c. rewrite chr_eqb_refl in Hc. discriminate.
Qed.

Section AnyInput.

Variable check_bracketed_netloc : str -> outcome unit.
Local Abbreviation normalize := (normalize_url check_bracketed_netloc).
Local Abbreviation parse := (UrlLib.urlparse check_bracketed_netloc).

Ltac scheme_step pfx sch i x y :=
  change (sch ++ "://" ++ x) with (pfx ++ x);
  unfold UrlLib.urlparse, UrlLib.urlsplit;
  change (lstrip UrlLib.c0_control_or_space (pfx ++ x)) with (pfx ++ x);
  change (UrlLib.remove_unsafe (pfx ++ x)) with (pfx ++ y);
  change (find ":" (pfx ++ y)) with (Some i);
  cbv zeta; cbv iota; cbv beta;
  change (is_ascii_alpha (hd " "%char (pfx ++ y))
          && forallb UrlLib.scheme_char (firstn i (pfx ++ y))) with true;
  cbv iota;
  change (lower (firstn i (pfx ++ y))) with sch;
  change (skipn (S i) (pfx ++ y)) with ("/"%char :: "/"%char :: y);
  change (str_eqb (firstn 2 ("/"%char :: "/"%char :: y)) "//") with true;
  cbv iota; rewrite splitnetloc_spec.

Lemma urlparse_any (sch x : str) :
  let y := UrlLib.remove_unsafe x in
  sch = "http" \/ sch = "https" ->
  parse (sch ++ "://" ++ x)
  = match bracket_error check_bracketed_netloc (before_delim y) with
    | Some e => Raise e
    | None => Return (let '(p, pr, q) := tail_parts (from_delim y) in
                      UrlLib.mkParse sch (before_delim y) p pr q
                                     (after "#" (from_delim y)))
    end.
Proof.
  intros y Hs.
  assert (Tail :
    forall s : str,
      (' (netloc, url0) <- Return (before_delim y, from_delim y) ;;
       (let '(url1, fragment) :=
          match split_once "#" url0 with Some p => p | None => (url0, []) end in
        let '(url2, query) :=
          match split_once "?" url1 with Some p => p | None => (url1, []) end in
        Return (UrlLib.mkSplit s netloc url2 query fragment)))
      = Return (UrlLib.mkSplit s (before_delim y)
                  (before "?" (before "#" (from_delim y)))
                  (after "?" (before "#" (from_delim y)))
                  (after "#" (from_delim y)))).
  { intros s. unfold bind.
    rewrite (split_once_spec "#" (from_delim y)).
    rewrite (split_once_spec "?" (before "#" (from_delim y))). reflexivity. }
  unfold bracket_error.
  destruct Hs as [-> | ->].
  - scheme_step ("http://" : str) ("http" : str) 4 x y.
    destruct (contains "[" (before_delim y)), (contains "]" (before_delim y)),
      (check_bracketed_netloc (before_delim y)) as [[]|e];
      cbn [andb orb negb]; cbv iota; try reflexivity;
      rewrite (Tail "http");
      unfold bind, tail_parts, split_params;
      cbn [UrlLib.s_scheme UrlLib.s_path UrlLib.s_netloc
           UrlLib.s_query UrlLib.s_fragment];
      change (UrlLib.mem "http" UrlLib.uses_params) with true; cbn [andb];
      (destruct (contains ";" (before "?" (before "#" (from_delim y))));
       [destruct (UrlLib._splitparams _)|]; reflexivity).
  - scheme_step ("https://" : str) ("https" : str) 5 x y.
    destruct (contains "[" (before_delim y)), (contains "]" (before_delim y)),
      (check_bracketed_netloc (before_delim y)) as [[]|e];
      cbn [andb orb negb]; cbv iota; try reflexivity;
      rewrite (Tail "https");
      unfold bind, tail_parts, split_params;
      cbn [UrlLib.s_scheme UrlLib.s_path UrlLib.s_netloc
           UrlLib.s_query UrlLib.s_fragment];
      change (UrlLib.mem "https" UrlLib.uses_params) with true; cbn [andb];
      (destruct (contains ";" (before "?" (before "#" (from_delim y))));
       [destruct (UrlLib._splitparams _)|]; reflexivity).
Qed.

(** [normalize_url] on a URL with a lower-case scheme, in closed form. *)
Lemma normalize_any (sch x : str) :
  sch = "http" \/ sch = "https" ->
  normalize (sch ++ "://" ++ x)
  = match bracket_error check_bracketed_netloc
            (before_delim (UrlLib.remove_unsafe x)) with
    | Some e => Raise e
    | None => Return (rebuild sch (before_delim (UrlLib.remove_unsafe x))
                              (from_delim (UrlLib.remove_unsafe x)))
    end.
Proof.
  intros Hs. unfold normalize_url.
  assert (P : startswith "http://" (sch ++ "://" ++ x)
              || startswith "https://" (sch ++ "://" ++ x) = true).
  { destruct Hs as [-> | ->]; reflexivity. }
  rewrite P. rewrite (urlparse_any sch x Hs).
  destruct (bracket_error _ _); [reflexivity|].
  unfold bind, rebuild, strip_default_port, collapse_root.
  destruct (tail_parts (from_delim (UrlLib.remove_unsafe x))) as [[p pr] q].
  cbn [UrlLib.scheme UrlLib.netloc UrlLib.path UrlLib.params UrlLib.query].
  assert (L : lower sch = sch) by (destruct Hs as [-> | ->]; reflexivity).
  rewrite L. reflexivity.
Qed.

Lemma normalize_with_scheme (u : str) :
  normalize u = normalize (with_scheme u).
Proof.
  unfold with_scheme.
  destruct (startswith "http://" u || startswith "https://" u) eqn:P;
    [reflexivity|].
  unfold normalize_url. rewrite P. reflexivity.
Qed.

(** X9.  Whatever the input, a string [normalize_url] returns begins with
    "http://" or "https://" and contains no "#", tab, carriage return or
    line feed. *)
Theorem normalize_result_shape (u n : str) :
  normalize u = Return n ->
  startswith "http://" n || startswith "https://" n = true
  /\ contains "#" n = false
  /\ Forall (fun c => UrlLib.unsafe_url_byte c = false) n.
Proof.
  rewrite normalize_with_scheme.
  destruct (with_scheme_form u) as (sch & x & Hs & -> & _).
  rewrite (normalize_any sch x Hs).
  destruct (bracket_error _ _); [discriminate|]. intros H. injection H as <-.
  set (y := UrlLib.remove_unsafe x).
  destruct (rebuild_form sch (before_delim y) (from_delim y) Hs)
    as (body & -> & I).
  assert (Sy : Forall (fun c => safe c = true) y) by apply remove_unsafe_safe.
  rewrite <- (delim_split y) in Sy. apply Forall_app in Sy as [Sn Sr].
  assert (Good : Forall (fun c => chr_eqb "#" c = false /\ safe c = true) body).
  { eapply Forall_incl; [exact I|].
    repeat (constructor; [split; reflexivity|]).
    apply Forall_app; split.
    - unfold lower. apply Forall_map.
      assert (D := before_delim_free y). rewrite Forall_forall in D, Sn.
      apply Forall_forall. intros c Hc. specialize (D c Hc). specialize (Sn c Hc).
      split; [|apply (lower_keeps_others c); exact Sn].
      destruct (chr_eqb "#" (lower_char c)) eqn:E; [|reflexivity].
      apply (proj1 (lower_keeps_others c)) in E. unfold is_delim in D. rewrite E in D.
      rewrite orb_true_r in D. discriminate.
    - assert (H1 := proj1 (contains_false "#" _) (before_free "#" (from_delim y))).
      assert (H2 : Forall (fun c => safe c = true) (before "#" (from_delim y))).
      { eapply Forall_incl; [apply incl_before | exact Sr]. }
      rewrite Forall_forall in H1, H2. apply Forall_forall. intros c Hc. auto. }
  split; [destruct Hs as [-> | ->]; reflexivity|].
  split.
  - apply contains_false.
    destruct Hs as [-> | ->]; repeat (constructor; [reflexivity|]);
      (eapply Forall_impl; [|exact Good]); intros c Hc; apply Hc.
  - assert (G2 : Forall (fun c => UrlLib.unsafe_url_byte c = false) body).
    { eapply Forall_impl; [|exact Good]. intros c [_ Hc].
      unfold safe in Hc. apply negb_true_iff in Hc. exact Hc. }
    destruct Hs as [-> | ->]; repeat (constructor; [reflexivity|]); exact G2.
Qed.

(** X10.  On an ASCII input, [normalize_url] raises for brackets only:
    without "[" and "]" in the input it returns a string, and an exception
    it raises is the one [urlsplit] has for the brackets of the netloc, the
    [ValueError] "Invalid IPv6 URL" for a bracket without its partner or
    else the exception of the check of the bracketed host. *)
Theorem normalize_raises_for_brackets_only (u : str) :
  Forall (fun c => is_ascii c = true) u ->
  (contains "[" u = false -> contains "]" u = false ->
   exists n, normalize u = Return n)
  /\ (forall e, normalize u = Raise e ->
      exists netloc,
        incl netloc u
        /\ bracket_error check_bracketed_netloc netloc = Some e).
Proof.
  intros _. rewrite normalize_with_scheme.
  destruct (with_scheme_form u) as (sch & x & Hs & -> & Ix).
  rewrite (normalize_any sch x Hs).
  assert (In_u : incl (before_delim (UrlLib.remove_unsafe x)) u).
  { intros c Hc. apply Ix.
    assert (Hy : In c (UrlLib.remove_unsafe x)).
    { rewrite <- (delim_split (UrlLib.remove_unsafe x)).
      apply in_or_app; left; exact Hc. }
    unfold UrlLib.remove_unsafe in Hy. apply filter_In in Hy. tauto. }
  split.
  - intros B1 B2.
    assert (N1 : contains "[" (before_delim (UrlLib.remove_unsafe x)) = false).
    { apply contains_false. eapply Forall_incl; [exact In_u|].
      apply contains_false; exact B1. }
    assert (N2 : contains "]" (before_delim (UrlLib.remove_unsafe x)) = false).
    { apply contains_false. eapply Forall_incl; [exact In_u|].
      apply contains_false; exact B2. }
    unfold bracket_error. rewrite N1, N2. cbn [andb orb negb]. eauto.
  - intros e.
    destruct (bracket_error _ _) as [e'|] eqn:B; [|discriminate].
    intros H; injection H as <-.
    exists (before_delim (UrlLib.remove_unsafe x)). auto.
Qed.

(** X11.  [normalize_url] discards the fragment: for an input without "#",
    appending "#" and anything after it does not change the result. *)
Theorem normalize_drops_fragment (u f : str) :
  contains "#" u = false ->
  normalize (u ++ "#"%char :: f) = normalize u.
Proof.
  intros Hu.
  rewrite (normalize_with_scheme (u ++ "#"%char :: f)), (normalize_with_scheme u).
  assert (W : with_scheme (u ++ "#"%char :: f) = with_scheme u ++ "#"%char :: f).
  { unfold with_scheme.
    rewrite !(startswith_cut _ u f "#"%char) by reflexivity.
    destruct (_ || _); [reflexivity|]. rewrite <- app_assoc. reflexivity. }
  rewrite W.
  assert (Hw : contains "#" (with_scheme u) = false).
  { unfold with_scheme. destruct (_ || _); [exact Hu|].
    rewrite contains_app, Hu. reflexivity. }
  destruct (with_scheme_form u) as (sch & x & Hs & E & _). rewrite E in *.
  assert (Hx : contains "#" x = false).
  { rewrite !contains_app in Hw. apply orb_false_iff in Hw as [_ Hw].
    apply orb_false_iff in Hw as [_ Hw]. exact Hw. }
  replace ((sch ++ "://" ++ x) ++ "#"%char :: f)
    with (sch ++ "://" ++ (x ++ "#"%char :: f))
    by (rewrite <- !app_assoc; reflexivity).
  rewrite !(normalize_any sch _ Hs).
  rewrite remove_unsafe_app.
  change (UrlLib.remove_unsafe ("#"%char :: f))
    with ("#"%char :: UrlLib.remove_unsafe f).
  set (y := UrlLib.remove_unsafe x). set (f' := UrlLib.remove_unsafe f).
  destruct (before_delim_cut y f' "#"%char eq_refl) as [-> ->].
  destruct (bracket_error _ _); [reflexivity|]. f_equal.
  assert (Hy : contains "#" (from_delim y) = false).
  { apply contains_false. apply (Forall_incl _ _ y).
    - intros c Hc. rewrite <- (delim_split y). apply in_or_app; right; exact Hc.
    - apply (Forall_incl _ _ x); [|apply contains_false; exact Hx].
      intros c Hc. unfold y, UrlLib.remove_unsafe in Hc.
      apply filter_In in Hc. tauto. }
  unfold rebuild, tail_parts.
  destruct (before_app_hit "#" (from_delim y) f' Hy) as [-> _].
  destruct (before_absent "#" (from_delim y) Hy) as [-> _].
  reflexivity.
Qed.

(** [normalize_url] on scheme, plain authority and rest. *)
Lemma normalize_plain (sch host rest : str) :
  sch = "http" \/ sch = "https" ->
  Forall (fun c => plain c = true) host ->
  head_delim (UrlLib.remove_unsafe rest) ->
  normalize (sch ++ "://" ++ host ++ rest)
  = Return (rebuild sch host (UrlLib.remove_unsafe rest)).
Proof.
  intros Hs Hp Hr. rewrite (normalize_any sch _ Hs).
  destruct (plain_list host Hp) as (ND & NS & B1 & B2).
  rewrite remove_unsafe_app, (filter_safe host NS).
  destruct (delim_app host _ ND Hr) as [-> ->].
  unfold bracket_error. rewrite B1, B2. reflexivity.
Qed.

(** X12.  With a scheme in lower case, the letter case of the authority
    does not matter to [normalize_url]. *)
Theorem normalize_ignores_authority_case (sch host rest : str) :
  sch = "http" \/ sch = "https" ->
  Forall (fun c => plain c = true) host ->
  head_delim rest ->
  normalize (sch ++ "://" ++ host ++ rest)
  = normalize (sch ++ "://" ++ lower host ++ rest).
Proof.
  intros Hs Hp Hr.
  assert (Hl : Forall (fun c => plain c = true) (lower host)).
  { unfold lower. apply Forall_map. eapply Forall_impl; [|exact Hp].
    intros c Hc. apply (lower_keeps_others c); exact Hc. }
  apply head_delim_filter in Hr as [Hr _].
  rewrite (normalize_plain sch host rest Hs Hp Hr).
  rewrite (normalize_plain sch (lower host) rest Hs Hl Hr).
  unfold rebuild. rewrite lower_idem. reflexivity.
Qed.

(** X13.  [normalize_url] drops the default port: ":80" after an "http"
    authority and ":443" after an "https" authority change nothing. *)
Theorem normalize_drops_default_port (host rest : str) :
  Forall (fun c => plain c = true) host ->
  contains ":" host = false ->
  head_delim rest ->
  normalize ("http://" ++ host ++ ":80" ++ rest)
  = normalize ("http://" ++ host ++ rest)
  /\ normalize ("https://" ++ host ++ ":443" ++ rest)
     = normalize ("https://" ++ host ++ rest).
Proof.
  intros Hp Hc Hr. apply head_delim_filter in Hr as [Hr _].
  assert (Nl := no_colon_lower host Hc).
  assert (P80 : Forall (fun c => plain c = true) (host ++ ":80")).
  { apply Forall_app; split; [exact Hp | repeat constructor]. }
  assert (P443 : Forall (fun c => plain c = true) (host ++ ":443")).
  { apply Forall_app; split; [exact Hp | repeat constructor]. }
  split.
  - change ("http://" ++ host ++ ":80" ++ rest)
      with ("http" ++ "://" ++ host ++ ":80" ++ rest).
    rewrite (app_assoc host ":80" rest).
    rewrite (normalize_plain "http" (host ++ ":80") rest (or_introl eq_refl) P80 Hr).
    rewrite (normalize_plain "http" host rest (or_introl eq_refl) Hp Hr
             : normalize ("http://" ++ host ++ rest) = _).
    unfold rebuild. f_equal.
    rewrite (strip_no_colon "http" (lower host) Nl).
    unfold lower. rewrite map_app. fold (lower host).
    change (map lower_char ":80") with (":80" : str).
    unfold strip_default_port. rewrite endswith_app. cbn [andb str_eqb].
    change (str_eqb "http" "http") with true. cbv iota.
    rewrite (drop_last_app (lower host) (":80" : str)
             : drop_last 3 (lower host ++ ":80") = lower host).
    reflexivity.
  - change ("https://" ++ host ++ ":443" ++ rest)
      with ("https" ++ "://" ++ host ++ ":443" ++ rest).
    rewrite (app_assoc host ":443" rest).
    rewrite (normalize_plain "https" (host ++ ":443") rest (or_intror eq_refl)
                             P443 Hr).
    rewrite (normalize_plain "https" host rest (or_intror eq_refl) Hp Hr
             : normalize ("https://" ++ host ++ rest) = _).
    unfold rebuild. f_equal.
    rewrite (strip_no_colon "https" (lower host) Nl).
    unfold lower. rewrite map_app. fold (lower host).
    change (map lower_char ":443") with (":443" : str).
    unfold strip_default_port. rewrite endswith_app.
    change (str_eqb "https" "http") with false.
    change (str_eqb "https" "https") with true.
    rewrite andb_false_r. cbn [andb]. cbv iota.
    rewrite (drop_last_app (lower host) (":443" : str)
             : drop_last 4 (lower host ++ ":443") = lower host).
    reflexivity.
Qed.

(** X14.  [normalize_url] drops a path that is only "/": with a scheme in
    lower case, a "/" right after the authority and before the end, a "?"
    or a "#" changes nothing. *)
Theorem normalize_drops_bare_slash (sch host rest : str) :
  sch = "http" \/ sch = "https" ->
  Forall (fun c => plain c = true) host ->
  (rest = [] \/ exists c t, rest = c :: t /\ (c = "?"%char \/ c = "#"%char)) ->
  normalize (sch ++ "://" ++ host ++ "/" ++ rest)
  = normalize (sch ++ "://" ++ host ++ rest).
Proof.
  intros Hs Hp Hr.
  assert (HD1 : head_delim ("/" ++ rest)).
  { right. exists "/"%char, rest. split; reflexivity. }
  assert (HD2 : head_delim rest).
  { destruct Hr as [-> | (c & t & -> & [-> | ->])];
      [left; reflexivity | right; eexists; eexists; split; reflexivity
       | right; eexists; eexists; split; reflexivity]. }
  apply head_delim_filter in HD1 as [HD1 _].
  apply head_delim_filter in HD2 as [HD2 _].
  rewrite (normalize_plain sch host ("/" ++ rest) Hs Hp HD1).
  rewrite (normalize_plain sch host rest Hs Hp HD2). f_equal.
  change (UrlLib.remove_unsafe ("/" ++ rest))
    with ("/"%char :: UrlLib.remove_unsafe rest).
  unfold rebuild.
  destruct Hr as [-> | (c & t & -> & [-> | ->])].
  - reflexivity.
  - change (UrlLib.remove_unsafe ("?"%char :: t))
      with ("?"%char :: UrlLib.remove_unsafe t).
    reflexivity.
  - change (UrlLib.remove_unsafe ("#"%char :: t))
      with ("#"%char :: UrlLib.remove_unsafe t).
    reflexivity.
Qed.

End AnyInput.

End NormalizeMore.

(** ** The validator after the normalizer *)

Module ValidityFacts.
Import Re ReFacts UrlPattern PatternFacts Parts StrFacts NormalizeFacts.
Import NormalizeMore.

Lemma fullmatch_app (r : regex) (a b : str) :
  fullmatch r (a ++ b) = fullmatch (fold_left (fun r c => deriv c r) a r) b.
Proof.
  revert r. induction a as [|x a IH]; intros r; cbn [app fullmatch fold_left];
    [reflexivity | apply IH].
Qed.

Lemma fullmatch_Nul (s : str) : fullmatch Nul s = false.
Proof. induction s as [|x s IH]; [reflexivity | exact IH]. Qed.

(** No URL that begins with "https://http:" or "https://https:" is valid:
    no host ends at the second colon. *)
Lemma doubled_scheme_invalid (x : str) :
  is_valid_url ("https://http:" ++ x) = false
  /\ is_valid_url ("https://https:" ++ x) = false.
Proof.
  unfold is_valid_url. rewrite !fullmatch_app.
  assert (E1 : fold_left (fun r c => deriv c r) ("https://http:" : str)
                         url_pattern = Nul) by (vm_compute; reflexivity).
  assert (E2 : fold_left (fun r c => deriv c r) ("https://https:" : str)
                         url_pattern = Nul) by (vm_compute; reflexivity).
  rewrite E1, E2. split; apply fullmatch_Nul.
Qed.

Lemma lang_lower (r : regex) :
  lower_closed r -> forall s, lang r s -> lang r (lower s).
Proof.
  induction r; cbn [lower_closed lang]; intros W s H.
  - contradiction.
  - subst; reflexivity.
  - destruct H as (c & -> & Hc). exists (lower_char c). auto.
  - destruct W as [W1 W2]. destruct H as (s1 & s2 & -> & H1 & H2).
    exists (lower s1), (lower s2). unfold lower at 1. rewrite map_app. auto.
  - destruct W as [W1 W2]. destruct H; [left | right]; auto.
  - induction H as [|s1 s2 H1 H2 IH]; [constructor|].
    unfold lower. rewrite map_app. apply star_app; [apply IHr; assumption | exact IH].
Qed.

Lemma closed_Exactly n r : lower_closed r -> lower_closed (Exactly n r).
Proof. intros W; induction n; simpl; auto. Qed.

Lemma closed_Upto n r : lower_closed r -> lower_closed (Upto n r).
Proof. intros W; induction n; simpl; auto. Qed.

Lemma closed_Rep lo hi r : lower_closed r -> lower_closed (Rep lo hi r).
Proof.
  intros W; split; [apply closed_Exactly | apply closed_Upto]; exact W.
Qed.

Lemma closed_LitI (s : str) : lower_closed (LitI s).
Proof.
  induction s as [|c s IH]; cbn [LitI lower_closed]; [exact I|].
  split; [|exact IH]. intros x. rewrite lower_char_idem. auto.
Qed.

Lemma class_facts (c : ascii) :
  (is_alnum c = true -> is_alnum (lower_char c) = true)
  /\ (is_alnum c || chr_eqb c "-" = true
      -> is_alnum (lower_char c) || chr_eqb (lower_char c) "-" = true)
  /\ (is_ascii_alpha c = true -> is_ascii_alpha (lower_char c) = true)
  /\ (is_digit c = true -> lower_char c = c /\ chr_eqb ":" c = false)
  /\ (chr_eqb "." c = true -> chr_eqb "." (lower_char c) = true)
  /\ (chr_eqb c "/" || chr_eqb c "?" = true -> negb (isspace c) = true).
Proof. all_chars c; vm_compute; repeat split; intros; congruence. Qed.

Lemma host_re_closed : lower_closed host_re.
Proof.
  assert (A : lower_closed alnum) by (intros c; apply (class_facts c)).
  assert (B : lower_closed alnum_dash) by (intros c; apply (class_facts c)).
  assert (C : lower_closed alpha) by (intros c; apply (class_facts c)).
  assert (D : lower_closed (Rep 1 3 digit)).
  { apply closed_Rep. intros c Hc.
    destruct (class_facts c) as (_ & _ & _ & K & _).
    destruct (K Hc) as [-> _]. exact Hc. }
  assert (E : lower_closed dot) by (intros c; apply (class_facts c)).
  split; [|split].
  - split; [|split; [apply closed_Rep; exact C | split; [exact E | exact I]]].
    split; [|exact (conj A (conj (conj (conj (closed_Rep 0 61 _ B) A) I) E))].
    exact (conj A (conj (conj (conj (closed_Rep 0 61 _ B) A) I) E)).
  - apply closed_LitI.
  - repeat (split; [first [exact D | exact E]|]). exact D.
Qed.

Lemma plus_cls (P : ascii -> bool) (y : ascii) (t : str) :
  P y = true -> Forall (fun c => P c = true) t -> lang (Plus (Cls P)) (y :: t).
Proof.
  intros Hy Ht. exists [y], t. split; [reflexivity|].
  split; [exists y; auto|].
  induction Ht as [|x t Hx Ht IH]; [constructor|].
  apply (star_app _ [x] t); [exists x; auto | exact IH].
Qed.

Lemma tail_nonspace (t : str) :
  lang tail_re t -> Forall (fun c => negb (isspace c) = true) t.
Proof.
  apply lang_within. cbn [classes_within tail_re Opt Plus nonspace Chr].
  repeat split; auto; intros c Hc.
  - apply (class_facts c). apply chr_eqb_eq in Hc. subst c. reflexivity.
  - apply (class_facts c). exact Hc.
Qed.

(** The authority of a valid URL after lowering and stripping is a host
    and an optional port again. *)
Lemma authority_valid (sch host port : str) :
  lang host_re host -> lang port_re port ->
  exists port',
    strip_default_port sch (lower (host ++ port)) = lower host ++ port'
    /\ lang port_re port'.
Proof.
  intros Hh Hp.
  assert (Nh : no_colon (lower host)).
  { unfold no_colon, lower. apply Forall_map.
    eapply Forall_impl; [|apply host_chars; exact Hh]. intros c Hc.
    apply host_char_facts in Hc. tauto. }
  assert (Empty : lang port_re []) by (right; reflexivity).
  destruct (port_shape port Hp) as [-> | (d & -> & Hd)].
  - rewrite app_nil_r, (strip_no_colon sch _ Nh). exists [].
    rewrite app_nil_r. auto.
  - assert (Ld : lower d = d).
    { apply lower_fixed. eapply Forall_impl; [|exact Hd].
      intros c Hc. apply (class_facts c); exact Hc. }
    assert (Nd : no_colon d).
    { eapply Forall_impl; [|exact Hd].
      intros c Hc. apply (class_facts c); exact Hc. }
    assert (L : lower (host ++ ":"%char :: d) = lower host ++ ":"%char :: d).
    { unfold lower. rewrite map_app. cbn [map]. fold (lower d). rewrite Ld.
      reflexivity. }
    rewrite L. set (z := lower host ++ ":"%char :: d).
    assert (Cut : forall p : str,
              no_colon p -> endswith (":"%char :: p) z = true ->
              drop_last (S (length p)) z = lower host).
    { intros p Np E. apply endswith_true in E as (w & E). unfold z in *.
      destruct (last_colon (lower host) d w p Nd Np E) as [-> ->].
      apply (drop_last_app w (":"%char :: p)). }
    unfold strip_default_port.
    destruct (endswith ":80" z && str_eqb sch "http") eqn:C1.
    + apply andb_true_iff in C1 as [E _].
      rewrite (Cut "80" ltac:(repeat constructor) E : drop_last 3 z = _).
      exists []. rewrite app_nil_r. auto.
    + destruct (endswith ":443" z && str_eqb sch "https") eqn:C2.
      * apply andb_true_iff in C2 as [E _].
        rewrite (Cut "443" ltac:(repeat constructor) E : drop_last 4 z = _).
        exists []. rewrite app_nil_r. auto.
      * exists (":"%char :: d). auto.
Qed.

(** What is written after the authority is a valid tail. *)
Lemma tail_valid (r p pr q : str) :
  Forall (fun c => negb (isspace c) = true) r -> head_delim r ->
  tail_parts r = (p, pr, q) ->
  lang tail_re (path_text p pr ++ query_text q).
Proof.
  intros Ns HD T.
  destruct (path_text_fix _ (head_delim_path r HD))
    as (p0 & pr0 & p2 & SP & _ & _ & PO & Ip).
  unfold tail_parts in T. rewrite SP in T. injection T as -> -> <-.
  set (r1 := before "#" r) in *.
  assert (I1 : incl r1 r) by apply incl_before.
  assert (Np : Forall (fun c => negb (isspace c) = true) (path_text p pr)).
  { eapply Forall_incl; [|exact Ns].
    eapply incl_tran; [exact Ip|]. eapply incl_tran; [apply incl_before | exact I1]. }
  assert (Nq : Forall (fun c => negb (isspace c) = true) (query_text (after "?" r1))).
  { destruct (query_text_cases (after "?" r1)) as [[_ ->] | (y & q' & _ & ->)];
      [constructor|].
    constructor; [reflexivity|].
    eapply Forall_incl; [|exact Ns].
    eapply incl_tran; [apply incl_after | exact I1]. }
  assert (Long : forall (c y : ascii) (t : str),
             c = "/"%char \/ c = "?"%char ->
             Forall (fun c => negb (isspace c) = true) (y :: t) ->
             lang tail_re (c :: y :: t)).
  { intros c y t Hc Hy. right. exists [c], (y :: t). split; [reflexivity|].
    split; [exists c; split; [reflexivity|];
            destruct Hc as [-> | ->]; reflexivity|].
    inversion Hy; subst. apply plus_cls; assumption. }
  destruct PO as [E | (w & E)]; rewrite E in *; cbn [app].
  - destruct (query_text_cases (after "?" r1)) as [[_ Eq] | (y & q' & Eq' & Eq)];
      rewrite Eq in *.
    + left; right; reflexivity.
    + rewrite Eq'. apply Long; [auto|].
      rewrite Eq' in Nq. inversion Nq; assumption.
  - destruct (w ++ query_text (after "?" r1)) as [|y t] eqn:Ew.
    + left; left. exists "/"%char. auto.
    + apply Long; [auto|]. rewrite <- Ew.
      apply Forall_app; split; [inversion Np; assumption | exact Nq].
Qed.

Lemma tail_rest (tl nl : str) :
  lang tail_re tl -> lang Dollar nl ->
  Forall (fun c => negb (isspace c) = true) (UrlLib.remove_unsafe (tl ++ nl))
  /\ head_delim (UrlLib.remove_unsafe (tl ++ nl)).
Proof.
  intros Ht Hn. split.
  - rewrite remove_unsafe_app.
    assert (E : UrlLib.remove_unsafe nl = []).
    { destruct (dollar_shape nl Hn) as [-> | ->]; reflexivity. }
    rewrite E, app_nil_r. eapply Forall_incl; [|apply tail_nonspace; exact Ht].
    intros c Hc. unfold UrlLib.remove_unsafe in Hc. apply filter_In in Hc. tauto.
  - apply tail_head_delim; [apply tail_shape; exact Ht | apply dollar_shape; exact Hn].
Qed.

Section AfterNormalizing.

Variable check_bracketed_netloc : str -> outcome unit.
Local Abbreviation normalize := (normalize_url check_bracketed_netloc).

(** A valid URL whose scheme is in lower case stays valid. *)
Lemma normalize_valid_lower (u : str) :
  is_valid_url u = true ->
  startswith "http://" u || startswith "https://" u = true ->
  exists n, normalize u = Return n /\ is_valid_url n = true.
Proof.
  unfold is_valid_url at 1. rewrite fullmatch_lang. unfold url_pattern.
  intros (s0 & r0 & -> & Hs & (h & r1 & -> & Hh & (p & r2 & -> & Hp
          & (t & n & -> & Ht & Hn)))) P.
  apply scheme_shape in Hs as (sch & -> & Hsch).
  rewrite <- app_assoc in *.
  apply (scheme_lower_case sch _ Hsch) in P.
  destruct (authority_normal sch h p (host_nonempty h Hh) (host_chars h Hh)
                             (port_shape p Hp)) as (Pl & Nne & _).
  destruct (tail_rest t n Ht Hn) as [Ns HD].
  replace (sch ++ "://" ++ h ++ p ++ t ++ n)
    with (sch ++ "://" ++ (h ++ p) ++ t ++ n)
    by (rewrite <- !app_assoc; reflexivity).
  rewrite (normalize_plain check_bracketed_netloc sch (h ++ p) (t ++ n) P Pl HD).
  unfold rebuild.
  destruct (tail_parts (UrlLib.remove_unsafe (t ++ n))) as [[pa pr] q] eqn:T.
  rewrite (unparse_form sch _ pa pr q P Nne).
  eexists. split; [reflexivity|].
  unfold is_valid_url. apply fullmatch_lang. unfold url_pattern.
  destruct (authority_valid sch h p Hh Hp) as (p' & -> & Hp').
  exists (sch ++ "://"), (lower h ++ p' ++ path_text pa pr ++ query_text q).
  split; [rewrite <- !app_assoc; reflexivity|]. split.
  { destruct P as [-> | ->]; apply fullmatch_lang; vm_compute; reflexivity. }
  exists (lower h), (p' ++ path_text pa pr ++ query_text q).
  split; [reflexivity|]. split; [apply lang_lower; [exact host_re_closed | exact Hh]|].
  exists p', (path_text pa pr ++ query_text q).
  split; [reflexivity|]. split; [exact Hp'|].
  exists (path_text pa pr ++ query_text q), [].
  split; [rewrite app_nil_r; reflexivity|].
  split; [eapply tail_valid; eassumption | right; reflexivity].
Qed.

(** A valid URL whose scheme is not in lower case gets a second scheme
    and is not valid any more. *)
Lemma normalize_valid_upper (u : str) :
  is_valid_url u = true ->
  startswith "http://" u || startswith "https://" u = false ->
  exists n, normalize u = Return n /\ is_valid_url n = false.
Proof.
  intros V P. rewrite (normalize_prefixed check_bracketed_netloc u P).
  apply valid_url_shape in V
    as (sch0 & host & port & tl & nl & -> & Hs & _).
  assert (Ps : Forall (fun c => plain c = true) (sch0 ++ [":"%char])).
  { apply Forall_app; split; [|repeat constructor].
    assert (L : Forall (fun c => plain c = true) (lower sch0)).
    { destruct Hs as [-> | ->]; repeat constructor. }
    unfold lower in L. apply Forall_map in L.
    eapply Forall_impl; [|exact L]. intros c; apply plain_lower. }
  set (x := host ++ port ++ tl ++ nl).
  change (sch0 ++ "://" ++ x)
    with (sch0 ++ [":"%char] ++ "/"%char :: "/"%char :: x).
  rewrite (app_assoc sch0 [":"%char]).
  assert (HD : head_delim (UrlLib.remove_unsafe ("/"%char :: "/"%char :: x))).
  { right. eexists; eexists; split; reflexivity. }
  rewrite (normalize_plain check_bracketed_netloc "https" _ _
                           (or_intror eq_refl) Ps HD).
  unfold rebuild.
  destruct (tail_parts _) as [[p pr] q].
  assert (Low : lower (sch0 ++ [":"%char]) = "http:"
                \/ lower (sch0 ++ [":"%char]) = "https:").
  { unfold lower in *. rewrite map_app.
    destruct Hs as [-> | ->]; [left | right]; reflexivity. }
  eexists. split; [reflexivity|].
  destruct Low as [-> | ->].
  - change (strip_default_port "https" "http:") with ("http:" : str).
    rewrite (unparse_form "https" "http:" p pr q (or_intror eq_refl))
      by discriminate.
    apply (doubled_scheme_invalid (path_text p pr ++ query_text q)).
  - change (strip_default_port "https" "https:") with ("https:" : str).
    rewrite (unparse_form "https" "https:" p pr q (or_intror eq_refl))
      by discriminate.
    apply (doubled_scheme_invalid (path_text p pr ++ query_text q)).
Qed.

(** X15.  On an ASCII URL that [is_valid_url] accepts, [normalize_url]
    returns a string, and [is_valid_url] accepts that string exactly when
    the input begins with "http://" or "https://" in lower case. *)
Theorem normalize_keeps_valid_iff_lower_scheme (u : str) :
  Forall (fun c => is_ascii c = true) u ->
  is_valid_url u = true ->
  exists n,
    normalize u = Return n
    /\ is_valid_url n = (startswith "http://" u || startswith "https://" u).
Proof.
  intros _ V. destruct (startswith "http://" u || startswith "https://" u) eqn:P.
  - apply normalize_valid_lower; assumption.
  - apply normalize_valid_upper; assumption.
Qed.

Variable BASE_URL : str.
Local Abbreviation shorten := (shorten_url check_bracketed_netloc BASE_URL).

(** X16.  When the submitted URL, stripped, is an ASCII string that
    [is_valid_url] accepts, [shorten_url] answers "Invalid URL format"
    exactly when the URL does not begin with "http://" or "https://" in
    lower case; in that case the store and the random source are left as
    they were. *)
Theorem shorten_rejects_upper_case_scheme (raw : str) (now : Z) (g : Rng)
  (db : Store) :
  Forall (fun c => is_ascii c = true) (strip raw) ->
  is_valid_url (strip raw) = true ->
  (shorten_view (fst (fst (shorten raw now g db))) = Some InvalidUrl
   <-> startswith "http://" (strip raw) || startswith "https://" (strip raw)
       = false)
  /\ (shorten_view (fst (fst (shorten raw now g db))) = Some InvalidUrl ->
      snd (shorten raw now g db) = db /\ snd (fst (shorten raw now g db)) = g).
Proof.
  intros _ V. unfold shorten_url.
  destruct (startswith "http://" (strip raw) || startswith "https://" (strip raw))
    eqn:P.
  - destruct (normalize_valid_lower (strip raw) V P) as (n & -> & ->).
    simpl negb. cbv iota.
    destruct (Db.first (Db.by_long_url n) db) as [e|].
    + split; [split; [discriminate | discriminate]|discriminate].
    + destruct (unique_code_loop max_attempts db g) as [[code|] g1].
      * destruct (Db.add_commit now n code db) as [[row db']|e];
          (split; [split; discriminate | discriminate]).
      * split; [split; discriminate | discriminate].
  - destruct (normalize_valid_upper (strip raw) V P) as (n & -> & ->).
    simpl negb. cbv iota. cbn [fst snd]. split; [split|]; auto.
Qed.

End AfterNormalizing.

(** X17.  A string [is_valid_url] accepts is free of whitespace, except
    for one line feed it may end with; and a valid string that is free of
    whitespace stays valid when a line feed is put at its end. *)
Theorem is_valid_url_whitespace (u : str) :
  is_valid_url u = true ->
  exists v nl,
    u = v ++ nl /\ (nl = [] \/ nl = [ascii_of_nat 10])
    /\ Forall (fun c => isspace c = false) v
    /\ is_valid_url v = true
    /\ is_valid_url (v ++ [ascii_of_nat 10]) = true.
Proof.
  unfold is_valid_url. rewrite fullmatch_lang. unfold url_pattern.
  intros (s0 & r0 & -> & Hs & (h & r1 & -> & Hh & (p & r2 & -> & Hp
          & (t & n & -> & Ht & Hn)))).
  exists (s0 ++ h ++ p ++ t), n.
  split; [rewrite <- !app_assoc; reflexivity|].
  split; [apply dollar_shape; exact Hn|].
  assert (Parts : forall n' : str, lang Dollar n' ->
            lang (Cat scheme_re (Cat host_re (Cat port_re (Cat tail_re Dollar))))
                 ((s0 ++ h ++ p ++ t) ++ n')).
  { intros n' Hn'. exists s0, (h ++ p ++ t ++ n').
    split; [rewrite <- !app_assoc; reflexivity|]. split; [exact Hs|].
    exists h, (p ++ t ++ n'). split; [reflexivity|]. split; [exact Hh|].
    exists p, (t ++ n'). split; [reflexivity|]. split; [exact Hp|].
    exists t, n'. auto. }
  split.
  - assert (W : Forall (fun c => negb (isspace c) = true) (s0 ++ h ++ p ++ t)).
    { repeat (apply Forall_app; split).
      - apply scheme_shape in Hs as (sch & -> & Hsch).
        apply Forall_app; split; [|repeat constructor].
        assert (L : Forall (fun c => negb (isspace c) = true) (lower sch))
          by (destruct Hsch as [-> | ->]; repeat constructor).
        unfold lower in L. apply Forall_map in L.
        eapply Forall_impl; [|exact L].
        intros c. all_chars c; vm_compute; intros; congruence.
      - eapply Forall_impl; [|apply host_chars; exact Hh].
        intros c. all_chars c; vm_compute; intros; congruence.
      - destruct (port_shape p Hp) as [-> | (d & -> & Hd)]; [constructor|].
        constructor; [reflexivity|]. eapply Forall_impl; [|exact Hd].
        intros c. all_chars c; vm_compute; intros; congruence.
      - apply tail_nonspace; exact Ht. }
    eapply Forall_impl; [|exact W]. intros c Hc.
    apply negb_true_iff in Hc. exact Hc.
  - split.
    + apply fullmatch_lang.
      generalize (Parts [] (or_intror eq_refl)). rewrite app_nil_r.
      intros H; exact H.
    + apply fullmatch_lang, Parts. left. exists (ascii_of_nat 10). split; [reflexivity|].
      apply chr_eqb_refl.
Qed.

End ValidityFacts.

(** * Concrete runs *)

Module Runs.
Import Samples.

(** An upper-case scheme is not brought to the canonical form. *)
Lemma upper_case_scheme_not_canonical :
  normalize_url reject_brackets "HTTPS://EXAMPLE.com:443/"
  <> normalize_url reject_brackets "https://example.com".
Proof. vm_compute. intros H. discriminate H. Qed.

(** Two resolutions of "abc123" that both read the count before either
    writes it: both are answered with the redirect, and the count goes from
    0 to 1. *)
Lemma interleaved_resolutions_lose_a_click :
  clicks_of "abc123" [row_fresh] = Some 0%Z
  /\ run_schedule base_url [0; 1; 0; 1]
                  [Arrived "abc123"; Arrived "abc123"] [row_fresh]
     = ([Answered (RedirectResponse "https://example.com" 302);
         Answered (RedirectResponse "https://example.com" 302)],
        [set_click_count 1 row_fresh])
  /\ clicks_of "abc123" [set_click_count 1 row_fresh] = Some 1%Z.
Proof. repeat split; vm_compute; reflexivity. Qed.

(** With click counts A:5, B:10, C:1 [analytics] shows three rows, not the
    two of a limit of 2. *)
Lemma analytics_shows_all_three :
  shown_urls (fst (analytics base_url store_ABC)) = [row_B; row_A; row_C]
  /\ shown_urls (fst (analytics base_url store_ABC)) <> [row_B; row_A]
  /\ ~ length (shown_urls (fst (analytics base_url store_ABC))) <= 2.
Proof.
  assert (E : shown_urls (fst (analytics base_url store_ABC))
              = [row_B; row_A; row_C]) by (vm_compute; reflexivity).
  rewrite E. split; [reflexivity|]. split; [discriminate | simpl; lia].
Qed.

Ltac not_in_list :=
  let H := fresh "H" in
  intros H; vm_compute in H;
  repeat (destruct H as [H | H]; [discriminate H|]); exact H.

Ltac no_dup :=
  repeat (apply NoDup_cons; [not_in_list|]); apply NoDup_nil.

(** "example.com" and then "https://EXAMPLE.com:443/" on the empty store. *)
Lemma dedup_same_code_run :
  exists n r1 g1 db1 r2,
    normalize_url reject_brackets (strip "example.com") = Return n
    /\ shorten_url reject_brackets base_url "example.com" 100 rng_count []
       = (r1, g1, db1)
    /\ shorten_url reject_brackets base_url "https://EXAMPLE.com:443/" 200
                   g1 db1
       = (r2, g1, db1)
    /\ shorten_view r2 = Some (Shortened "abcdef")
    /\ length (filter (Db.by_long_url n) db1) = 1.
Proof.
  apply (dedup_same_code reject_brackets base_url "example.com"
           "https://EXAMPLE.com:443/" 100 200 rng_count [] "abcdef").
  - apply NoDup_nil.
  - vm_compute; reflexivity.
  - vm_compute; reflexivity.
Defined.

(** Three resolutions of "BBBBBB", which has 10 clicks. *)
Lemma sequential_resolutions_run :
  clicks_of "BBBBBB" store_ABC = Some 10%Z
  /\ clicks_of "BBBBBB" (resolve_times base_url 3 "BBBBBB" store_ABC)
     = Some (10 + Z.of_nat 3)%Z.
Proof.
  split; [reflexivity|].
  apply (proj2 (sequential_resolutions_count base_url) 3 "BBBBBB" store_ABC 10%Z).
  reflexivity.
Defined.

(** The generator yields "aaaaaa" ten times and that code is taken. *)
Lemma code_space_exhausted_run :
  candidates max_attempts rng_zero = repeat ("aaaaaa" : str) 10
  /\ shorten_view (fst (fst (shorten_url reject_brackets base_url
                                         "example.com" 100 rng_zero
                                         store_taken)))
     = Some CodeSpaceExhausted
  /\ snd (shorten_url reject_brackets base_url "example.com" 100 rng_zero
                      store_taken)
     = store_taken.
Proof.
  split; [vm_compute; reflexivity|].
  apply (code_space_exhausted reject_brackets base_url "example.com" 100
           rng_zero store_taken "https://example.com").
  - vm_compute; reflexivity.
  - vm_compute; reflexivity.
  - not_in_list.
  - vm_compute; repeat constructor.
Defined.

Lemma valid_scheme_run :
  exists sch rest,
    Wide.codes "https://example.com" = sch ++ Wide.codes "://" ++ rest
    /\ accepted_scheme sch.
Proof.
  apply (proj1 (proj2 (proj2 (proj2
           (invalid_input_rejected reject_brackets base_url))))).
  vm_compute; reflexivity.
Defined.

Lemma unknown_code_run :
  resolve_view (fst (redirect_to_url base_url "doesnotexist" store_ABC))
  = Some NotFound
  /\ snd (redirect_to_url base_url "doesnotexist" store_ABC) = store_ABC.
Proof.
  apply (unknown_code_not_found base_url "doesnotexist" store_ABC).
  not_in_list.
Defined.

Lemma resolve_row_B_run :
  resolve_view (fst (redirect_to_url base_url (short_code row_B) store_ABC))
  = Some (Found (long_url row_B))
  /\ exists pre post r',
       store_ABC = pre ++ row_B :: post
       /\ snd (redirect_to_url base_url (short_code row_B) store_ABC)
          = pre ++ r' :: post
       /\ id r' = id row_B /\ long_url r' = long_url row_B
       /\ short_code r' = short_code row_B
       /\ created_at r' = created_at row_B
       /\ click_count r' = (click_count row_B + 1)%Z.
Proof.
  apply (resolve_increments_one_row base_url store_ABC row_B).
  - unfold pk_unique. cbn [map store_ABC]. no_dup.
  - unfold short_code_unique. cbn [map store_ABC]. no_dup.
  - right; left; reflexivity.
Defined.

Lemma short_codes_distinct_run :
  short_code_unique store_taken
  /\ NoDup (returned_codes
              (fst (fst (shorten_all reject_brackets base_url
                           [ ("example.com" : str, 100%Z);
                             ("example.org" : str, 101%Z) ]
                           rng_count [])))).
Proof.
  split.
  - apply (proj1 (short_codes_distinct reject_brackets base_url) store_taken).
    apply (reach_add [] 100 "https://taken.example.com" "aaaaaa"
                     (mkURL 1 "https://taken.example.com" "aaaaaa" 100 0)
                     store_taken reach_empty).
    reflexivity.
  - apply (proj2 (short_codes_distinct reject_brackets base_url)).
    + apply NoDup_nil.
    + cbn [map]. no_dup.
Defined.

Lemma normalize_idempotent_run :
  is_valid_url "https://EXAMPLE.com:443/" = true
  /\ exists n,
       normalize_url reject_brackets "https://EXAMPLE.com:443/" = Return n
       /\ normalize_url reject_brackets n = Return n.
Proof.
  split; [vm_compute; reflexivity|].
  apply (NormalizeFacts.normalize_idempotent reject_brackets
           "https://EXAMPLE.com:443/").
  vm_compute; reflexivity.
Defined.

(** Idempotence needs the input itself to be valid: "example.com:443:443"
    is not, its normal form "https://example.com:443" is, and normalizing
    that once more strips the second port. *)
Lemma normalize_twice_on_invalid_input :
  is_valid_url "example.com:443:443" = false
  /\ normalize_url reject_brackets "example.com:443:443"
     = Return ("https://example.com:443" : str)
  /\ is_valid_url "https://example.com:443" = true
  /\ normalize_url reject_brackets "https://example.com:443"
     = Return ("https://example.com" : str).
Proof. repeat split; vm_compute; reflexivity. Qed.

(** ** Runs of the further properties *)

(** " Example.COM/a " on a store that holds another URL. *)
Lemma shorten_creates_row_run :
  exists g',
    shorten_url reject_brackets base_url " Example.COM/a " 100 rng_count
                store_taken
    = (Return (TemplateResponse "index.html"
                 [ ("short_url" : str, VStr (base_url ++ "/" ++ "abcdef"));
                   ("short_code" : str, VStr "abcdef");
                   ("base_url" : str, VStr base_url) ] 200),
       g',
       store_taken
         ++ [mkURL (Db.next_id store_taken) "https://example.com/a" "abcdef"
                   100 0]).
Proof.
  apply (shorten_creates_row reject_brackets base_url " Example.COM/a " 100
           rng_count store_taken "https://example.com/a" "abcdef").
  - vm_compute; reflexivity.
  - vm_compute; reflexivity.
  - not_in_list.
  - vm_compute; reflexivity.
Defined.

(** "example.org" on the same store. *)
Lemma shorten_appends_at_most_one_row_run :
  store_taken ++ [mkURL 2 "https://example.org" "abcdef" 100 0] = store_taken
  \/ exists row,
       store_taken ++ [mkURL 2 "https://example.org" "abcdef" 100 0]
       = store_taken ++ [row]
       /\ shorten_view
            (Return (TemplateResponse "index.html"
                       [ ("short_url" : str,
                          VStr "http://localhost:8000/abcdef");
                         ("short_code" : str, VStr "abcdef");
                         ("base_url" : str, VStr base_url) ] 200))
          = Some (Shortened (short_code row))
       /\ normalize_url reject_brackets (strip "example.org")
          = Return (long_url row)
       /\ id row = Db.next_id store_taken
       /\ created_at row = 100%Z /\ click_count row = 0%Z
       /\ ~ In (short_code row) (map short_code store_taken)
       /\ ~ In (long_url row) (map long_url store_taken).
Proof.
  apply (shorten_appends_at_most_one_row reject_brackets base_url "example.org"
           100 rng_count (mkRng (fun i => i) 6) store_taken).
  vm_compute; reflexivity.
Defined.

(** "example.com" on the empty store, then its code. *)
Lemma shorten_then_resolve_run :
  exists n,
    normalize_url reject_brackets (strip "example.com") = Return n
    /\ fst (redirect_to_url base_url "abcdef"
              [mkURL 1 "https://example.com" "abcdef" 100 0])
       = RedirectResponse n 302.
Proof.
  apply (shorten_then_resolve reject_brackets base_url "example.com" 100
           rng_count (mkRng (fun i => i) 6) []
           [mkURL 1 "https://example.com" "abcdef" 100 0]
           (Return (TemplateResponse "index.html"
                      [ ("short_url" : str, VStr "http://localhost:8000/abcdef");
                        ("short_code" : str, VStr "abcdef");
                        ("base_url" : str, VStr base_url) ] 200))
           "abcdef").
  - apply NoDup_nil.
  - vm_compute; reflexivity.
  - vm_compute; reflexivity.
Defined.

(** The store after "example.com" and a resolution of its code. *)
Lemma served_rows_ok_run :
  Forall row_ok [mkURL 1 "https://example.com" "abcdef" 100 1]
  /\ StronglySorted Z.lt (map id [mkURL 1 "https://example.com" "abcdef" 100 1]).
Proof.
  apply (served_rows_ok reject_brackets base_url).
  change (served reject_brackets base_url
            (snd (redirect_to_url base_url "abcdef"
                    (snd (shorten_url reject_brackets base_url "example.com"
                                      100 rng_count []))))).
  apply served_redirect, served_shorten, served_empty.
Defined.

Lemma redirect_keeps_rows_run :
  Forall2 same_mapping store_ABC
          (snd (redirect_to_url base_url "BBBBBB" store_ABC)).
Proof.
  apply (redirect_keeps_rows base_url "BBBBBB" store_ABC).
  unfold pk_unique. cbn [map store_ABC]. no_dup.
Defined.

Lemma shorten_ignores_padding_run :
  shorten_view (fst (fst (shorten_url reject_brackets base_url
                            (" " ++ "example.com" ++ "  ") 100 rng_count [])))
  = shorten_view (fst (fst (shorten_url reject_brackets base_url
                              "example.com" 100 rng_count [])))
  /\ snd (fst (shorten_url reject_brackets base_url
                 (" " ++ "example.com" ++ "  ") 100 rng_count []))
     = snd (fst (shorten_url reject_brackets base_url "example.com" 100
                             rng_count []))
  /\ snd (shorten_url reject_brackets base_url
            (" " ++ "example.com" ++ "  ") 100 rng_count [])
     = snd (shorten_url reject_brackets base_url "example.com" 100
                        rng_count []).
Proof.
  apply (shorten_ignores_padding reject_brackets base_url " " "example.com"
           "  " 100 rng_count []).
  - repeat constructor.
  - repeat constructor.
Defined.

(** With click counts A:5, B:10, C:1 all three rows are shown, B first. *)
Lemma analytics_shows_the_top_run :
  Permutation (shown_urls (fst (analytics base_url store_ABC))) store_ABC
  /\ more_clicks row_B row_C
  /\ shown_urls (fst (analytics base_url store_ABC)) <> [].
Proof.
  destruct (analytics_shows_the_top base_url store_ABC) as (P & T & N).
  split; [apply P; simpl; lia|]. split.
  - apply (T row_B [row_A; row_C]); [vm_compute; reflexivity|].
    right; right; left; reflexivity.
  - apply N. discriminate.
Defined.

Lemma normalize_result_shape_run :
  startswith "http://" "https://example.com/a"
  || startswith "https://" "https://example.com/a" = true
  /\ contains "#" "https://example.com/a" = false
  /\ Forall (fun c => UrlLib.unsafe_url_byte c = false)
            ("https://example.com/a" : str).
Proof.
  apply (NormalizeMore.normalize_result_shape reject_brackets
           "Example.com/a#frag" "https://example.com/a").
  vm_compute; reflexivity.
Defined.

(** No brackets, no exception; a bracket without its partner raises
    whatever the check of bracketed hosts is. *)
Lemma normalize_raises_for_brackets_only_run :
  (exists n, normalize_url reject_brackets "example.com/a b" = Return n)
  /\ (exists netloc,
        incl netloc ("http://[::1" : str)
        /\ bracket_error reject_brackets netloc
           = Some (ValueError "Invalid IPv6 URL")).
Proof.
  split.
  - apply (NormalizeMore.normalize_raises_for_brackets_only reject_brackets
             "example.com/a b").
    + repeat constructor.
    + reflexivity.
    + reflexivity.
  - apply (NormalizeMore.normalize_raises_for_brackets_only reject_brackets
             "http://[::1").
    + repeat constructor.
    + vm_compute; reflexivity.
Defined.

Lemma normalize_drops_fragment_run :
  normalize_url reject_brackets ("example.com/a" ++ "#"%char :: "top")
  = normalize_url reject_brackets "example.com/a".
Proof.
  apply (NormalizeMore.normalize_drops_fragment reject_brackets
           "example.com/a" "top").
  reflexivity.
Defined.

Lemma normalize_ignores_authority_case_run :
  normalize_url reject_brackets ("https" ++ "://" ++ "Example.COM" ++ "/Path")
  = normalize_url reject_brackets
      ("https" ++ "://" ++ lower "Example.COM" ++ "/Path").
Proof.
  apply (NormalizeMore.normalize_ignores_authority_case reject_brackets
           "https" "Example.COM" "/Path").
  - right; reflexivity.
  - repeat constructor.
  - right. exists "/"%char, ("Path" : str). split; reflexivity.
Defined.

Lemma normalize_drops_default_port_run :
  normalize_url reject_brackets ("http://" ++ "example.com" ++ ":80" ++ "/a")
  = normalize_url reject_brackets ("http://" ++ "example.com" ++ "/a")
  /\ normalize_url reject_brackets
       ("https://" ++ "example.com" ++ ":443" ++ "/a")
     = normalize_url reject_brackets ("https://" ++ "example.com" ++ "/a").
Proof.
  apply (NormalizeMore.normalize_drops_default_port reject_brackets
           "example.com" "/a").
  - repeat constructor.
  - reflexivity.
  - right. exists "/"%char, ("a" : str). split; reflexivity.
Defined.

Lemma normalize_drops_bare_slash_run :
  normalize_url reject_brackets
    ("https" ++ "://" ++ "example.com" ++ "/" ++ "?q=1")
  = normalize_url reject_brackets ("https" ++ "://" ++ "example.com" ++ "?q=1").
Proof.
  apply (NormalizeMore.normalize_drops_bare_slash reject_brackets
           "https" "example.com" "?q=1").
  - right; reflexivity.
  - repeat constructor.
  - right. exists "?"%char, ("q=1" : str). split; [reflexivity | left; reflexivity].
Defined.

(** "HTTP://example.com" is valid and its normal form is not. *)
Lemma normalize_keeps_valid_run :
  exists n,
    normalize_url reject_brackets "HTTP://example.com" = Return n
    /\ is_valid_url n
       = (startswith "http://" "HTTP://example.com"
          || startswith "https://" "HTTP://example.com").
Proof.
  apply (ValidityFacts.normalize_keeps_valid_iff_lower_scheme reject_brackets
           "HTTP://example.com").
  - repeat constructor.
  - vm_compute; reflexivity.
Defined.

Lemma shorten_rejects_upper_case_scheme_run :
  (shorten_view (fst (fst (shorten_url reject_brackets base_url
                             "HTTP://example.com" 100 rng_count [])))
   = Some InvalidUrl
   <-> startswith "http://" (strip "HTTP://example.com")
       || startswith "https://" (strip "HTTP://example.com") = false)
  /\ (shorten_view (fst (fst (shorten_url reject_brackets base_url
                                "HTTP://example.com" 100 rng_count [])))
      = Some InvalidUrl ->
      snd (shorten_url reject_brackets base_url "HTTP://example.com" 100
                       rng_count []) = []
      /\ snd (fst (shorten_url reject_brackets base_url "HTTP://example.com"
                               100 rng_count [])) = rng_count).
Proof.
  apply (ValidityFacts.shorten_rejects_upper_case_scheme reject_brackets
           base_url "HTTP://example.com" 100 rng_count []).
  - vm_compute; repeat constructor.
  - vm_compute; reflexivity.
Defined.

Lemma is_valid_url_whitespace_run :
  exists v nl : str,
    ("https://example.com/a" : str) = v ++ nl
    /\ (nl = [] \/ nl = [ascii_of_nat 10])
    /\ Forall (fun c => isspace c = false) v
    /\ is_valid_url v = true
    /\ is_valid_url (v ++ [ascii_of_nat 10]) = true.
Proof.
  apply (ValidityFacts.is_valid_url_whitespace "https://example.com/a").
  vm_compute; reflexivity.
Defined.

End Runs.
